(** * space-knowledge-engine: the analyze -> score transform

    A shallow embedding of [tools/parser_utils.py] ([clean_text]),
    [agents/analyzer_agent.py] ([AnalyzerAgent], with the [clean_text] it
    falls back to when the import of the former fails) and
    [agents/evaluator_agent.py] ([EvaluatorAgent]), together with the part of
    Python's [str], [re] and [float] that this code calls.  Around this
    transform stand the other functions of [tools/parser_utils.py], the
    batch functions of the two agents, [agents/summarizer_agent.py],
    [agents/memory_agent.py], the source loop of [agents/fetcher_agent.py]
    and the cycle of [agents/orchestrator_agent.py].

    Conventions of the embedding.
    - A Python [str] is a list of 8-bit characters read as the code points
      U+0000..U+00FF.  On that range [str.isspace], [str.lower], [\s] and [\d]
      are the tables written out in [Py]; text with code points above U+00FF
      is outside the model.  The one such character the code names, the μ
      (U+03BC) that [_extract_measurements] replaces, is kept in the
      statements through [analyzer_agent.replace_mu].
    - A Python [float] is the rational number it stands for ([Qc], canonical
      rationals, so that Leibniz equality is numerical equality).  Arithmetic
      is exact: binary64 rounding, infinities, NaN and the sign of zero are not
      represented.  The constants of the scorer (0.5, 1.0, 1.5, 2.0, 3.0, 6.0,
      -2.0) are dyadic, where binary64 arithmetic is exact as well.  A
      statement that rounding or overflow could break carries the bounds
      within which the arithmetic of the code is exact
      ([ScoreLocals.binary64], [ScoreLocals.exact_arithmetic]) or within
      which its error cannot reach the reported decimals.
    - A raised exception is a value of the error monad [exc]; [try]/[except]
      is [try_except].
    - What lies outside the program is an argument of the function that
      meets it: the storage file of the memory agent ([memory_agent.storage],
      passed in and returned), the readings of the clock, the items found in
      the samples directory, and the Gemini service
      ([summarizer_agent.gemini_env]).  Logging is left out. *)

From Stdlib Require Import ZArith QArith Qcanon Ascii String List Bool Lia Lqa.
From Stdlib Require Import Qround Qpower DecimalString.
From stdpp Require Import base option list strings gmap numbers.

Local Open Scope Z_scope.
Local Open Scope list_scope.

(** A Python string, as a sequence of characters. *)
Definition str := list ascii.

(** String literal. *)
Definition lit (s : string) : str := list_ascii_of_string s.

(* ================================================================== *)
(** * Python built-ins on [str] *)
(* ================================================================== *)

Module Py.

Definition code (c : ascii) : N := N_of_ascii c.

Definition in_range (lo hi : N) (c : ascii) : bool :=
  ((lo <=? code c) && (code c <=? hi))%N.

(** [str.isspace] on one character, which is also the class [\s] of [re]
    for [str] patterns: TAB..CR, FS..US, SPACE, NEL (U+0085), NBSP (U+00A0). *)
Definition is_space (c : ascii) : bool :=
  in_range 9 13 c || in_range 28 31 c || (code c =? 32)%N
  || (code c =? 133)%N || (code c =? 160)%N.

(** The class [\d] of [re]: below U+0100 the decimal digits are 0..9. *)
Definition is_digit (c : ascii) : bool := in_range 48 57 c.

Definition digit_value (c : ascii) : Z := Z.of_N (code c) - 48.

Definition is_ascii_upper (c : ascii) : bool := in_range 65 90 c.
Definition is_ascii_lower (c : ascii) : bool := in_range 97 122 c.
Definition is_ascii_letter (c : ascii) : bool :=
  is_ascii_upper c || is_ascii_lower c.

(** [str.lower] on one character: A..Z and the Latin-1 capitals
    U+00C0..U+00DE (without the multiplication sign U+00D7) move up by 32. *)
Definition lower_char (c : ascii) : ascii :=
  if is_ascii_upper c || (in_range 192 222 c && negb (code c =? 215)%N)
  then ascii_of_N (code c + 32)
  else c.

(** [s.lower()] *)
Definition lower (s : str) : str := map lower_char s.

(** [s.lstrip()], [s.rstrip()], [s.strip()] *)
Fixpoint lstrip (s : str) : str :=
  match s with
  | c :: s' => if is_space c then lstrip s' else s
  | [] => []
  end.

Definition rstrip (s : str) : str := rev (lstrip (rev s)).

Definition strip (s : str) : str := rstrip (lstrip s).

(** [s.split()]: the maximal runs of non-whitespace characters.  [cur] is
    the run being read. *)
Fixpoint split_from (s cur : str) : list str :=
  match s with
  | [] => match cur with [] => [] | _ => [cur] end
  | c :: s' =>
      if is_space c
      then match cur with [] => split_from s' [] | _ => cur :: split_from s' [] end
      else split_from s' (cur ++ [c])
  end.

Definition split (s : str) : list str := split_from s [].

(** [s.startswith(p)] *)
Fixpoint startswith (p s : str) : bool :=
  match p, s with
  | [], _ => true
  | _ :: _, [] => false
  | a :: p', b :: s' => Ascii.eqb a b && startswith p' s'
  end.

(** [needle in hay] *)
Fixpoint contains (needle hay : str) : bool :=
  startswith needle hay ||
  match hay with
  | [] => false
  | _ :: hay' => contains needle hay'
  end.

(** [s.replace(old, new)] for a one-character [old]. *)
Definition replace_char (old : ascii) (new : str) (s : str) : str :=
  flat_map (fun c => if Ascii.eqb c old then new else [c]) s.

(** [len(s)] *)
Definition len {A} (l : list A) : Z := Z.of_nat (length l).

(** [s[:n]]; a negative [n] counts from the end. *)
Definition slice_to (s : str) (n : Z) : str :=
  if n <? 0 then take (Z.to_nat (len s + n)) s else take (Z.to_nat n) s.

(** Truth value of a string: [not text] is [negb (truthy text)]. *)
Definition truthy {A} (l : list A) : bool :=
  match l with [] => false | _ => true end.

(** [sep.join(parts)] *)
Fixpoint join (sep : str) (parts : list str) : str :=
  match parts with
  | [] => []
  | p :: rest =>
      match rest with
      | [] => p
      | _ :: _ => p ++ sep ++ join sep rest
      end
  end.

(** [l[:n]] for a list; a negative [n] counts from the end. *)
Definition list_slice_to {A} (l : list A) (n : Z) : list A :=
  if n <? 0 then take (Z.to_nat (len l + n)) l else take (Z.to_nat n) l.

(** [s.rfind(c)] for a one-character [c]: the highest index at which [c]
    stands in [s], or -1.  [i] is the index of the head of [s], [best] the
    answer for the part already read. *)
Fixpoint rfind_from (c : ascii) (s : str) (i best : Z) : Z :=
  match s with
  | [] => best
  | x :: s' => rfind_from c s' (i + 1) (if Ascii.eqb x c then i else best)
  end.

Definition rfind (c : ascii) (s : str) : Z := rfind_from c s 0 (-1).

End Py.

(* ================================================================== *)
(** * The part of [re] the code uses *)
(* ================================================================== *)

Module Re.

(** Patterns.  Repetition is over a character class, which is the only
    form the module's patterns contain. *)
Inductive regex : Type :=
| Chr (p : ascii -> bool)            (* one character of a class *)
| Seq (r1 r2 : regex)                (* r1 r2 *)
| Alt (r1 r2 : regex)                (* r1|r2, the left branch first *)
| Opt (r : regex)                    (* r?, greedy *)
| Star (p : ascii -> bool)           (* [..]*, greedy *)
| Plus (p : ascii -> bool)           (* [..]+, greedy *)
| Behind (p : ascii -> bool)         (* (?<=[..]) *)
| Group (name : string) (r : regex). (* (?P<name>r) *)

(** Greedy repetition of a class: take the longest run first and give
    characters back one at a time while the continuation fails. *)
Fixpoint star_k {A} (p : ascii -> bool) (prev : option ascii) (s : str)
    (k : option ascii -> str -> option A) : option A :=
  match s with
  | c :: s' =>
      if p c
      then match star_k p (Some c) s' k with
           | Some a => Some a
           | None => k prev s
           end
      else k prev s
  | [] => k prev s
  end.

(** Backtracking matcher in continuation-passing style.  [prev] is the
    character before the current position, [s] the text from the current
    position on, [caps] the named groups closed so far. *)
Fixpoint run {A} (r : regex) (prev : option ascii) (s : str)
    (caps : gmap string str)
    (k : option ascii -> str -> gmap string str -> option A) : option A :=
  match r with
  | Chr p =>
      match s with
      | c :: s' => if p c then k (Some c) s' caps else None
      | [] => None
      end
  | Seq r1 r2 =>
      run r1 prev s caps (fun prev' s' caps' => run r2 prev' s' caps' k)
  | Alt r1 r2 =>
      match run r1 prev s caps k with
      | Some a => Some a
      | None => run r2 prev s caps k
      end
  | Opt r1 =>
      match run r1 prev s caps k with
      | Some a => Some a
      | None => k prev s caps
      end
  | Star p => star_k p prev s (fun prev' s' => k prev' s' caps)
  | Plus p =>
      match s with
      | c :: s' =>
          if p c then star_k p (Some c) s' (fun prev' s' => k prev' s' caps)
          else None
      | [] => None
      end
  | Behind p =>
      match prev with
      | Some c => if p c then k prev s caps else None
      | None => None
      end
  | Group name r1 =>
      run r1 prev s caps
        (fun prev' s' caps' =>
           k prev' s' (<[name := take (length s - length s') s]> caps'))
  end.

(** A match object: the matched text, the text after it, the groups. *)
Record rmatch : Type := mk_match {
  m_text : str;
  m_rest : str;
  m_groups : gmap string str
}.

(** [m.group(name)] for a group that took part in the match. *)
Definition group (m : rmatch) (name : string) : str :=
  default [] (m_groups m !! name).

(** [pattern.match] at the current position. *)
Definition match_at (r : regex) (prev : option ascii) (s : str)
    : option rmatch :=
  run r prev s ∅
    (fun _ s' caps =>
       Some (mk_match (take (length s - length s') s) s' caps)).

(** One left-to-right pass over the text: the non-overlapping matches,
    each with the unmatched text before it, and the unmatched tail.
    [skip] counts the characters of the last match still to step over,
    [gap] is the unmatched text read since the last match.  No pattern of
    this program can match the empty string ([patterns_not_nullable],
    [match_at_prefix]), so CPython's rules for empty matches play no part;
    here an empty match is recorded and the scan moves on by one
    character. *)
Fixpoint scan_from (r : regex) (prev : option ascii) (s : str)
    (skip : nat) (gap : str) : list (str * rmatch) * str :=
  match s with
  | [] => ([], gap)
  | c :: s' =>
      match skip with
      | S n => scan_from r (Some c) s' n gap
      | O =>
          match match_at r prev s with
          | Some m =>
              let gap' := match m_text m with [] => [c] | _ => [] end in
              let '(ms, tail) :=
                scan_from r (Some c) s' (length (m_text m) - 1) gap' in
              ((gap, m) :: ms, tail)
          | None => scan_from r (Some c) s' 0 (gap ++ [c])
          end
      end
  end.

Definition scan (r : regex) (s : str) : list (str * rmatch) * str :=
  scan_from r None s 0 [].

(** [pattern.finditer(s)] *)
Definition finditer (r : regex) (s : str) : list rmatch :=
  map snd (fst (scan r s)).

(** [pattern.findall(s)] for a pattern without groups. *)
Definition findall (r : regex) (s : str) : list str :=
  map m_text (finditer r s).

(** [pattern.search(s)] *)
Definition search (r : regex) (s : str) : option rmatch :=
  head (finditer r s).

(** [pattern.split(s)] for a pattern without groups. *)
Definition split (r : regex) (s : str) : list str :=
  map fst (fst (scan r s)) ++ [snd (scan r s)].

(** [pattern.sub(repl, s)] for a literal replacement. *)
Definition sub (r : regex) (repl : str) (s : str) : str :=
  flat_map (fun gm => fst gm ++ repl) (fst (scan r s)) ++ snd (scan r s).

(** The characters of [s], one after the other, and then [r]. *)
Fixpoint literal (s : str) (r : regex) : regex :=
  match s with
  | [] => r
  | c :: s' => Seq (Chr (Ascii.eqb c)) (literal s' r)
  end.

End Re.

(* ================================================================== *)
(** * Exceptions *)
(* ================================================================== *)

(** The exceptions the modelled calls can raise: [float] on a string that
    is not a number. *)
Inductive exn : Type := ValueError.

Inductive exc (A : Type) : Type :=
| Ok (a : A)
| Raise (e : exn).
Arguments Ok {A} a.
Arguments Raise {A} e.

Global Instance exc_ret : MRet exc := fun A a => Ok a.
Global Instance exc_bind : MBind exc := fun A B f m =>
  match m with
  | Ok a => f a
  | Raise e => Raise e
  end.

(** [try: body  except Exception: handler] *)
Definition try_except {A} (body : exc A) (handler : exn -> exc A) : exc A :=
  match body with
  | Ok a => Ok a
  | Raise e => handler e
  end.

(* ================================================================== *)
(** * Numbers *)
(* ================================================================== *)

Module Num.

(** A Python float that is a number (no infinity, no NaN), by its value. *)
Definition float : Type := Qc.

(** The float written [n/d] in decimal, e.g. [dec 5 10] for 0.5. *)
Definition dec (n : Z) (d : positive) : float := Q2Qc (n # d).

(** [float(z)] of an int, and the int operand of [int * float]. *)
Definition float_of_int (z : Z) : float := Q2Qc (inject_Z z).

Definition fltb (a b : float) : bool := negb (Qle_bool b a).
Definition fleb (a b : float) : bool := Qle_bool a b.

(** [min(a, b)]: the first argument unless the second is smaller. *)
Definition py_min (a b : float) : float := if fltb b a then b else a.

(** Nearest integer, ties to the even one. *)
Definition round_half_even (q : Q) : Z :=
  let f := Qfloor q in
  match Qcompare (q - inject_Z f) (1 # 2) with
  | Lt => f
  | Gt => f + 1
  | Eq => if Z.even f then f else f + 1
  end.

(** [round(x, ndigits)] for [ndigits >= 0]: the decimal with [ndigits]
    places nearest to [x], ties to even. *)
Definition py_round (x : float) (ndigits : nat) : float :=
  let scale := inject_Z (10 ^ Z.of_nat ndigits) in
  Q2Qc (inject_Z (round_half_even (x * scale)) / scale).

(** [str(z)] of an int. *)
Definition str_of_int (z : Z) : str :=
  list_ascii_of_string (NilZero.string_of_int (Z.to_int z)).

(** [f"{x:.1f}"]: one decimal place, ties to even, a minus sign for a
    negative [x]. *)
Definition format_1f (x : float) : str :=
  let n := Z.abs (round_half_even (x * inject_Z 10)) in
  (if fltb x (float_of_int 0) then lit "-" else [])
    ++ str_of_int (n / 10) ++ lit "." ++ str_of_int (n mod 10).

(** Sign of a numeric literal: [(negative, rest)]. *)
Definition read_sign (s : str) : bool * str :=
  match s with
  | c :: s' =>
      if Ascii.eqb c "-" then (true, s')
      else if Ascii.eqb c "+" then (false, s')
      else (false, s)
  | [] => (false, s)
  end.

(** Leading digits: [(digits, rest)]. *)
Fixpoint read_digits (s : str) : str * str :=
  match s with
  | c :: s' =>
      if Py.is_digit c
      then let '(ds, rest) := read_digits s' in (c :: ds, rest)
      else ([], s)
  | [] => ([], [])
  end.

(** Value of a digit string, most significant digit first. *)
Definition digits_value (ds : str) : Z :=
  fold_left (fun acc c => 10 * acc + Py.digit_value c) ds 0.

(** [mant * 10^e] *)
Definition scale10 (mant : Z) (e : Z) : float :=
  if e <? 0
  then Q2Qc (inject_Z mant / inject_Z (10 ^ (- e)))
  else Q2Qc (inject_Z (mant * 10 ^ e)).

Definition signed (neg : bool) (z : Z) : Z := if neg then - z else z.

(** [float(s)] on a decimal literal: optional sign, digits with an
    optional point (at least one digit), optional exponent.  Any other
    string raises [ValueError] (the spellings of infinity and NaN, digit
    separators and surrounding blanks, which [float] also reads, are not
    produced by the patterns of this program and are not modelled). *)
Definition py_float (s : str) : exc float :=
  let '(neg, s1) := read_sign s in
  let '(ip, s2) := read_digits s1 in
  let '(fp, s3) :=
    match s2 with
    | c :: s2' => if Ascii.eqb c "." then read_digits s2' else ([], s2)
    | [] => ([], s2)
    end in
  let mant := signed neg (digits_value (ip ++ fp)) in
  let frac := Z.of_nat (length fp) in
  match ip ++ fp with
  | [] => Raise ValueError
  | _ =>
      match s3 with
      | [] => Ok (scale10 mant (- frac))
      | c :: s4 =>
          if Ascii.eqb c "e" || Ascii.eqb c "E"
          then
            let '(eneg, s5) := read_sign s4 in
            let '(ed, s6) := read_digits s5 in
            match ed, s6 with
            | _ :: _, [] =>
                Ok (scale10 mant (signed eneg (digits_value ed) - frac))
            | _, _ => Raise ValueError
            end
          else Raise ValueError
      end
  end.

End Num.

(* ================================================================== *)
(** * tools/parser_utils.py *)
(* ================================================================== *)

Module parser_utils.

Definition TAB : ascii := ascii_of_N 9.
Definition CR : ascii := ascii_of_N 13.

(** [_WS_RE = re.compile(r"\s+")] *)
Definition _WS_RE : Re.regex := Re.Plus Py.is_space.

Definition clean_text (text : str) : str :=
  if negb (Py.truthy text) then []
  else
    let text := Py.replace_char TAB (lit " ")
                  (Py.replace_char CR (lit " ") text) in
    let text := Re.sub _WS_RE (lit " ") text in
    Py.strip text.

(** [_SENTENCE_SPLIT_RE = re.compile(r"(?<=[\.\?\!])\s+")] *)
Definition is_sentence_end (c : ascii) : bool :=
  Ascii.eqb c "." || Ascii.eqb c "?" || Ascii.eqb c "!".

Definition _SENTENCE_SPLIT_RE : Re.regex :=
  Re.Seq (Re.Behind is_sentence_end) (Re.Plus Py.is_space).

Definition normalize_whitespace (text : str) : str := clean_text text.

Definition extract_sentences (text : str) : list str :=
  if negb (Py.truthy text) then []
  else
    let cleaned := clean_text text in
    map Py.strip
      (filter (fun s => Is_true (Py.truthy (Py.strip s)))
         (Re.split _SENTENCE_SPLIT_RE cleaned)).

(** The default of [n] is 2. *)
Definition first_n_sentences (text : str) (n : Z) : str :=
  let sents := extract_sentences text in
  if negb (Py.truthy sents) then []
  else Py.strip (Py.join (lit " ") (Py.list_slice_to sents n)).

(** [\S] *)
Definition is_nonspace (c : ascii) : bool := negb (Py.is_space c).

(** [url_re = re.compile(r"https?://\S+|www\.\S+")] *)
Definition url_re : Re.regex :=
  Re.Alt
    (Re.literal (lit "http")
       (Re.Seq (Re.Opt (Re.Chr (Ascii.eqb "s")))
          (Re.literal (lit "://") (Re.Plus is_nonspace))))
    (Re.literal (lit "www.") (Re.Plus is_nonspace)).

Definition remove_urls (text : str) : str :=
  if negb (Py.truthy text) then []
  else Py.strip (Re.sub url_re [] text).

(** The default of [max_chars] is 400. *)
Definition truncate (text : str) (max_chars : Z) : str :=
  if negb (Py.truthy text) then []
  else if Py.len text <=? max_chars then text
  else
    let cut := Py.slice_to text (max_chars - 1) in
    let last_space := Py.rfind " " cut in
    if 0 <? last_space
    then Py.rstrip (Py.slice_to cut last_space) ++ lit "..."
    else Py.rstrip cut ++ lit "...".

End parser_utils.

(* ================================================================== *)
(** * The dictionaries passed between the agents *)
(* ================================================================== *)

(** One entry of ["measurements"]. *)
Record measurement : Type := mk_measurement {
  value : Num.float;
  unit : str;
  raw : str
}.

(** The analysis dict built by [AnalyzerAgent.analyze_text]. *)
Record analysis : Type := mk_analysis {
  word_count : Z;
  sentence_count : Z;
  numbers_found : list Num.float;
  measurements : list measurement;
  keywords_detected : list str;
  claims : list str;
  snippet : str
}.

(** An input item of the analyzer; an absent key is [None]. *)
Record item : Type := mk_item {
  item_id : option str;
  item_title : option str;
  item_source : option str;
  item_raw : option str
}.

(** The dict returned by [run_on_item] and read by [EvaluatorAgent.score];
    an absent key is [None]. *)
Record analysis_item : Type := mk_analysis_item {
  original_id : option str;
  title : option str;
  source : option str;
  ai_analysis : option analysis
}.

(* ================================================================== *)
(** * agents/analyzer_agent.py *)
(* ================================================================== *)

Module analyzer_agent.

Import parser_utils.

Definition is_sign (c : ascii) : bool := Ascii.eqb c "-" || Ascii.eqb c "+".
Definition is_dot (c : ascii) : bool := Ascii.eqb c ".".

(** [e] under [re.IGNORECASE] *)
Definition is_e (c : ascii) : bool := Ascii.eqb c "e" || Ascii.eqb c "E".

(** [[\s\-]] *)
Definition is_sep (c : ascii) : bool := Py.is_space c || Ascii.eqb c "-".

(** [[A-Za-z/%°μkmhdys]] under [re.IGNORECASE].  The degree sign is U+00B0.
    The pattern's μ is U+03BC; case folding makes the class accept the
    micro sign U+00B5 with it, the one of the two that an 8-bit string can
    contain. *)
Definition is_unit_char (c : ascii) : bool :=
  Py.is_ascii_letter c || Ascii.eqb c "/" || Ascii.eqb c "%"
  || (Py.code c =? 176)%N || (Py.code c =? 181)%N.

(** [[\.\?\!]] *)
Definition is_sentence_end (c : ascii) : bool :=
  Ascii.eqb c "." || Ascii.eqb c "?" || Ascii.eqb c "!".

(** [[-+]?\d*\.\d+] *)
Definition signed_decimal : Re.regex :=
  Re.Seq (Re.Opt (Re.Chr is_sign))
    (Re.Seq (Re.Star Py.is_digit)
       (Re.Seq (Re.Chr is_dot) (Re.Plus Py.is_digit))).

(** [_NUMBER_RE = re.compile(r"[-+]?\d*\.\d+|\d+")] *)
Definition _NUMBER_RE : Re.regex :=
  Re.Alt signed_decimal (Re.Plus Py.is_digit).

(** [_MEASUREMENT_RE = re.compile(
      r"(?P<raw>(?P<value>[-+]?\d*\.\d+|\d+(?:e[-+]?\d+)?)[\s\-]*(?P<unit>[A-Za-z/%°μkmhdys]+))",
      flags=re.IGNORECASE)] *)
Definition _MEASUREMENT_RE : Re.regex :=
  Re.Group "raw"
    (Re.Seq
       (Re.Group "value"
          (Re.Alt signed_decimal
             (Re.Seq (Re.Plus Py.is_digit)
                (Re.Opt
                   (Re.Seq (Re.Chr is_e)
                      (Re.Seq (Re.Opt (Re.Chr is_sign))
                         (Re.Plus Py.is_digit)))))))
       (Re.Seq (Re.Star is_sep)
          (Re.Group "unit" (Re.Plus is_unit_char)))).

(** [_SENTENCE_SPLIT_RE = re.compile(r"(?<=[\.\?\!])\s+")] *)
Definition _SENTENCE_SPLIT_RE : Re.regex :=
  Re.Seq (Re.Behind is_sentence_end) (Re.Plus Py.is_space).

Record AnalyzerAgent : Type := mk_AnalyzerAgent {
  keywords : list str;
  min_claim_length : Z;
  max_snippet_chars : Z
}.

Definition DEFAULT_KEYWORDS : list str :=
  map lit
    [ "exoplanet"; "orbital"; "orbit"; "radius"; "mass"; "transit";
      "spectra"; "spectrum"; "atmosphere"; "cme"; "solar"; "habitability";
      "habitable"; "apparent magnitude"; "period"; "days"; "light-years";
      "spectroscopy" ]%string.

(** [AnalyzerAgent.__init__]; the defaults of the last two parameters are
    30 and 400. *)
Definition __init__ (keywords : option (list str))
    (min_claim_length max_snippet_chars : Z) : AnalyzerAgent :=
  {| keywords :=
       map Py.lower
         (match keywords with
          | Some kws => if Py.truthy kws then kws else DEFAULT_KEYWORDS
          | None => DEFAULT_KEYWORDS
          end);
     min_claim_length := min_claim_length;
     max_snippet_chars := max_snippet_chars |}.

(** [AnalyzerAgent()] *)
Definition default_agent : AnalyzerAgent := __init__ None 30 400.

(** The loop of [_extract_numbers]: [ms] are the tokens still to visit,
    [vals] the list built so far. *)
Fixpoint extract_numbers_loop (ms : list str) (vals : list Num.float)
    : exc (list Num.float) :=
  match ms with
  | [] => mret vals
  | m :: ms' =>
      vals' ← try_except
                (v ← Num.py_float m; mret (vals ++ [v]))
                (fun _ => mret vals);
      extract_numbers_loop ms' vals'
  end.

Definition _extract_numbers (text : str) : exc (list Num.float) :=
  extract_numbers_loop (Re.findall _NUMBER_RE text) [].

(** [unit.replace("μ", "u")]: every character with the code point of the
    Greek letter μ, U+03BC, gives way to [u].  (The micro sign U+00B5 is a
    different character and stays.)  The code points of an 8-bit string end
    at U+00FF, so on the strings of this embedding the call finds nothing to
    replace ([replace_mu_8bit] below); the statements about the unit are
    written with [replace_mu], as the code has it. *)
Definition MU : N := 956.

Definition replace_mu (unit : str) : str :=
  flat_map (fun c => if (Py.code c =? MU)%N then lit "u" else [c]) unit.

Fixpoint extract_measurements_loop (ms : list Re.rmatch)
    (results : list measurement) : exc (list measurement) :=
  match ms with
  | [] => mret results
  | m :: ms' =>
      results' ← try_except
                   (let raw := Re.group m "raw" in
                    let val_str := Re.group m "value" in
                    let unit := Py.strip (Re.group m "unit") in
                    let unit := replace_mu unit in
                    value ← Num.py_float val_str;
                    mret (results ++ [mk_measurement value unit raw]))
                   (fun _ => mret results);
      extract_measurements_loop ms' results'
  end.

Definition _extract_measurements (text : str) : exc (list measurement) :=
  extract_measurements_loop (Re.finditer _MEASUREMENT_RE text) [].

Definition _find_keywords (self : AnalyzerAgent) (text : str) : list str :=
  let lower := Py.lower text in
  filter (fun kw => Is_true (Py.contains kw lower)) (keywords self).

Definition _extract_sentences (text : str) : list str :=
  if negb (Py.truthy text) then []
  else
    map Py.strip
      (filter (fun s => Is_true (Py.truthy (Py.strip s)))
         (Re.split _SENTENCE_SPLIT_RE text)).

(** The test of [_find_claims] on one sentence. *)
Definition is_claim (self : AnalyzerAgent) (s : str) : bool :=
  if Py.len s <? min_claim_length self then false
  else
    bool_decide (is_Some (Re.search _MEASUREMENT_RE s))
    || existsb (fun kw => Py.contains kw (Py.lower s)) (keywords self).

Definition _find_claims (self : AnalyzerAgent) (text : str) : list str :=
  let sents := _extract_sentences text in
  filter (fun s => Is_true (is_claim self s)) sents.

(** [raw_text or ""] is [raw_text] for every string.  Of the calls made
    here only [float], inside the two extraction loops, can raise on a
    string; the others ([split], [strip], [lower], [in], the scans of [re],
    slicing) return for every string. *)
Definition analyze_text (self : AnalyzerAgent) (raw_text : str)
    : exc analysis :=
  let cleaned := clean_text raw_text in
  let word_count := Py.len (Py.split cleaned) in
  let sentences := _extract_sentences cleaned in
  let sentence_count := Py.len sentences in
  numbers ← _extract_numbers cleaned;
  measurements ← _extract_measurements cleaned;
  let keywords := _find_keywords self cleaned in
  let claims := _find_claims self cleaned in
  let snippet :=
    Py.slice_to cleaned (max_snippet_chars self)
      ++ (if max_snippet_chars self <? Py.len cleaned then lit "..." else [])
  in
  mret {| word_count := word_count;
          sentence_count := sentence_count;
          numbers_found := numbers;
          measurements := measurements;
          keywords_detected := keywords;
          claims := claims;
          snippet := snippet |}.

(** The module takes [clean_text] from [tools/parser_utils.py]; when that
    import fails it defines this one in its place:
    [if not s: return ""] and then [return " ".join(s.split())]. *)
Definition fallback_clean_text (s : str) : str :=
  if negb (Py.truthy s) then [] else Py.join (lit " ") (Py.split s).

(** [analyze_text] in a module whose global [clean_text] is bound to
    [clean_text]: the body above, with the normalizer as a parameter. *)
Definition analyze_text_with (clean_text : str -> str)
    (self : AnalyzerAgent) (raw_text : str) : exc analysis :=
  let cleaned := clean_text raw_text in
  let word_count := Py.len (Py.split cleaned) in
  let sentences := _extract_sentences cleaned in
  let sentence_count := Py.len sentences in
  numbers ← _extract_numbers cleaned;
  measurements ← _extract_measurements cleaned;
  let keywords := _find_keywords self cleaned in
  let claims := _find_claims self cleaned in
  let snippet :=
    Py.slice_to cleaned (max_snippet_chars self)
      ++ (if max_snippet_chars self <? Py.len cleaned then lit "..." else [])
  in
  mret {| word_count := word_count;
          sentence_count := sentence_count;
          numbers_found := numbers;
          measurements := measurements;
          keywords_detected := keywords;
          claims := claims;
          snippet := snippet |}.

(** [raw = item.get("raw", "") or ""] *)
Definition run_on_item (self : AnalyzerAgent) (it : item)
    : exc analysis_item :=
  let raw := default [] (item_raw it) in
  analysis ← analyze_text self raw;
  mret {| original_id := item_id it;
          title := item_title it;
          source := item_source it;
          ai_analysis := Some analysis |}.

(** The loop of [run]: [results] is the list built so far; an item whose
    analysis raises is logged and left out. *)
Fixpoint run_loop (self : AnalyzerAgent) (items : list item)
    (results : list analysis_item) : exc (list analysis_item) :=
  match items with
  | [] => mret results
  | it :: items' =>
      results' ← try_except
                   (res ← run_on_item self it; mret (results ++ [res]))
                   (fun _ => mret results);
      run_loop self items' results'
  end.

Definition run (self : AnalyzerAgent) (items : list item)
    : exc (list analysis_item) :=
  run_loop self items [].

End analyzer_agent.

(* ================================================================== *)
(** * agents/evaluator_agent.py *)
(* ================================================================== *)

Module evaluator_agent.

Import Num.
Local Open Scope Qc_scope.

Record EvaluatorAgent : Type := mk_EvaluatorAgent {
  threshold : float;
  weights : gmap string float;
  numeric_count_for_bonus : Z;
  min_word_count_for_length_bonus : Z;
  min_claim_length_for_bonus : Z
}.

Definition DEFAULT_WEIGHTS : gmap string float :=
  <["keyword" := dec 20 10]>
    (<["numeric_bonus" := dec 30 10]>
       (<["length_bonus" := dec 10 10]>
          (<["claim_bonus" := dec 15 10]> ∅))).

(** [EvaluatorAgent.__init__]: [w = dict(DEFAULT_WEIGHTS)], then
    [w.update(weights)] when [weights] is given and not empty.  The default
    of [threshold] is 3.0. *)
Definition __init__ (threshold : float)
    (weights : option (gmap string float)) : EvaluatorAgent :=
  {| threshold := threshold;
     weights :=
       match weights with
       | Some ws => ws ∪ DEFAULT_WEIGHTS
       | None => DEFAULT_WEIGHTS
       end;
     numeric_count_for_bonus := 2;
     min_word_count_for_length_bonus := 20;
     min_claim_length_for_bonus := 1 |}.

(** [EvaluatorAgent()] *)
Definition default_agent : EvaluatorAgent := __init__ (dec 30 10) None.

(** The dict returned by [score]. *)
Record ScoreResult : Type := mk_ScoreResult {
  sr_original_id : option str;
  score_value : float;           (* "score" *)
  passed_threshold : bool;
  reasons : list str;
  breakdown : gmap string float;
  raw_analysis : option analysis (* the analysis dict; [None] is [{}] *)
}.

(** [float(self.weights.get(key, dflt))] *)
Definition weight (self : EvaluatorAgent) (key : string) (dflt : float)
    : float :=
  default dflt (weights self !! key).

(** [analysis.get(key, dflt)], and [... or []] for the list fields *)
Definition field {A} (a : option analysis) (get : analysis -> A) (dflt : A)
    : A :=
  match a with
  | Some r => get r
  | None => dflt
  end.

(** [score].  On a dict with an int word count and lists in the list fields
    none of its calls ([int], [float], [len], [min], [round], the format
    strings) can raise, so the result is a plain value.  The first line,
    [analysis_item.get("analysis", {}) if analysis_item else {}], gives the
    same for an empty dict on both branches. *)
Definition score (self : EvaluatorAgent) (analysis_item : analysis_item)
    : ScoreResult :=
  let analysis := ai_analysis analysis_item in
  let wc := field analysis word_count 0%Z in
  let numbers := field analysis numbers_found [] in
  let measurements := field analysis measurements [] in
  let keywords := field analysis keywords_detected [] in
  let claims := field analysis claims [] in

  let reasons : list str := [] in
  let breakdown : gmap string float := ∅ in

  (* Keyword score *)
  let keyword_pts :=
    float_of_int (Py.len keywords) * weight self "keyword" (dec 20 10) in
  let breakdown := <["keyword_score" := keyword_pts]> breakdown in
  let reasons :=
    if (0 <? Py.len keywords)%Z
    then reasons ++ [lit "Keywords detected: " ++ str_of_int (Py.len keywords)
                       ++ lit " (+" ++ format_1f keyword_pts ++ lit ")"]
    else reasons in

  (* Numeric/data density bonus *)
  let numeric_hit := (numeric_count_for_bonus self <? Py.len numbers)%Z in
  let numeric_pts :=
    if numeric_hit then weight self "numeric_bonus" (dec 30 10)
    else dec 0 10 in
  let reasons :=
    if numeric_hit
    then reasons ++ [lit "Numeric density high (" ++ str_of_int (Py.len numbers)
                       ++ lit " numbers) (+" ++ format_1f numeric_pts ++ lit ")"]
    else reasons in
  let breakdown := <["numeric_score" := numeric_pts]> breakdown in

  (* Measurement presence *)
  let measurement_hit := (0 <? Py.len measurements)%Z in
  let measurement_pts :=
    if measurement_hit
    then py_min (float_of_int (Py.len measurements) * dec 5 10) (dec 30 10)
    else dec 0 10 in
  let reasons :=
    if measurement_hit
    then reasons ++ [lit "Measurements found: " ++ str_of_int (Py.len measurements)
                       ++ lit " (+" ++ format_1f measurement_pts ++ lit ")"]
    else reasons in
  let breakdown := <["measurement_score" := measurement_pts]> breakdown in

  (* Content length heuristic *)
  let length_hit := (min_word_count_for_length_bonus self <=? wc)%Z in
  let length_pts :=
    if length_hit then weight self "length_bonus" (dec 10 10)
    else dec 0 10 in
  let breakdown := <["length_score" := length_pts]> breakdown in
  let reasons :=
    if length_hit
    then reasons ++ [lit "Content length sufficient (" ++ str_of_int wc
                       ++ lit " words) (+" ++ format_1f length_pts ++ lit ")"]
    else reasons ++ [lit "Short content (" ++ str_of_int wc
                       ++ lit " words) (no length bonus)"] in

  (* Claims heuristic *)
  let claim_pts :=
    py_min (float_of_int (Py.len claims) * weight self "claim_bonus" (dec 15 10))
           (dec 60 10) in
  let reasons :=
    if fltb (dec 0 10) claim_pts
    then reasons ++ [lit "Claims detected: " ++ str_of_int (Py.len claims)
                       ++ lit " (+" ++ format_1f claim_pts ++ lit ")"]
    else reasons in
  let breakdown := <["claim_score" := claim_pts]> breakdown in

  (* Penalty for extremely short items *)
  let short := (wc <? 6)%Z in
  let penalty := if short then dec (-20) 10 else dec 0 10 in
  let reasons :=
    if short then reasons ++ [lit "Very short content; penalized (-2.0)"]
    else reasons in
  let breakdown := <["penalty" := penalty]> breakdown in

  (* Total score *)
  let total_score :=
    keyword_pts + numeric_pts + measurement_pts + length_pts + claim_pts
    + penalty in

  let passed := fleb (threshold self) total_score in

  {| sr_original_id := original_id analysis_item;
     score_value := py_round total_score 3;
     passed_threshold := passed;
     reasons := reasons;
     breakdown := breakdown;
     raw_analysis := analysis |}.

(** The loop of [evaluate_batch]: [scored] is the list built so far.
    [score] returns for every item (see above), so the [except] branch of
    the loop body is never taken. *)
Fixpoint evaluate_batch_loop (self : EvaluatorAgent)
    (items : list analysis_item) (scored : list ScoreResult)
    : list ScoreResult :=
  match items with
  | [] => scored
  | it :: items' => evaluate_batch_loop self items' (scored ++ [score self it])
  end.

Definition evaluate_batch (self : EvaluatorAgent) (items : list analysis_item)
    : list ScoreResult :=
  evaluate_batch_loop self items [].

Definition filter_passed (self : EvaluatorAgent)
    (scored_items : list ScoreResult) : list ScoreResult :=
  filter (fun s => Is_true (passed_threshold s)) scored_items.




End evaluator_agent.

(* ================================================================== *)
(** * agents/summarizer_agent.py *)
(* ================================================================== *)

Module summarizer_agent.

Record SummarizerAgent : Type := mk_SummarizerAgent {
  use_gemini : bool
}.

Definition __init__ (use_gemini : bool) : SummarizerAgent :=
  {| use_gemini := use_gemini |}.

(** What the call of the Gemini client did: it raised, or it returned a
    response whose [text] is absent ([None]) or a string. *)
Inductive outcome : Type :=
| Failed
| Answered (text : option str).

(** What [_summarize_with_gemini] finds outside the program: the
    environment variable [GEMINI_API_KEY], whether
    [google.generativeai] can be imported, and what the client does with
    the prompt built from a text under a given key. *)
Record gemini_env : Type := mk_gemini_env {
  api_key : option str;
  library : bool;
  generate_content : str -> str -> outcome
}.

Definition _summarize_local (self : SummarizerAgent) (text : str)
    (analysis : option analysis) : str :=
  let claims := evaluator_agent.field analysis claims [] in
  let keywords := evaluator_agent.field analysis keywords_detected [] in
  let excerpt :=
    if Py.truthy claims
    then Py.join (lit " ") (Py.list_slice_to claims 2)
    else
      let snippet := evaluator_agent.field analysis snippet [] in
      Py.slice_to snippet 200 in
  let kw :=
    if Py.truthy keywords then Py.join (lit ", ") keywords
    else lit "no key terms detected" in
  Py.strip excerpt ++ [ascii_of_N 10; ascii_of_N 10]
    ++ lit "(Key terms: " ++ kw ++ lit ")".

Definition _summarize_with_gemini (self : SummarizerAgent) (env : gemini_env)
    (text : str) : str :=
  match api_key env with
  | None => []
  | Some key =>
      if negb (Py.truthy key) then []
      else if negb (library env) then []
      else
        match generate_content env key text with
        | Failed => []
        | Answered None => []
        | Answered (Some t) => if Py.truthy t then Py.strip t else []
        end
  end.

(** [raw_text = item.get("raw", "") or ""] *)
Definition summarize (self : SummarizerAgent) (env : gemini_env)
    (item : item) (analysis : option analysis) : str :=
  let raw_text := default [] (item_raw item) in
  if use_gemini self
  then
    let summary := _summarize_with_gemini self env raw_text in
    if Py.truthy summary then summary
    else _summarize_local self raw_text analysis
  else _summarize_local self raw_text analysis.

End summarizer_agent.

(* ================================================================== *)
(** * agents/memory_agent.py *)
(* ================================================================== *)

Module memory_agent.

(** What [json] writes and reads back. *)
Local Unset Elimination Schemes.
Inductive json : Type :=
| JNull
| JBool (b : bool)
| JInt (n : Z)
| JNum (x : Num.float)
| JStr (s : str)
| JList (l : list json)
| JObj (o : list (string * json)).
Local Set Elimination Schemes.

(** One record of the storage format: ["key"], ["timestamp"], ["data"]. *)
Record record : Type := mk_record {
  rec_key : str;
  rec_timestamp : Num.float;
  rec_data : gmap string json
}.

(** The file at [storage_path]: the records it holds ([None] when the
    file is missing or is not JSON), and whether it can be opened for
    writing.  A file that holds something holds records of the storage
    format, which is all this class writes. *)
Record storage : Type := mk_storage {
  content : option (list record);
  writable : bool
}.

Definition _load (st : storage) : list record := default [] (content st).

Definition _save (data : list record) (st : storage) : storage :=
  if writable st then {| content := Some data; writable := true |} else st.

(** The loop of [store]: the first record under [key] is replaced; the
    flag is [updated]. *)
Fixpoint replace_first (key : str) (new : record) (memory : list record)
    : list record * bool :=
  match memory with
  | [] => ([], false)
  | old :: rest =>
      if decide (rec_key old = key) then (new :: rest, true)
      else
        let '(rest', updated) := replace_first key new rest in
        (old :: rest', updated)
  end.

(** [store]; [now] is the reading of [time.time()]. *)
Definition store (now : Num.float) (key : str) (data : gmap string json)
    (st : storage) : storage :=
  let memory := _load st in
  let new := {| rec_key := key; rec_timestamp := now; rec_data := data |} in
  let '(memory, updated) := replace_first key new memory in
  let memory := if updated then memory else memory ++ [new] in
  _save memory st.

(** [record.get("data", {}).get("summary", "")] *)
Definition summary_of (r : record) : json :=
  default (JStr []) (rec_data r !! "summary").

(** The test of [query_similar] on one record; [text] is in lower case. *)
Definition is_similar (text : str) (r : record) : bool :=
  match summary_of r with
  | JStr summary => Py.contains text (Py.lower summary)
  | _ => false
  end.

Definition query_similar (text : str) (st : storage) : list record :=
  let text := Py.lower text in
  let memory := _load st in
  filter (fun r => Is_true (is_similar text r)) memory.

(** [del data["raw"]] on the data of one record. *)
Definition without_raw (r : record) : record :=
  {| rec_key := rec_key r;
     rec_timestamp := rec_timestamp r;
     rec_data := delete "raw" (rec_data r) |}.

(** [compact]: the loop deletes ["raw"] wherever it stands and sets
    [changed] when it did. *)
Definition compact (st : storage) : storage :=
  let memory := _load st in
  let changed :=
    existsb (fun r => bool_decide (is_Some (rec_data r !! "raw"))) memory in
  let memory := map without_raw memory in
  if changed then _save memory st else st.

End memory_agent.

(* ================================================================== *)
(** * agents/fetcher_agent.py *)
(* ================================================================== *)

Module fetcher_agent.

Record FetcherAgent : Type := mk_FetcherAgent {
  samples_dir : str;
  demo_mode : bool
}.

Definition fetch_from_arxiv (self : FetcherAgent) : list item :=
  if demo_mode self then [] else [].

Definition fetch_from_nasa_apod (self : FetcherAgent) : list item :=
  if demo_mode self
  then [ {| item_id := Some (lit "nasa_apod_mock");
            item_title := Some (lit "Mock NASA APOD");
            item_source := Some (lit "nasa_apod_mock");
            item_raw :=
              Some (lit "Mock NASA APOD content used for offline demonstrations.") |} ]
  else [].

(** The first loop of [run]; [local] is what [_fetch_local_samples] reads
    from the samples directory. *)
Fixpoint fetch_sources (self : FetcherAgent) (local : list item)
    (sources : list str) (results : list item) : list item :=
  match sources with
  | [] => results
  | src :: sources' =>
      fetch_sources self local sources'
        (if decide (src = lit "local") then results ++ local
         else if decide (src = lit "arxiv")
              then results ++ fetch_from_arxiv self
         else if decide (src = lit "nasa_apod")
              then results ++ fetch_from_nasa_apod self
         else results)
  end.

(** The second loop of [run]: [seen] holds the ids met so far. *)
Fixpoint deduplicate (results : list item) (seen : gset (option str))
    (unique : list item) : list item :=
  match results with
  | [] => unique
  | item :: results' =>
      let iid := item_id item in
      if decide (iid ∈ seen) then deduplicate results' seen unique
      else deduplicate results' ({[ iid ]} ∪ seen) (unique ++ [item])
  end.

Definition run (self : FetcherAgent) (local : list item)
    (sources : option (list str)) : list item :=
  let sources := default [lit "local"] sources in
  let results := fetch_sources self local sources [] in
  deduplicate results ∅ [].

End fetcher_agent.

(* ================================================================== *)
(** * agents/orchestrator_agent.py *)
(* ================================================================== *)

Module orchestrator_agent.

Import memory_agent.

(** The dicts of the analyzer and of the evaluator as [json] writes them,
    the keys in the order of insertion. *)
Definition json_of_opt_str (s : option str) : json :=
  match s with
  | Some s => JStr s
  | None => JNull
  end.

Definition json_of_measurement (m : measurement) : json :=
  JObj [ ("value", JNum (value m)); ("unit", JStr (unit m));
         ("raw", JStr (raw m)) ]%string.

Definition json_of_analysis (a : analysis) : json :=
  JObj [ ("word_count", JInt (word_count a));
         ("sentence_count", JInt (sentence_count a));
         ("numbers_found", JList (map JNum (numbers_found a)));
         ("measurements", JList (map json_of_measurement (measurements a)));
         ("keywords_detected", JList (map JStr (keywords_detected a)));
         ("claims", JList (map JStr (claims a)));
         ("snippet", JStr (snippet a)) ]%string.

Definition json_of_breakdown (b : gmap string Num.float) : json :=
  JObj (omap (fun k => (fun x => (k, JNum x)) <$> b !! k)
          [ "keyword_score"; "numeric_score"; "measurement_score";
            "length_score"; "claim_score"; "penalty" ]%string).

Definition json_of_score (r : evaluator_agent.ScoreResult) : json :=
  JObj [ ("original_id", json_of_opt_str (evaluator_agent.sr_original_id r));
         ("score", JNum (evaluator_agent.score_value r));
         ("passed_threshold", JBool (evaluator_agent.passed_threshold r));
         ("reasons", JList (map JStr (evaluator_agent.reasons r)));
         ("breakdown", json_of_breakdown (evaluator_agent.breakdown r));
         ("raw_analysis",
          from_option json_of_analysis (JObj [])
            (evaluator_agent.raw_analysis r)) ]%string.

(** The agents an orchestrator holds; its memory agent is the storage
    file that [run_once] reads and writes. *)
Record OrchestratorAgent : Type := mk_OrchestratorAgent {
  fetcher : fetcher_agent.FetcherAgent;
  analyzer : analyzer_agent.AnalyzerAgent;
  evaluator : evaluator_agent.EvaluatorAgent;
  summarizer : summarizer_agent.SummarizerAgent
}.

(** [__init__]: [FetcherAgent] does not take the keyword arguments of the
    first call, so the fetcher is [FetcherAgent()]; [use_gemini] is
    [bool(os.getenv("GEMINI_API_KEY"))]. *)
Definition __init__ (env : summarizer_agent.gemini_env) : OrchestratorAgent :=
  {| fetcher := fetcher_agent.mk_FetcherAgent (lit "data/samples") true;
     analyzer := analyzer_agent.default_agent;
     evaluator := evaluator_agent.default_agent;
     summarizer :=
       summarizer_agent.__init__
         (match summarizer_agent.api_key env with
          | Some key => Py.truthy key
          | None => false
          end) |}.

(** One entry of [run_log["items"]]: the entry of a scored item, with its
    summary when it was stored, or the entry of the [except] branch. *)
Inductive entry_log : Type :=
| Scored (id : str) (title : option str) (score : Num.float) (passed : bool)
    (summary : option str)
| Errored (id : str) (error : exn).

(** The dict returned by [run_once]. *)
Record run_log : Type := mk_run_log {
  log_timestamp : str;
  log_steps : list str;
  processed_items : Z;
  log_items : list entry_log
}.

(** The dict that [run_once] hands to [memory.store]. *)
Definition stored_data (it : item) (analysis_wrapper : analysis_item)
    (score : evaluator_agent.ScoreResult) (summary_text : str)
    : gmap string json :=
  <["raw" := json_of_opt_str (item_raw it)]>
    (<["analysis" :=
         from_option json_of_analysis (JObj []) (ai_analysis analysis_wrapper)]>
       (<["evaluation" := json_of_score score]>
          (<["summary" := JStr summary_text]> ∅))).

(** The loop of [run_once] from its [i]-th iteration on.  [clock i] is the
    reading of [time.time()] during that iteration, [mem] the storage
    file, [processed] and [entries] the counter and the log built so
    far. *)
Fixpoint process_items (self : OrchestratorAgent)
    (env : summarizer_agent.gemini_env) (clock : nat -> Num.float) (i : nat)
    (items : list item) (mem : storage) (processed : Z)
    (entries : list entry_log) : storage * Z * list entry_log :=
  match items with
  | [] => (mem, processed, entries)
  | it :: items' =>
      let item_id := default (lit "<no-id>") (item_id it) in
      match analyzer_agent.run_on_item (analyzer self) it with
      | Raise exc =>
          process_items self env clock (S i) items' mem processed
            (entries ++ [Errored item_id exc])
      | Ok analysis_wrapper =>
          let score := evaluator_agent.score (evaluator self) analysis_wrapper in
          let passed := evaluator_agent.passed_threshold score in
          if negb passed
          then
            process_items self env clock (S i) items' mem processed
              (entries
               ++ [Scored item_id (item_title it)
                     (evaluator_agent.score_value score) passed None])
          else
            let summary_text :=
              summarizer_agent.summarize (summarizer self) env it
                (ai_analysis analysis_wrapper) in
            let mem :=
              store (clock i) item_id
                (stored_data it analysis_wrapper score summary_text) mem in
            process_items self env clock (S i) items' mem (processed + 1)
              (entries
               ++ [Scored item_id (item_title it)
                     (evaluator_agent.score_value score) passed
                     (Some summary_text)])
      end
  end.

(** [run_once]: the dict it returns and the storage file it leaves.
    [local] is what the samples directory holds, [run_start] the time
    stamp taken at the start.  The log files written at the end are not
    part of the model. *)
Definition run_once (self : OrchestratorAgent)
    (env : summarizer_agent.gemini_env) (local : list item) (run_start : str)
    (clock : nat -> Num.float) (mem : storage) : run_log * storage :=
  let items := fetcher_agent.run (fetcher self) local None in
  let '(mem, processed, entries) :=
    process_items self env clock 0 items mem 0 [] in
  let mem := compact mem in
  ({| log_timestamp := run_start;
      log_steps :=
        [lit "Fetched " ++ Num.str_of_int (Py.len items) ++ lit " items"];
      processed_items := processed;
      log_items := entries |},
   mem).

End orchestrator_agent.

(* ================================================================== *)
(** * Vocabulary of the statements *)
(* ================================================================== *)

(** The value of a call, when it returned one. *)
Definition returned {A} (e : exc A) : option A :=
  match e with
  | Ok a => Some a
  | Raise _ => None
  end.

(** [needle] is a contiguous piece of [hay]. *)
Definition occurs_in (needle hay : str) : Prop :=
  ∃ before after, hay = before ++ needle ++ after.

(** How often [x] is listed in [l]. *)
Definition occurrences (x : str) (l : list str) : nat :=
  length (filter (fun y => y = x) l).

(** The leading run of characters of a class, and the text after it. *)
Fixpoint run_of (p : ascii -> bool) (s : str) : str :=
  match s with
  | c :: s' => if p c then c :: run_of p s' else []
  | [] => []
  end.

Fixpoint after_run (p : ascii -> bool) (s : str) : str :=
  match s with
  | c :: s' => if p c then after_run p s' else s
  | [] => []
  end.

(** A pattern that can match without reading a character. *)
Fixpoint nullable (r : Re.regex) : bool :=
  match r with
  | Re.Chr _ | Re.Plus _ => false
  | Re.Seq r1 r2 => nullable r1 && nullable r2
  | Re.Alt r1 r2 => nullable r1 || nullable r2
  | Re.Opt _ | Re.Star _ | Re.Behind _ => true
  | Re.Group _ r1 => nullable r1
  end.

(** The texts a pattern can match, leaving aside what stands before them. *)
Fixpoint lang (r : Re.regex) (t : str) : Prop :=
  match r with
  | Re.Chr p => ∃ c, t = [c] ∧ p c = true
  | Re.Seq r1 r2 => ∃ t1 t2, t = t1 ++ t2 ∧ lang r1 t1 ∧ lang r2 t2
  | Re.Alt r1 r2 => lang r1 t ∨ lang r2 t
  | Re.Opt r1 => t = [] ∨ lang r1 t
  | Re.Star p => forallb p t = true
  | Re.Plus p => t ≠ [] ∧ forallb p t = true
  | Re.Behind _ => t = []
  | Re.Group _ r1 => lang r1 t
  end.

(** The names of the groups of a pattern. *)
Fixpoint group_names (r : Re.regex) : list string :=
  match r with
  | Re.Chr _ | Re.Star _ | Re.Plus _ | Re.Behind _ => []
  | Re.Seq r1 r2 | Re.Alt r1 r2 => group_names r1 ++ group_names r2
  | Re.Opt r1 => group_names r1
  | Re.Group name r1 => name :: group_names r1
  end.

(** The text [pattern.sub] assembles from one pass. *)
Definition render (repl : str) (x : list (str * Re.rmatch) * str) : str :=
  flat_map (fun gm => fst gm ++ repl) (fst x) ++ snd x.

(** Every run of blanks replaced by one space; [in_run] tells that the
    character before was a blank. *)
Fixpoint collapse (in_run : bool) (s : str) : str :=
  match s with
  | [] => []
  | c :: s' =>
      if Py.is_space c
      then if in_run then collapse true s' else " "%char :: collapse true s'
      else c :: collapse false s'
  end.

(** The only blanks are single spaces; [after_space] tells that the
    character before was a space. *)
Fixpoint tidy (after_space : bool) (s : str) : bool :=
  match s with
  | [] => true
  | c :: s' =>
      if Py.is_space c
      then Ascii.eqb c " " && negb after_space && tidy true s'
      else tidy false s'
  end.

(** The body of the [try] block of [_extract_measurements] on one match. *)
Definition measurement_of_match (m : Re.rmatch) : exc measurement :=
  value ← Num.py_float (Re.group m "value");
  mret (mk_measurement value
          (analyzer_agent.replace_mu (Py.strip (Re.group m "unit")))
          (Re.group m "raw")).

(** The record [analyze_text] builds from the normalized text. *)
Definition analysis_of (self : analyzer_agent.AnalyzerAgent) (cleaned : str)
    : analysis :=
  {| word_count := Py.len (Py.split cleaned);
     sentence_count := Py.len (analyzer_agent._extract_sentences cleaned);
     numbers_found :=
       omap (fun tok => returned (Num.py_float tok))
         (Re.findall analyzer_agent._NUMBER_RE cleaned);
     measurements :=
       omap (fun m => returned (measurement_of_match m))
         (Re.finditer analyzer_agent._MEASUREMENT_RE cleaned);
     keywords_detected := analyzer_agent._find_keywords self cleaned;
     claims := analyzer_agent._find_claims self cleaned;
     snippet :=
       Py.slice_to cleaned (analyzer_agent.max_snippet_chars self)
         ++ (if analyzer_agent.max_snippet_chars self <? Py.len cleaned
             then lit "..." else []) |}.

(** The analysis of a text without content. *)
Definition empty_analysis : analysis := mk_analysis 0 0 [] [] [] [] [].

(** Counts are not negative and every claim is one of the sentences. *)
Definition wf_analysis (r : analysis) : Prop :=
  0 <= word_count r
  ∧ 0 <= sentence_count r
  ∧ Py.len (claims r) <= sentence_count r.

(** The sample paragraph of the specification. *)
Definition K2_18b_sample : str :=
  lit "The exoplanet K2-18b, located 124 light-years away... radius of approximately 2.6 times that of Earth and an orbital period of 33 days.".

(** The orchestrator's composition:
    [evaluator.score(analyzer.run_on_item(it))]. *)
Definition analyze_then_score (an : analyzer_agent.AnalyzerAgent)
    (ev : evaluator_agent.EvaluatorAgent) (it : item)
    : exc evaluator_agent.ScoreResult :=
  wrapper ← analyzer_agent.run_on_item an it;
  mret (evaluator_agent.score ev wrapper).

(** Inputs of the worked examples: an item without analysis, a record of
    ten words without keyword and with one, a record with ten measurements,
    and an evaluator whose keyword weight is 1/2048. *)
Definition bare_item (a : analysis) : analysis_item :=
  mk_analysis_item None None None (Some a).

Definition ten_words : analysis := mk_analysis 10 1 [] [] [] [] (lit "x").

Definition ten_words_one_keyword : analysis :=
  mk_analysis 10 1 [] [] [lit "mass"] [] (lit "x").

Definition ten_measurements : analysis :=
  mk_analysis 0 0 []
    (replicate 10 (mk_measurement (Num.dec 33 1) (lit "days") (lit "33 days")))
    [] [] [].

Definition fine_weight_evaluator : evaluator_agent.EvaluatorAgent :=
  evaluator_agent.__init__ (Num.dec 30 10)
    (Some {[ "keyword"%string := Num.dec 1 2048 ]}).

(** [a2] is [a1] with one more entry in ["keywords_detected"]. *)
Definition one_more_keyword (a1 a2 : analysis) : Prop :=
  word_count a2 = word_count a1
  ∧ sentence_count a2 = sentence_count a1
  ∧ numbers_found a2 = numbers_found a1
  ∧ measurements a2 = measurements a1
  ∧ claims a2 = claims a1
  ∧ snippet a2 = snippet a1
  ∧ length (keywords_detected a2) = S (length (keywords_detected a1)).

Module ScoreLocals.

Import Num evaluator_agent.
Local Open Scope Qc_scope.

(** A whole multiple of 0.125: such values are unchanged by rounding to
    three decimals, and sums and integer multiples of them are again such
    values. *)
Definition on_grid (x : float) : Prop := ∃ j : Z, x = dec j 8.

Definition grid_weights (self : EvaluatorAgent) : Prop :=
  on_grid (weight self "keyword" (dec 20 10))
  ∧ on_grid (weight self "numeric_bonus" (dec 30 10))
  ∧ on_grid (weight self "length_bonus" (dec 10 10))
  ∧ on_grid (weight self "claim_bonus" (dec 15 10)).

(** The sum of the six entries of a breakdown. *)
Definition breakdown_total (b : gmap string float) : option float :=
  k ← b !! "keyword_score"%string;
  n ← b !! "numeric_score"%string;
  m ← b !! "measurement_score"%string;
  l ← b !! "length_score"%string;
  c ← b !! "claim_score"%string;
  p ← b !! "penalty"%string;
  Some (k + n + m + l + c + p).

(** The local variables of [score], by name. *)
Section Locals.
Context (self : EvaluatorAgent) (it : analysis_item).

Definition keyword_pts : float :=
  float_of_int (Py.len (field (ai_analysis it) keywords_detected []))
  * weight self "keyword" (dec 20 10).

Definition numeric_pts : float :=
  if (numeric_count_for_bonus self
      <? Py.len (field (ai_analysis it) numbers_found []))%Z
  then weight self "numeric_bonus" (dec 30 10)
  else dec 0 10.

Definition measurement_pts : float :=
  if (0 <? Py.len (field (ai_analysis it) measurements []))%Z
  then py_min
         (float_of_int (Py.len (field (ai_analysis it) measurements []))
          * dec 5 10)
         (dec 30 10)
  else dec 0 10.

Definition length_pts : float :=
  if (min_word_count_for_length_bonus self
      <=? field (ai_analysis it) word_count 0%Z)%Z
  then weight self "length_bonus" (dec 10 10)
  else dec 0 10.

Definition claim_pts : float :=
  py_min
    (float_of_int (Py.len (field (ai_analysis it) claims []))
     * weight self "claim_bonus" (dec 15 10))
    (dec 60 10).

Definition penalty : float :=
  if (field (ai_analysis it) word_count 0%Z <? 6)%Z
  then dec (-20) 10
  else dec 0 10.

Definition total_score : float :=
  keyword_pts + numeric_pts + measurement_pts + length_pts + claim_pts
  + penalty.
End Locals.

(** [score] returned what its code says: six entries under the fixed
    keys, their rounded sum, the verdict, and at least the reason of the
    length factor. *)
Definition wf_result (self : EvaluatorAgent) (res : ScoreResult) : Prop :=
  dom (breakdown res)
    = ({[ "keyword_score"; "numeric_score"; "measurement_score";
          "length_score"; "claim_score"; "penalty" ]} : gset string)%string
  ∧ (∃ total,
       breakdown_total (breakdown res) = Some total
       ∧ score_value res = py_round total 3
       ∧ passed_threshold res = fleb (threshold self) total)
  ∧ reasons res ≠ [].

(** The binary64 numbers: [m * 2^e] with [|m| < 2^53] and
    [-1074 <= e <= 971].  An arithmetic operation of the code returns the
    binary64 number nearest to its exact result, so it returns the exact
    result when that is a binary64 number. *)
Definition binary64 (x : float) : Prop :=
  ∃ m e : Z, (Z.abs m < 2 ^ 53)%Z ∧ (-1074 <= e <= 971)%Z
             ∧ (this x == inject_Z m * 2 ^ e)%Q.

(** A whole multiple of 0.125 of magnitude at most [b]. *)
Definition grid_within (b : Z) (x : float) : Prop :=
  ∃ j : Z, x = dec j 8 ∧ (Z.abs j <= 8 * b)%Z.

(** The four weights are multiples of 0.125 between -1000000 and 1000000. *)
Definition moderate_weights (self : EvaluatorAgent) : Prop :=
  grid_within 1000000 (weight self "keyword" (dec 20 10))
  ∧ grid_within 1000000 (weight self "numeric_bonus" (dec 30 10))
  ∧ grid_within 1000000 (weight self "length_bonus" (dec 10 10))
  ∧ grid_within 1000000 (weight self "claim_bonus" (dec 15 10)).

(** The six factors, the product behind the claim factor, the sums of the
    total in the order of the code, and the score itself are binary64
    numbers: the float arithmetic of [score] is exact on this item.  (The
    product [len(measurements) * 0.5] enters only through its minimum with
    3.0, the measurement factor listed here: half the length of a list is
    exact, and beyond 3.0 the minimum is 3.0 whatever the product.) *)
Definition exact_arithmetic (self : EvaluatorAgent) (it : analysis_item)
    : Prop :=
  let k := keyword_pts self it in
  let n := numeric_pts self it in
  let m := measurement_pts it in
  let l := length_pts self it in
  let c := claim_pts self it in
  let p := penalty it in
  Forall binary64
    [k; n; m; l;
     float_of_int (Py.len (field (ai_analysis it) claims []))
     * weight self "claim_bonus" (dec 15 10);
     c; p;
     k + n; k + n + m; k + n + m + l; k + n + m + l + c;
     k + n + m + l + c + p;
     score_value (score self it)].

End ScoreLocals.

(** ** Vocabulary of the further properties *)

(** The character before the current position is a blank. *)
Definition prev_space (prev : option ascii) : bool :=
  match prev with
  | Some c => Py.is_space c
  | None => false
  end.

(** Not empty, and neither the first nor the last character is a blank. *)
Definition stripped (p : str) : bool :=
  match list.head p, list.last p with
  | Some a, Some b => negb (Py.is_space a) && negb (Py.is_space b)
  | _, _ => false
  end.

(** No character of the class [e] is followed by a blank. *)
Fixpoint no_boundary (e : ascii -> bool) (s : str) : bool :=
  match s with
  | a :: s' =>
      match s' with
      | b :: _ => negb (e a && Py.is_space b)
      | [] => true
      end && no_boundary e s'
  | [] => true
  end.

(** A well-formed sentence: trimmed, not empty, and without a sentence
    boundary inside. *)
Definition sentence_ok (e : ascii -> bool) (p : str) : Prop :=
  stripped p = true ∧ no_boundary e p = true.

(** The last character is of the class [e]. *)
Definition terminated (e : ascii -> bool) (p : str) : Prop :=
  ∃ c, list.last p = Some c ∧ e c = true.

(** The text ends in a character other than a blank; for the empty text,
    the character before it is not a blank. *)
Definition ends_ok (prev : option ascii) (s : str) : Prop :=
  match list.last s with
  | Some c => Py.is_space c = false
  | None => prev_space prev = false
  end.

(** The dict [run_on_item] returns for an item. *)
Definition analysis_item_of (an : analyzer_agent.AnalyzerAgent) (it : item)
    : analysis_item :=
  {| original_id := item_id it;
     title := item_title it;
     source := item_source it;
     ai_analysis :=
       Some (analysis_of an
               (parser_utils.clean_text (default [] (item_raw it)))) |}.

(** The first record stored under a key. *)
Fixpoint first_with_key (key : str) (memory : list memory_agent.record)
    : option memory_agent.record :=
  match memory with
  | [] => None
  | r :: rest =>
      if decide (memory_agent.rec_key r = key) then Some r
      else first_with_key key rest
  end.

(** The list [store] writes: the first record under the key of [new] is
    replaced, or [new] is appended. *)
Definition upsert (new : memory_agent.record)
    (memory : list memory_agent.record) : list memory_agent.record :=
  if decide (memory_agent.rec_key new ∈ map memory_agent.rec_key memory)
  then (memory_agent.replace_first (memory_agent.rec_key new) new memory).1
  else memory ++ [new].

(** The first item under an id. *)
Fixpoint first_with_id (iid : option str) (items : list item) : option item :=
  match items with
  | [] => None
  | it :: rest =>
      if decide (item_id it = iid) then Some it else first_with_id iid rest
  end.

(** What one entry of [sources] contributes to the fetch. *)
Definition source_items (self : fetcher_agent.FetcherAgent)
    (local : list item) (src : str) : list item :=
  if decide (src = lit "local") then local
  else if decide (src = lit "nasa_apod")
       then fetcher_agent.fetch_from_nasa_apod self
  else [].

(** The key under which [run_once] stores an item. *)
Definition key_of (it : item) : str := default (lit "<no-id>") (item_id it).


(** The verdict of the orchestrator's evaluator on an item. *)
Definition passes (self : orchestrator_agent.OrchestratorAgent) (it : item)
    : bool :=
  evaluator_agent.passed_threshold
    (evaluator_agent.score (orchestrator_agent.evaluator self)
       (analysis_item_of (orchestrator_agent.analyzer self) it)).

(** The record [run_once] stores for a passing item during iteration [i]. *)
Definition record_of (self : orchestrator_agent.OrchestratorAgent)
    (env : summarizer_agent.gemini_env) (clock : nat -> Num.float) (i : nat)
    (it : item) : memory_agent.record :=
  let w := analysis_item_of (orchestrator_agent.analyzer self) it in
  let score := evaluator_agent.score (orchestrator_agent.evaluator self) w in
  memory_agent.mk_record (key_of it) (clock i)
    (orchestrator_agent.stored_data it w score
       (summarizer_agent.summarize (orchestrator_agent.summarizer self) env it
          (ai_analysis w))).

(** The memory after the loop of [run_once]. *)
Fixpoint memory_after (self : orchestrator_agent.OrchestratorAgent)
    (env : summarizer_agent.gemini_env) (clock : nat -> Num.float) (i : nat)
    (items : list item) (memory : list memory_agent.record)
    : list memory_agent.record :=
  match items with
  | [] => memory
  | it :: items' =>
      memory_after self env clock (S i) items'
        (if passes self it then upsert (record_of self env clock i it) memory
         else memory)
  end.

(** The entry of [run_log["items"]] for an item. *)
Definition entry_of (self : orchestrator_agent.OrchestratorAgent)
    (env : summarizer_agent.gemini_env) (it : item)
    : orchestrator_agent.entry_log :=
  let w := analysis_item_of (orchestrator_agent.analyzer self) it in
  let score := evaluator_agent.score (orchestrator_agent.evaluator self) w in
  orchestrator_agent.Scored (key_of it) (item_title it)
    (evaluator_agent.score_value score) (passes self it)
    (if passes self it
     then Some (summarizer_agent.summarize
                  (orchestrator_agent.summarizer self) env it (ai_analysis w))
     else None).

(** [s] without the prefix [p], when it starts with it. *)
Fixpoint strip_prefix (p s : str) : option str :=
  match p, s with
  | [], _ => Some s
  | a :: p', b :: s' => if Ascii.eqb a b then strip_prefix p' s' else None
  | _ :: _, [] => None
  end.

(** [s] starts with [p] and one more character that is not a blank. *)
Definition starts_with_more (p s : str) : bool :=
  match strip_prefix p s with
  | Some (c :: _) => parser_utils.is_nonspace c
  | _ => false
  end.

(** A URL of [remove_urls] starts at the head of [s]. *)
Definition starts_url (s : str) : bool :=
  starts_with_more (lit "http://") s
  || starts_with_more (lit "https://") s
  || starts_with_more (lit "www.") s.

(** No URL starts anywhere in [s]. *)
Fixpoint url_free (s : str) : bool :=
  negb (starts_url s) &&
  match s with
  | [] => true
  | _ :: s' => url_free s'
  end.

(** The text without its URLs; [skipping] tells that the position is
    inside a URL. *)
Fixpoint cut_urls (skipping : bool) (s : str) : str :=
  match s with
  | [] => []
  | c :: s' =>
      if Py.is_space c then c :: cut_urls false s'
      else if skipping then cut_urls true s'
      else if starts_url s then cut_urls true s'
      else c :: cut_urls false s'
  end.

(** The character before the position after a literal. *)
Definition prev_after (p : str) (prev : option ascii) : option ascii :=
  match list.last p with
  | Some c => Some c
  | None => prev
  end.

(** Inputs of the worked examples of the further properties. *)

(** An evaluator whose keyword weight 2.9996 is no multiple of 0.125. *)
Definition odd_weight_evaluator : evaluator_agent.EvaluatorAgent :=
  evaluator_agent.__init__ (Num.dec 30 10)
    (Some {[ "keyword"%string := Num.dec 29996 10000 ]}).

(** A Gemini service that answers every text with [answer]. *)
Definition answering (answer : str) : summarizer_agent.gemini_env :=
  {| summarizer_agent.api_key := Some (lit "key");
     summarizer_agent.library := true;
     summarizer_agent.generate_content :=
       fun _ _ => summarizer_agent.Answered (Some answer) |}.

(** A storage file with two records, and the data of a third. *)
Definition sample_data (summary : string) : gmap string memory_agent.json :=
  <["raw" := memory_agent.JStr (lit "raw text")]>
    (<["summary" := memory_agent.JStr (lit summary)]> ∅).

Definition sample_storage : memory_agent.storage :=
  {| memory_agent.content :=
       Some [ memory_agent.mk_record (lit "a") (Num.dec 1 1)
                (sample_data "Mass of K2-18b");
              memory_agent.mk_record (lit "b") (Num.dec 2 1)
                (sample_data "Solar flares") ];
     memory_agent.writable := true |}.

(** Two local samples, the second one read twice. *)
Definition sample_items : list item :=
  [ mk_item (Some (lit "k2-18b.txt")) (Some (lit "k2-18b"))
      (Some (lit "local_file")) (Some K2_18b_sample);
    mk_item (Some (lit "note.txt")) (Some (lit "note"))
      (Some (lit "local_file")) (Some (lit "Too short."));
    mk_item (Some (lit "note.txt")) (Some (lit "note"))
      (Some (lit "local_file")) (Some (lit "Read again.")) ].

(** A service that is not configured. *)
Definition no_gemini : summarizer_agent.gemini_env :=
  {| summarizer_agent.api_key := None;
     summarizer_agent.library := false;
     summarizer_agent.generate_content := fun _ _ => summarizer_agent.Failed |}.

(* ================================================================== *)
(** * Facts about the built-ins *)
(* ================================================================== *)

Section StrFacts.

Lemma run_of_after_run p s : run_of p s ++ after_run p s = s.
Proof.
  induction s as [|c s IH]; simpl; [done|].
  destruct (p c); simpl; by rewrite ?IH.
Qed.

Lemma length_after_run p s :
  length (after_run p s) = (length s - length (run_of p s))%nat.
Proof.
  rewrite <- (run_of_after_run p s) at 2. rewrite length_app. lia.
Qed.

Lemma lstrip_after_run s : Py.lstrip s = after_run Py.is_space s.
Proof.
  induction s as [|c s IH]; simpl; [done|]. by destruct (Py.is_space c).
Qed.

Lemma lstrip_suffix s : ∃ t, s = t ++ Py.lstrip s.
Proof.
  exists (run_of Py.is_space s).
  by rewrite lstrip_after_run, run_of_after_run.
Qed.

Lemma rstrip_prefix s : ∃ t, s = Py.rstrip s ++ t.
Proof.
  unfold Py.rstrip. destruct (lstrip_suffix (rev s)) as [t Ht].
  exists (rev t). rewrite <- rev_app_distr, <- Ht. by rewrite rev_involutive.
Qed.

Lemma lstrip_idemp s : Py.lstrip (Py.lstrip s) = Py.lstrip s.
Proof.
  induction s as [|c s IH]; simpl; [done|].
  destruct (Py.is_space c) eqn:E; [done|]. simpl. by rewrite E.
Qed.

Lemma rstrip_idemp s : Py.rstrip (Py.rstrip s) = Py.rstrip s.
Proof. unfold Py.rstrip. by rewrite rev_involutive, lstrip_idemp. Qed.

(** A string that does not begin with a blank stays so when blanks are
    cut off at its end. *)
Lemma lstrip_rstrip_fixed s :
  Py.lstrip s = s → Py.lstrip (Py.rstrip s) = Py.rstrip s.
Proof.
  intros Hs. destruct (rstrip_prefix s) as [t Ht].
  destruct (Py.rstrip s) as [|c u] eqn:E; [done|].
  rewrite Ht in Hs. simpl in *. destruct (Py.is_space c) eqn:Ec; [|done].
  exfalso.
  destruct (lstrip_suffix (u ++ t)) as [w Hw].
  apply (f_equal length) in Hs. rewrite Hw in Hs at 2.
  simpl in Hs. rewrite length_app in Hs. lia.
Qed.

Lemma strip_idemp s : Py.strip (Py.strip s) = Py.strip s.
Proof.
  unfold Py.strip.
  rewrite (lstrip_rstrip_fixed (Py.lstrip s)) by apply lstrip_idemp.
  apply rstrip_idemp.
Qed.

Lemma startswith_spec p s : Py.startswith p s = true ↔ ∃ t, s = p ++ t.
Proof.
  revert s. induction p as [|a p IH]; intros s; simpl.
  - split; [intros _; by exists s|done].
  - destruct s as [|b s].
    + split; [done|]. by intros [t Ht].
    + rewrite andb_true_iff, Ascii.eqb_eq, IH. split.
      * intros [-> [t ->]]. by exists t.
      * intros [t Ht]. injection Ht as -> ->. split; [done|by exists t].
Qed.

(** [needle in hay] is containment as a contiguous piece. *)
Lemma contains_spec needle hay :
  Py.contains needle hay = true ↔ occurs_in needle hay.
Proof.
  unfold occurs_in. induction hay as [|c hay IH]; simpl.
  - rewrite orb_false_r, startswith_spec. split.
    + intros [t Ht]. by exists [], t.
    + intros (b & a & H). destruct b; simpl in H.
      * by exists a.
      * done.
  - rewrite orb_true_iff, startswith_spec, IH. split.
    + intros [[t Ht]|(b & a & H)].
      * by exists [], t.
      * exists (c :: b), a. by rewrite H.
    + intros (b & a & H). destruct b as [|c' b]; simpl in H.
      * left. by exists a.
      * right. injection H as -> ->. by exists b, a.
Qed.

Lemma contains_nil needle : Py.contains needle [] = true ↔ needle = [].
Proof. destruct needle; simpl; split; done. Qed.

Lemma lower_char_idemp c : Py.lower_char (Py.lower_char c) = Py.lower_char c.
Proof. by destruct c as [[] [] [] [] [] [] [] []]. Qed.

Lemma lower_idemp s : Py.lower (Py.lower s) = Py.lower s.
Proof.
  unfold Py.lower. rewrite map_map. apply map_ext. apply lower_char_idemp.
Qed.

Lemma len_nonneg {A} (l : list A) : 0 <= Py.len l.
Proof. unfold Py.len. lia. Qed.

End StrFacts.

(* ================================================================== *)
(** * Facts about the matcher *)
(* ================================================================== *)

Section ReFacts.

(** When nothing after it can fail, a greedy repetition takes the whole
    run. *)
Lemma star_k_total {A} p (f : str → A) prev s :
  Re.star_k p prev s (fun _ s' => Some (f s')) = Some (f (after_run p s)).
Proof.
  revert prev. induction s as [|c s IH]; intros prev; simpl; [done|].
  destruct (p c); [|done]. by rewrite IH.
Qed.

Lemma match_at_plus p prev s :
  Re.match_at (Re.Plus p) prev s =
  match s with
  | c :: s' =>
      if p c
      then Some (Re.mk_match (c :: run_of p s') (after_run p s') ∅)
      else None
  | [] => None
  end.
Proof.
  unfold Re.match_at. simpl. destruct s as [|c s]; [done|].
  destruct (p c); [|done].
  rewrite (star_k_total p
             (fun s' => Re.mk_match
                          (take (length (c :: s) - length s') (c :: s)) s' ∅)).
  do 2 f_equal. rewrite length_after_run. simpl.
  assert (length (run_of p s) <= length s)%nat.
  { rewrite <- (run_of_after_run p s) at 2. rewrite length_app. lia. }
  replace (S (length s) - (length s - length (run_of p s)))%nat
    with (S (length (run_of p s))) by lia.
  simpl. f_equal. rewrite <- (run_of_after_run p s) at 2.
  by rewrite take_app_length.
Qed.

Lemma star_k_progress {A} p prev s (k : option ascii → str → option A) a :
  Re.star_k p prev s k = Some a →
  ∃ prev' pre s', s = pre ++ s' ∧ k prev' s' = Some a.
Proof.
  revert prev. induction s as [|c s IH]; intros prev; simpl.
  - intros H. by exists prev, [], [].
  - destruct (p c).
    + destruct (Re.star_k p (Some c) s k) as [a'|] eqn:E.
      * intros [= ->]. destruct (IH _ E) as (prev' & pre & s' & -> & Hk).
        by exists prev', (c :: pre), s'.
      * intros H. by exists prev, [], (c :: s).
    + intros H. by exists prev, [], (c :: s).
Qed.

(** A successful run hands its continuation a suffix of the text, a proper
    one when the pattern is not nullable. *)
Lemma run_progress {A} r prev s caps
    (k : option ascii → str → gmap string str → option A) a :
  Re.run r prev s caps k = Some a →
  ∃ prev' pre s' caps',
    s = pre ++ s' ∧ k prev' s' caps' = Some a
    ∧ (nullable r = false → pre ≠ []).
Proof.
  revert A prev s caps k a.
  induction r as [p|r1 IH1 r2 IH2|r1 IH1 r2 IH2|r1 IH1|p|p|p|name r1 IH1];
    intros A prev s caps k a; simpl.
  - destruct s as [|c s]; [done|]. destruct (p c); [|done].
    intros H. by exists (Some c), [c], s, caps.
  - intros H.
    apply IH1 in H as (p1 & pre1 & s1 & c1 & -> & H & Hn1).
    apply IH2 in H as (p2 & pre2 & s2 & c2 & -> & H & Hn2).
    exists p2, (pre1 ++ pre2), s2, c2. rewrite <- app_assoc.
    repeat split; [done|]. intros Hn. apply andb_false_iff in Hn as [Hn|Hn].
    + specialize (Hn1 Hn). by destruct pre1.
    + specialize (Hn2 Hn). by destruct pre1, pre2.
  - destruct (Re.run r1 prev s caps k) as [a'|] eqn:E.
    + intros [= ->]. apply IH1 in E as (p1 & pre1 & s1 & c1 & -> & H & Hn1).
      exists p1, pre1, s1, c1. repeat split; [done|].
      intros Hn. apply orb_false_iff in Hn as [Hn _]. auto.
    + intros H. apply IH2 in H as (p2 & pre2 & s2 & c2 & -> & H & Hn2).
      exists p2, pre2, s2, c2. repeat split; [done|].
      intros Hn. apply orb_false_iff in Hn as [_ Hn]. auto.
  - destruct (Re.run r1 prev s caps k) as [a'|] eqn:E.
    + intros [= ->]. apply IH1 in E as (p1 & pre1 & s1 & c1 & -> & H & _).
      by exists p1, pre1, s1, c1.
    + intros H. by exists prev, [], s, caps.
  - intros H. apply star_k_progress in H as (p1 & pre & s' & -> & H).
    by exists p1, pre, s', caps.
  - destruct s as [|c s]; [done|]. destruct (p c); [|done].
    intros H. apply star_k_progress in H as (p1 & pre & s' & -> & H).
    by exists p1, (c :: pre), s', caps.
  - destruct prev as [c|]; [|done]. destruct (p c); [|done].
    intros H. by exists (Some c), [], s, caps.
  - intros H. apply IH1 in H as (p1 & pre1 & s1 & c1 & -> & H & Hn1).
    by eexists p1, pre1, s1, _.
Qed.

(** A match is a prefix of the text it was tried on, and it is not empty
    when the pattern is not nullable. *)
Lemma match_at_prefix r prev s m :
  Re.match_at r prev s = Some m →
  s = Re.m_text m ++ Re.m_rest m
  ∧ (nullable r = false → Re.m_text m ≠ []).
Proof.
  unfold Re.match_at. intros H.
  apply run_progress in H as (p1 & pre & s' & c1 & -> & [= <-] & Hn).
  simpl. rewrite length_app.
  replace (length pre + length s' - length s')%nat with (length pre) by lia.
  by rewrite take_app_length.
Qed.

(** None of the program's patterns can match the empty string. *)
Lemma patterns_not_nullable :
  nullable parser_utils._WS_RE = false
  ∧ nullable analyzer_agent._NUMBER_RE = false
  ∧ nullable analyzer_agent._MEASUREMENT_RE = false
  ∧ nullable analyzer_agent._SENTENCE_SPLIT_RE = false.
Proof. repeat split. Qed.

Lemma star_k_lang {A} p prev s (k : option ascii → str → option A) a :
  Re.star_k p prev s k = Some a →
  ∃ prev' t s', s = t ++ s' ∧ forallb p t = true ∧ k prev' s' = Some a.
Proof.
  revert prev. induction s as [|c s IH]; intros prev; simpl.
  - intros H. by exists prev, [], [].
  - destruct (p c) eqn:Ec.
    + destruct (Re.star_k p (Some c) s k) as [a'|] eqn:E.
      * intros [= ->]. destruct (IH _ E) as (prev' & t & s' & -> & Ht & Hk).
        exists prev', (c :: t), s'. simpl. by rewrite Ec, Ht.
      * intros H. by exists prev, [], (c :: s).
    + intros H. by exists prev, [], (c :: s).
Qed.

(** A successful run read a text of the pattern's language, gave the rest
    to its continuation, and changed no group but its own. *)
Lemma run_lang {A} r prev s caps
    (k : option ascii → str → gmap string str → option A) a :
  Re.run r prev s caps k = Some a →
  ∃ prev' t s' caps',
    s = t ++ s' ∧ lang r t
    ∧ (∀ n, n ∉ group_names r → caps' !! n = caps !! n)
    ∧ k prev' s' caps' = Some a.
Proof.
  revert A prev s caps k a.
  induction r as [p|r1 IH1 r2 IH2|r1 IH1 r2 IH2|r1 IH1|p|p|p|name r1 IH1];
    intros A prev s caps k a; simpl.
  - destruct s as [|c s]; [done|]. destruct (p c) eqn:Ec; [|done].
    intros H. exists (Some c), [c], s, caps. eauto 10.
  - intros H.
    apply IH1 in H as (p1 & t1 & s1 & c1 & -> & L1 & C1 & H).
    apply IH2 in H as (p2 & t2 & s2 & c2 & -> & L2 & C2 & H).
    exists p2, (t1 ++ t2), s2, c2. rewrite <- app_assoc.
    split; [done|]. split; [eauto|]. split; [|done].
    intros n Hn. apply not_elem_of_app in Hn as [Hn1 Hn2].
    by rewrite C2, C1.
  - destruct (Re.run r1 prev s caps k) as [a'|] eqn:E.
    + intros [= ->]. apply IH1 in E as (p1 & t1 & s1 & c1 & -> & L1 & C1 & H).
      exists p1, t1, s1, c1. split; [done|]. split; [by left|]. split; [|done].
      intros n Hn. apply not_elem_of_app in Hn as [Hn1 Hn2]. auto.
    + intros H. apply IH2 in H as (p2 & t2 & s2 & c2 & -> & L2 & C2 & H).
      exists p2, t2, s2, c2. split; [done|]. split; [by right|]. split; [|done].
      intros n Hn. apply not_elem_of_app in Hn as [Hn1 Hn2]. auto.
  - destruct (Re.run r1 prev s caps k) as [a'|] eqn:E.
    + intros [= ->]. apply IH1 in E as (p1 & t1 & s1 & c1 & -> & L1 & C1 & H).
      exists p1, t1, s1, c1. eauto.
    + intros H. exists prev, [], s, caps. eauto.
  - intros H. apply star_k_lang in H as (p1 & t & s' & -> & Ht & H).
    exists p1, t, s', caps. eauto.
  - destruct s as [|c s]; [done|]. destruct (p c) eqn:Ec; [|done].
    intros H. apply star_k_lang in H as (p1 & t & s' & -> & Ht & H).
    exists p1, (c :: t), s', caps. simpl. rewrite Ec, Ht. eauto.
  - destruct prev as [c|]; [|done]. destruct (p c); [|done].
    intros H. exists (Some c), [], s, caps. eauto.
  - intros H. apply IH1 in H as (p1 & t1 & s1 & c1 & -> & L1 & C1 & H).
    eexists p1, t1, s1, _. split; [done|]. split; [done|]. split; [|exact H].
    intros n Hn. apply not_elem_of_cons in Hn as [Hne Hn].
    rewrite lookup_insert_ne by done. auto.
Qed.

(** The text of a match is in the language of the pattern. *)
Lemma match_at_lang r prev s m :
  Re.match_at r prev s = Some m → lang r (Re.m_text m).
Proof.
  unfold Re.match_at. intros H.
  apply run_lang in H as (p1 & t & s' & c1 & -> & L & _ & [= <-]).
  simpl. rewrite length_app.
  replace (length t + length s' - length s')%nat with (length t) by lia.
  by rewrite take_app_length.
Qed.

(** Every match of a pass was found by [match_at] somewhere in the text. *)
Lemma scan_from_matches r prev s skip gap g m :
  (g, m) ∈ (Re.scan_from r prev s skip gap).1 →
  ∃ prev' s', Re.match_at r prev' s' = Some m.
Proof.
  revert prev skip gap. induction s as [|c s IH]; intros prev skip gap; simpl.
  - intros H. by apply elem_of_nil in H.
  - destruct skip as [|n]; [|apply IH].
    destruct (Re.match_at r prev (c :: s)) as [m'|] eqn:E; [|apply IH].
    destruct (Re.scan_from r (Some c) s _ _) as [ms tail] eqn:Es. simpl.
    intros H. apply elem_of_cons in H as [[= -> ->]|H]; [eauto|].
    eapply IH. by rewrite Es.
Qed.

Lemma finditer_lang r s m : m ∈ Re.finditer r s → lang r (Re.m_text m).
Proof.
  unfold Re.finditer, Re.scan. intros H.
  apply list_elem_of_fmap in H as ([g m'] & -> & H).
  apply scan_from_matches in H as (prev' & s' & H).
  by eapply match_at_lang.
Qed.

End ReFacts.

(* ================================================================== *)
(** * Normalization *)
(* ================================================================== *)

Section CleanText.

Import parser_utils.

Lemma collapse_true_after_run s :
  collapse true s = collapse false (after_run Py.is_space s).
Proof.
  induction s as [|c s IH]; simpl; [done|].
  destruct (Py.is_space c) eqn:E; [done|]. simpl. by rewrite E.
Qed.

(** One pass of [_WS_RE] over [s]: from a position outside a match, and
    from a position inside a match with the rest of the run still to be
    stepped over. *)
Lemma scan_ws_collapse s :
  (∀ prev gap,
     render (lit " ") (Re.scan_from _WS_RE prev s 0 gap)
     = gap ++ collapse false s)
  ∧ (∀ prev gap,
       render (lit " ")
         (Re.scan_from _WS_RE prev s (length (run_of Py.is_space s)) gap)
       = gap ++ collapse false (after_run Py.is_space s)).
Proof.
  unfold _WS_RE.
  induction s as [|c s [IHa IHb]].
  - split; intros; unfold render; simpl; by rewrite ?app_nil_r.
  - assert (Ha : ∀ prev gap,
       render (lit " ")
         (Re.scan_from (Re.Plus Py.is_space) prev (c :: s) 0 gap)
       = gap ++ collapse false (c :: s)).
    { intros prev gap. cbn [Re.scan_from].
      rewrite match_at_plus.
      destruct (Py.is_space c) eqn:E.
      - simpl.
        specialize (IHb (Some c) []).
        destruct (Re.scan_from (Re.Plus Py.is_space) (Some c) s
                    (length (run_of Py.is_space s) - 0) [])
          as [ms tail] eqn:Es.
        rewrite Nat.sub_0_r in Es. rewrite Es in IHb.
        unfold render in *. simpl in *. rewrite <- app_assoc. simpl.
        rewrite IHb, E, collapse_true_after_run. by rewrite <- app_assoc.
      - rewrite IHa. simpl. rewrite E. by rewrite <- app_assoc. }
    split; [exact Ha|].
    intros prev gap. simpl run_of. simpl after_run.
    destruct (Py.is_space c) eqn:E.
    + simpl. apply IHb.
    + apply Ha.
Qed.

(** [_WS_RE.sub(" ", s)] replaces every run of blanks by one space. *)
Lemma sub_ws s : Re.sub _WS_RE (lit " ") s = collapse false s.
Proof.
  change (Re.sub _WS_RE (lit " ") s)
    with (render (lit " ") (Re.scan_from _WS_RE None s 0 [])).
  by rewrite (proj1 (scan_ws_collapse s)).
Qed.

Lemma tidy_collapse b s : tidy b (collapse b s) = true.
Proof.
  revert b. induction s as [|c s IH]; intros b; simpl; [done|].
  destruct (Py.is_space c) eqn:E.
  - destruct b; [apply IH|]. simpl. by rewrite IH.
  - simpl. by rewrite E, IH.
Qed.

Lemma collapse_tidy b s : tidy b s = true → collapse b s = s.
Proof.
  revert b. induction s as [|c s IH]; intros b; simpl; [done|].
  destruct (Py.is_space c) eqn:E.
  - intros H. apply andb_prop in H as [H H2]. apply andb_prop in H as [H0 H1].
    apply Ascii.eqb_eq in H0. subst c.
    destruct b; [done|]. by rewrite (IH true H2).
  - intros H. by rewrite (IH false H).
Qed.

Lemma tidy_weaken b s : tidy b s = true → tidy false s = true.
Proof.
  destruct s as [|c s]; simpl; [done|].
  destruct (Py.is_space c); [|done].
  intros H. apply andb_prop in H as [H H2]. apply andb_prop in H as [H0 H1].
  by rewrite H0, H2.
Qed.

Lemma tidy_app_l b s t : tidy b (s ++ t) = true → tidy b s = true.
Proof.
  revert b. induction s as [|c s IH]; intros b; simpl; [done|].
  destruct (Py.is_space c).
  - intros H. apply andb_prop in H as [H H2]. rewrite H. simpl. by apply IH.
  - apply IH.
Qed.

Lemma tidy_lstrip s : tidy false s = true → tidy false (Py.lstrip s) = true.
Proof.
  induction s as [|c s IH]; simpl; [done|].
  destruct (Py.is_space c) eqn:E.
  - intros H. apply andb_prop in H as [_ H2]. apply IH. by eapply tidy_weaken.
  - intros H. simpl. by rewrite E.
Qed.

Lemma tidy_strip s : tidy false s = true → tidy false (Py.strip s) = true.
Proof.
  intros H. unfold Py.strip.
  destruct (rstrip_prefix (Py.lstrip s)) as [t Ht].
  apply tidy_lstrip in H. rewrite Ht in H. by eapply tidy_app_l.
Qed.

(** Replacing a blank other than the space changes nothing where the
    only blanks are spaces. *)
Lemma replace_char_tidy old b s :
  Py.is_space old = true → old ≠ " "%char →
  tidy b s = true → Py.replace_char old (lit " ") s = s.
Proof.
  intros Hold Hne. revert b. unfold Py.replace_char.
  induction s as [|c s IH]; intros b; simpl; [done|].
  destruct (Ascii.eqb c old) eqn:Ec.
  - apply Ascii.eqb_eq in Ec. subst c. rewrite Hold.
    intros H. apply andb_prop in H as [H _]. apply andb_prop in H as [H _].
    apply Ascii.eqb_eq in H. done.
  - destruct (Py.is_space c).
    + intros H. apply andb_prop in H as [_ H]. simpl. f_equal. by eapply IH.
    + intros H. simpl. f_equal. by eapply IH.
Qed.

Lemma clean_text_tidy t : tidy false (clean_text t) = true.
Proof.
  unfold clean_text. destruct (negb (Py.truthy t)); [done|].
  rewrite sub_ws. apply tidy_strip, tidy_collapse.
Qed.

Lemma clean_text_stripped t : Py.strip (clean_text t) = clean_text t.
Proof.
  unfold clean_text. destruct (negb (Py.truthy t)); [done|].
  apply strip_idemp.
Qed.

(** Normalizing a normalized text changes nothing. *)
Lemma clean_text_idempotent t : clean_text (clean_text t) = clean_text t.
Proof.
  pose proof (clean_text_tidy t) as Ht.
  pose proof (clean_text_stripped t) as Hs.
  set (y := clean_text t) in *.
  unfold clean_text at 1.
  destruct y as [|c u] eqn:E; [done|]. simpl negb. cbv iota.
  rewrite (replace_char_tidy CR false) by done.
  rewrite (replace_char_tidy TAB false) by done.
  rewrite sub_ws, (collapse_tidy false) by done.
  exact Hs.
Qed.

End CleanText.

(* ================================================================== *)
(** * The extraction loops *)
(* ================================================================== *)

Section Loops.

Import analyzer_agent.

Lemma extract_numbers_loop_ok (ms : list str) (vals : list Num.float) :
  extract_numbers_loop ms vals
  = Ok (vals ++ omap (fun tok => returned (Num.py_float tok)) ms).
Proof.
  revert vals. induction ms as [|m ms IH]; intros vals; simpl.
  - by rewrite app_nil_r.
  - destruct (Num.py_float m) as [v|e]; simpl; rewrite IH.
    + by rewrite <- app_assoc.
    + done.
Qed.

Lemma extract_measurements_loop_ok (ms : list Re.rmatch)
    (results : list measurement) :
  extract_measurements_loop ms results
  = Ok (results ++ omap (fun m => returned (measurement_of_match m)) ms).
Proof.
  revert results. induction ms as [|m ms IH]; intros results; simpl.
  - by rewrite app_nil_r.
  - unfold measurement_of_match.
    destruct (Num.py_float (Re.group m "value")) as [v|e]; simpl; rewrite IH.
    + by rewrite <- app_assoc.
    + done.
Qed.

(** [analyze_text] returns, and what it returns is a function of the
    normalized text. *)
Lemma analyze_text_ok (self : AnalyzerAgent) (raw_text : str) :
  analyze_text self raw_text
  = Ok (analysis_of self (parser_utils.clean_text raw_text)).
Proof.
  unfold analyze_text, _extract_numbers, _extract_measurements.
  rewrite extract_numbers_loop_ok, extract_measurements_loop_ok.
  reflexivity.
Qed.

(** A token that [float] rejects is left out and the loop goes on. *)
Example extract_numbers_loop_skips :
  extract_numbers_loop [lit "1"; lit "."; lit "2"] []
  = Ok [Num.dec 1 1; Num.dec 2 1].
Proof. repeat (f_equal; try (apply Qc_is_canon; reflexivity)). Qed.

End Loops.

(* ================================================================== *)
(** * The tokens and [float] *)
(* ================================================================== *)

Section Tokens.

Import Num analyzer_agent.

Lemma digit_not_sign c : Py.is_digit c = true → is_sign c = false.
Proof. by destruct c as [[] [] [] [] [] [] [] []]. Qed.

Lemma digit_not_dot c : Py.is_digit c = true → Ascii.eqb c "." = false.
Proof. by destruct c as [[] [] [] [] [] [] [] []]. Qed.

Lemma digit_not_e c : Py.is_digit c = true → is_e c = false.
Proof. by destruct c as [[] [] [] [] [] [] [] []]. Qed.

Lemma sign_not_digit c : is_sign c = true → Py.is_digit c = false.
Proof. by destruct c as [[] [] [] [] [] [] [] []]. Qed.

Lemma e_not_digit c : is_e c = true → Py.is_digit c = false.
Proof. by destruct c as [[] [] [] [] [] [] [] []]. Qed.

Lemma e_not_dot c : is_e c = true → Ascii.eqb c "." = false.
Proof. by destruct c as [[] [] [] [] [] [] [] []]. Qed.

(** [read_sign] takes a sign and nothing else. *)
Lemma read_sign_sign c s : is_sign c = true → ∃ neg, read_sign (c :: s) = (neg, s).
Proof.
  unfold is_sign, read_sign. destruct (Ascii.eqb c "-"); [by exists true|].
  simpl. intros ->. by exists false.
Qed.

Lemma read_sign_none s :
  match s with c :: _ => is_sign c = false | [] => True end →
  read_sign s = (false, s).
Proof.
  destruct s as [|c s]; [done|]. unfold is_sign, read_sign.
  intros H. apply orb_false_iff in H as [-> ->]. done.
Qed.

(** [read_digits] takes a run of digits that ends the text or stands before
    another character. *)
Lemma read_digits_run ds rest :
  forallb Py.is_digit ds = true →
  match rest with c :: _ => Py.is_digit c = false | [] => True end →
  read_digits (ds ++ rest) = (ds, rest).
Proof.
  intros Hds Hrest. induction ds as [|d ds IH]; simpl.
  - destruct rest as [|c rest]; [done|]. simpl. by rewrite Hrest.
  - simpl in Hds. apply andb_prop in Hds as [Hd Hds]. by rewrite Hd, IH.
Qed.

Lemma run_head_not_sign ds rest :
  forallb Py.is_digit ds = true →
  match rest with c :: _ => is_sign c = false | [] => True end →
  match ds ++ rest with c :: _ => is_sign c = false | [] => True end.
Proof.
  destruct ds as [|d ds]; [done|]. simpl. intros H _.
  apply andb_prop in H as [H _]. by apply digit_not_sign.
Qed.

(** [float] accepts digits, a point and at least one more digit, with or
    without a sign in front. *)
Lemma py_float_decimal sg ds fs :
  (sg = [] ∨ ∃ c, sg = [c] ∧ is_sign c = true) →
  forallb Py.is_digit ds = true →
  fs ≠ [] → forallb Py.is_digit fs = true →
  ∃ v, py_float (sg ++ ds ++ "."%char :: fs) = Ok v.
Proof.
  intros Hsg Hds Hne Hfs. unfold py_float.
  assert (Hs : ∃ neg, read_sign (sg ++ ds ++ "."%char :: fs)
                      = (neg, ds ++ "."%char :: fs)).
  { destruct Hsg as [->|(c & -> & Hc)].
    - exists false. apply read_sign_none. by apply run_head_not_sign.
    - by apply read_sign_sign. }
  destruct Hs as [neg ->].
  rewrite read_digits_run by done.
  change (Ascii.eqb "." ".") with true. cbv iota.
  pose proof (read_digits_run fs [] Hfs I) as Hrd.
  rewrite app_nil_r in Hrd. rewrite Hrd.
  destruct (ds ++ fs) as [|x xs] eqn:E.
  - apply app_eq_nil in E as [_ ->]. done.
  - eauto.
Qed.

(** [float] accepts a run of digits, alone or with an exponent. *)
Lemma py_float_integer ds tail :
  ds ≠ [] → forallb Py.is_digit ds = true →
  (tail = []
   ∨ ∃ c sg es, tail = c :: sg ++ es ∧ is_e c = true
       ∧ (sg = [] ∨ ∃ c', sg = [c'] ∧ is_sign c' = true)
       ∧ es ≠ [] ∧ forallb Py.is_digit es = true) →
  ∃ v, py_float (ds ++ tail) = Ok v.
Proof.
  intros Hne Hds Htail. unfold py_float.
  assert (Hhead : match tail with
                  | c :: _ => Py.is_digit c = false ∧ Ascii.eqb c "." = false
                  | [] => True
                  end).
  { destruct Htail as [->|(c & sg & es & -> & Hc & _)]; [done|].
    split; [by apply e_not_digit|by apply e_not_dot]. }
  rewrite read_sign_none.
  2:{ destruct ds as [|d ds]; [done|]. simpl in *.
      apply andb_prop in Hds as [Hd _]. by apply digit_not_sign. }
  rewrite read_digits_run; [|done|by destruct tail as [|c tail]; [|apply Hhead]].
  destruct Htail as [->|(c & sg & es & -> & Hc & Hsg & Hes & Hed)].
  - rewrite app_nil_r. destruct ds; [done|]. eauto.
  - destruct Hhead as [_ ->]. rewrite app_nil_r.
    destruct ds as [|d ds']; [done|]. cbv iota.
    unfold is_e in Hc. rewrite Hc.
    assert (Hs : ∃ neg, read_sign (sg ++ es) = (neg, es)).
    { destruct Hsg as [->|(c' & -> & Hc')].
      - exists false. apply read_sign_none.
        destruct es as [|x es]; [done|]. simpl in Hed.
        apply andb_prop in Hed as [Hx _]. by apply digit_not_sign.
      - by apply read_sign_sign. }
    destruct Hs as [eneg ->].
    pose proof (read_digits_run es [] Hed I) as Hrd.
    rewrite app_nil_r in Hrd. rewrite Hrd.
    destruct es; [done|]. eauto.
Qed.

Lemma lang_opt_sign t :
  lang (Re.Opt (Re.Chr is_sign)) t →
  t = [] ∨ ∃ c, t = [c] ∧ is_sign c = true.
Proof. simpl. intros [->|(c & -> & Hc)]; eauto. Qed.

Lemma lang_signed_decimal t :
  lang signed_decimal t → ∃ v, py_float t = Ok v.
Proof.
  intros (sg & t1 & -> & Hsg & ds & t2 & -> & Hds & dot & fs & -> & Hdot & Hfs).
  apply lang_opt_sign in Hsg. simpl in Hds, Hfs.
  destruct Hdot as (c & -> & Hc). unfold is_dot in Hc.
  apply Ascii.eqb_eq in Hc as ->. destruct Hfs as [Hne Hfs].
  by apply py_float_decimal.
Qed.

(** [float] accepts every token of the number pattern: the [except] branch
    of [_extract_numbers] is never taken. *)
Lemma number_tokens_accepted s tok :
  tok ∈ Re.findall _NUMBER_RE s → ∃ v, py_float tok = Ok v.
Proof.
  unfold Re.findall. intros H. apply list_elem_of_fmap in H as (m & -> & H).
  apply finditer_lang in H. destruct H as [H|[Hne Hds]].
  - by apply lang_signed_decimal.
  - rewrite <- (app_nil_r (Re.m_text m)). apply py_float_integer; auto.
Qed.

(** The text kept for the first group of a pattern of the shape
    [(?P<raw>(?P<value>V)Y)] is in the language of [V]. *)
Lemma value_group_lang V Y prev s m :
  "value"%string ∉ group_names Y →
  Re.match_at (Re.Group "raw" (Re.Seq (Re.Group "value" V) Y)) prev s = Some m →
  lang V (Re.group m "value").
Proof.
  intros HY. unfold Re.match_at. cbn [Re.run]. intros H.
  apply run_lang in H as (p1 & t & s1 & c1 & -> & L & _ & H).
  apply run_lang in H as (p2 & t2 & s2 & c2 & -> & _ & C2 & [= <-]).
  unfold Re.group. cbn [Re.m_groups].
  rewrite lookup_insert_ne by done. rewrite C2 by done.
  rewrite lookup_insert_eq. cbn [default].
  rewrite length_app.
  replace (length t + length (t2 ++ s2) - length (t2 ++ s2))%nat
    with (length t) by lia.
  by rewrite take_app_length.
Qed.

(** [float] accepts the value of every match of the measurement pattern:
    the [except] branch of [_extract_measurements] is never taken. *)
Lemma measurement_values_accepted s m :
  m ∈ Re.finditer _MEASUREMENT_RE s →
  ∃ v, py_float (Re.group m "value") = Ok v.
Proof.
  unfold Re.finditer, Re.scan. intros H.
  apply list_elem_of_fmap in H as ([g m'] & -> & H).
  apply scan_from_matches in H as (prev' & s' & H).
  apply value_group_lang in H;
    [|simpl; intros Hin; apply elem_of_cons in Hin as [?|Hin];
      [done|by apply elem_of_nil in Hin]].
  cbn [snd]. revert H. generalize (Re.group m' "value"). intros t L.
  destruct L as [L|(ds & tail & -> & [Hne Hds] & Ltail)].
  - by apply lang_signed_decimal.
  - apply py_float_integer; [done|done|].
    destruct Ltail as [->|(e & t1 & -> & (c & -> & Hc) & sg & es & -> & Hsg & Hes)];
      [by left|].
    right. apply lang_opt_sign in Hsg. destruct Hes as [Hne' Hes].
    exists c, sg, es. eauto.
Qed.

Lemma omap_all_Some {A B} (f : A → option B) (l : list A) :
  (∀ x, x ∈ l → is_Some (f x)) →
  Forall2 (fun x y => f x = Some y) l (omap f l).
Proof.
  induction l as [|x l IH]; intros H; simpl; [constructor|].
  destruct (H x) as [y Hy]; [left|]. rewrite Hy. constructor; [done|].
  apply IH. intros z Hz. apply H. by right.
Qed.

(** With the loops: [numbers_found] has the float of every token of the
    number pattern and [measurements] an entry for every match of the
    measurement pattern, in the order of the scan. *)
Lemma every_token_converted (self : AnalyzerAgent) (text : str) :
  ∃ r,
    analyze_text self text = Ok r
    ∧ Forall2 (fun tok v => py_float tok = Ok v)
        (Re.findall _NUMBER_RE (parser_utils.clean_text text))
        (numbers_found r)
    ∧ Forall2 (fun m e => measurement_of_match m = Ok e)
        (Re.finditer _MEASUREMENT_RE (parser_utils.clean_text text))
        (measurements r).
Proof.
  rewrite analyze_text_ok. eexists. split; [reflexivity|].
  cbn [analysis_of numbers_found measurements]. split.
  - apply Forall2_impl
      with (R1 := fun tok v => returned (py_float tok) = Some v).
    + intros tok v. by destruct (py_float tok) as [v'|]; intros [= ->].
    + apply omap_all_Some. intros tok Htok.
      destruct (number_tokens_accepted _ _ Htok) as [v Hv].
      rewrite Hv. by eexists.
  - apply Forall2_impl
      with (R1 := fun m e => returned (measurement_of_match m) = Some e).
    + intros m e.
      by destruct (measurement_of_match m) as [e'|]; intros [= ->].
    + apply omap_all_Some. intros m Hm.
      destruct (measurement_values_accepted _ _ Hm) as [v Hv].
      unfold measurement_of_match. rewrite Hv. by eexists.
Qed.

End Tokens.

(* ================================================================== *)
(** * Arithmetic of the scorer *)
(* ================================================================== *)

Section Scoring.

Import Num evaluator_agent ScoreLocals.
Local Open Scope Qc_scope.

Lemma float_eq (x y : Qc) : (this x == this y)%Q → x = y.
Proof. apply Qc_is_canon. Qed.

Lemma dec_eq a b c d : (a # b == c # d)%Q → dec a b = dec c d.
Proof. intros H. unfold dec. by apply Q2Qc_eq_iff. Qed.

Lemma this_dec n d : (this (dec n d) == n # d)%Q.
Proof. unfold dec. simpl. apply Qred_correct. Qed.

Lemma this_float_of_int z : (this (float_of_int z) == inject_Z z)%Q.
Proof. unfold float_of_int. simpl. apply Qred_correct. Qed.

Lemma this_plus (x y : Qc) : (this (x + y) == this x + this y)%Q.
Proof. simpl. apply Qred_correct. Qed.

Lemma this_mult (x y : Qc) : (this (x * y) == this x * this y)%Q.
Proof. simpl. apply Qred_correct. Qed.

Lemma Qcle_this (x y : Qc) : (this x <= this y)%Q → x ≤ y.
Proof. done. Qed.

Lemma float_of_int_succ z :
  float_of_int (Z.succ z) = float_of_int z + dec 10 10.
Proof.
  apply float_eq. rewrite this_plus, !this_float_of_int, this_dec.
  unfold Qeq, Qplus. simpl. lia.
Qed.

Lemma float_of_len_nonneg {A} (l : list A) :
  (0 <= this (float_of_int (Py.len l)))%Q.
Proof.
  rewrite this_float_of_int. unfold Py.len.
  change 0%Q with (inject_Z 0). rewrite <- Zle_Qle. lia.
Qed.

Lemma py_min_ge c x y : c ≤ x → c ≤ y → c ≤ py_min x y.
Proof. intros Hx Hy. unfold py_min. by destruct (fltb y x). Qed.

(** ** Whole multiples of 0.125 *)

Lemma on_grid_const n : ((8 * n) mod 10 = 0)%Z → on_grid (dec n 10).
Proof.
  intros H. exists (8 * n / 10)%Z. apply dec_eq. unfold Qeq. simpl.
  pose proof (Z.div_mod (8 * n) 10). lia.
Qed.

Lemma on_grid_plus x y : on_grid x → on_grid y → on_grid (x + y).
Proof.
  intros [a ->] [b ->]. exists (a + b)%Z. apply float_eq.
  rewrite this_plus, !this_dec. unfold Qeq, Qplus. simpl. lia.
Qed.

Lemma on_grid_int_mult z x : on_grid x → on_grid (float_of_int z * x).
Proof.
  intros [a ->]. exists (z * a)%Z. apply float_eq.
  rewrite this_mult, this_float_of_int, !this_dec.
  unfold Qeq, Qmult. simpl. lia.
Qed.

Lemma on_grid_min x y : on_grid x → on_grid y → on_grid (py_min x y).
Proof. intros Hx Hy. unfold py_min. by destruct (fltb y x). Qed.

Lemma round_half_even_int z q : (q == inject_Z z)%Q → round_half_even q = z.
Proof.
  intros H. unfold round_half_even.
  rewrite (Qfloor_comp _ _ H), Qfloor_Z.
  assert (E : (q - inject_Z z == 0)%Q) by (rewrite H; ring).
  rewrite (Qcompare_comp _ _ E _ _ (Qeq_refl (1#2))). reflexivity.
Qed.

(** Rounding to three decimals leaves a multiple of 0.125 as it is. *)
Lemma py_round_grid x : on_grid x → py_round x 3 = x.
Proof.
  intros [j ->]. unfold py_round.
  rewrite (round_half_even_int (125 * j)).
  - apply float_eq. simpl. rewrite !Qred_correct.
    unfold Qeq, Qdiv, Qmult, Qinv. simpl. lia.
  - rewrite this_dec. unfold Qeq, Qmult. simpl. lia.
Qed.

Ltac grid :=
  repeat first
    [ assumption
    | apply on_grid_plus
    | apply on_grid_int_mult
    | apply on_grid_min
    | apply on_grid_const; reflexivity
    | match goal with |- on_grid (if ?b then _ else _) => destruct b end ].

(** ** [score] through its local variables *)

Lemma score_locals self it :
  score_value (score self it) = py_round (total_score self it) 3
  ∧ passed_threshold (score self it)
    = fleb (threshold self) (total_score self it)
  ∧ breakdown (score self it)
    = <["penalty" := penalty it]>
        (<["claim_score" := claim_pts self it]>
           (<["length_score" := length_pts self it]>
              (<["measurement_score" := measurement_pts it]>
                 (<["numeric_score" := numeric_pts self it]>
                    (<["keyword_score" := keyword_pts self it]> ∅))))).
Proof. repeat split. Qed.

Lemma breakdown_total_score self it :
  breakdown_total (breakdown (score self it)) = Some (total_score self it).
Proof. reflexivity. Qed.

Lemma total_on_grid self it : grid_weights self → on_grid (total_score self it).
Proof.
  intros (Hk & Hn & Hl & Hc).
  unfold total_score, keyword_pts, numeric_pts, measurement_pts, length_pts,
    claim_pts, penalty.
  grid.
Qed.

Lemma score_unrounded self it :
  grid_weights self → score_value (score self it) = total_score self it.
Proof.
  intros H. rewrite (proj1 (score_locals self it)).
  by apply py_round_grid, total_on_grid.
Qed.

(** The default weights 2.0, 3.0, 1.0 and 1.5 are multiples of 0.125. *)
Lemma default_grid th : grid_weights (__init__ th None).
Proof. repeat split; grid. Qed.

Lemma total_score_lower_bound th it :
  dec (-20) 10 ≤ total_score (__init__ th None) it.
Proof.
  set (self := __init__ th None).
  assert (Hk : dec 0 10 ≤ keyword_pts self it).
  { apply Qcle_this. unfold keyword_pts.
    change (weight self "keyword" (dec 20 10)) with (dec 20 10).
    rewrite this_mult, !this_dec.
    pose proof (float_of_len_nonneg
                  (field (ai_analysis it) keywords_detected [])).
    lra. }
  assert (Hn : dec 0 10 ≤ numeric_pts self it).
  { unfold numeric_pts. by destruct (_ <? _)%Z. }
  assert (Hm : dec 0 10 ≤ measurement_pts it).
  { unfold measurement_pts. destruct (_ <? _)%Z; [|done].
    apply py_min_ge; [|done]. apply Qcle_this.
    rewrite this_mult, !this_dec.
    pose proof (float_of_len_nonneg (field (ai_analysis it) measurements [])).
    lra. }
  assert (Hl : dec 0 10 ≤ length_pts self it).
  { unfold length_pts. by destruct (_ <=? _)%Z. }
  assert (Hc : dec 0 10 ≤ claim_pts self it).
  { unfold claim_pts. apply py_min_ge; [|done]. apply Qcle_this.
    change (weight self "claim_bonus" (dec 15 10)) with (dec 15 10).
    rewrite this_mult, !this_dec.
    pose proof (float_of_len_nonneg (field (ai_analysis it) claims [])).
    lra. }
  assert (Hp : dec (-20) 10 ≤ penalty it).
  { unfold penalty. by destruct (_ <? _)%Z. }
  unfold total_score. unfold Qcle in *.
  rewrite !this_plus. rewrite !this_dec in *. lra.
Qed.

Lemma score_wf self it : wf_result self (score self it).
Proof.
  split; [|split].
  - rewrite (proj2 (proj2 (score_locals self it))).
    rewrite !dom_insert_L, dom_empty_L. set_solver.
  - exists (total_score self it). repeat split.
  - unfold score. cbn [reasons].
    intros H. apply (f_equal length) in H. revert H.
    repeat match goal with
           | |- context [if ?b then _ else _] => destruct b
           end;
      rewrite ?length_app; simpl; lia.
Qed.

End Scoring.

(** ** Where the float arithmetic of the scorer is exact *)

Section Exactness.

Import Num evaluator_agent ScoreLocals.
Local Open Scope Qc_scope.

Lemma grid_within_on_grid b x : grid_within b x → on_grid x.
Proof. intros (j & -> & _). by exists j. Qed.

Lemma grid_within_plus b1 b2 x y :
  grid_within b1 x → grid_within b2 y → grid_within (b1 + b2) (x + y).
Proof.
  intros (i & -> & Hi) (j & -> & Hj). exists (i + j)%Z. split; [|lia].
  apply float_eq. rewrite this_plus, !this_dec. unfold Qeq, Qplus. simpl. lia.
Qed.

Lemma grid_within_int_mult n b z x :
  (Z.abs z <= n)%Z → grid_within b x →
  grid_within (n * b) (float_of_int z * x).
Proof.
  intros Hz (j & -> & Hj). exists (z * j)%Z. split.
  - apply float_eq. rewrite this_mult, this_float_of_int, !this_dec.
    unfold Qeq, Qmult. simpl. lia.
  - rewrite Z.abs_mul. nia.
Qed.

Lemma grid_within_const b n :
  ((8 * n) mod 10 = 0)%Z → (Z.abs n <= 10 * b)%Z → grid_within b (dec n 10).
Proof.
  intros H Hb. exists (8 * n / 10)%Z. split.
  - apply dec_eq. unfold Qeq. simpl. pose proof (Z.div_mod (8 * n) 10). lia.
  - pose proof (Z.div_mod (8 * n) 10). lia.
Qed.

(** Up to 2^49 the multiples of 0.125 are binary64 numbers. *)
Lemma grid_within_binary64 b x :
  (b <= 2 ^ 49)%Z → grid_within b x → binary64 x.
Proof.
  intros Hb (j & -> & Hj). exists j, (-3)%Z. split; [lia|]. split; [lia|].
  rewrite this_dec. unfold Qeq. simpl. lia.
Qed.

Lemma moderate_grid self : moderate_weights self → grid_weights self.
Proof.
  intros (Hk & Hn & Hl & Hc).
  repeat split; by eapply grid_within_on_grid.
Qed.

Lemma default_moderate th : moderate_weights (__init__ th None).
Proof. repeat split; by apply grid_within_const. Qed.

Lemma len_abs {A} (l : list A) n :
  (Py.len l <= n)%Z → (Z.abs (Py.len l) <= n)%Z.
Proof. unfold Py.len. lia. Qed.

(** The measurement points are one of 0.0, 0.5, ..., 3.0. *)
Lemma measurement_pts_within it : grid_within 3 (measurement_pts it).
Proof.
  unfold measurement_pts.
  destruct (_ <? _)%Z; [|by apply grid_within_const].
  unfold py_min. destruct (fltb _ _) eqn:E; [by apply grid_within_const|].
  set (n := Py.len _) in *.
  exists (4 * n)%Z. split.
  - apply float_eq. rewrite this_mult, this_float_of_int, !this_dec.
    unfold Qeq, Qmult. simpl. lia.
  - unfold fltb in E. apply negb_false_iff, Qle_bool_iff in E.
    rewrite this_mult, this_float_of_int, !this_dec in E.
    assert (0 <= n)%Z by (unfold n, Py.len; lia).
    unfold Qle, Qmult in E. simpl in E. lia.
Qed.

(** With moderate weights and at most a million keywords and claims no
    operation of [score] rounds. *)
Lemma exact_arithmetic_moderate self it :
  moderate_weights self →
  (Py.len (field (ai_analysis it) keywords_detected []) <= 1000000)%Z →
  (Py.len (field (ai_analysis it) claims []) <= 1000000)%Z →
  exact_arithmetic self it.
Proof.
  intros Hw Hkl Hcl.
  pose proof (moderate_grid self Hw) as Hg.
  destruct Hw as (Hk & Hn & Hl & Hc).
  assert (Kk : grid_within 1000000000000 (keyword_pts self it)).
  { unfold keyword_pts.
    change 1000000000000%Z with (1000000 * 1000000)%Z.
    apply grid_within_int_mult; [by apply len_abs|done]. }
  assert (Kn : grid_within 1000000 (numeric_pts self it)).
  { unfold numeric_pts. destruct (_ <? _)%Z; [done|by apply grid_within_const]. }
  pose proof (measurement_pts_within it) as Km.
  assert (Kl : grid_within 1000000 (length_pts self it)).
  { unfold length_pts. destruct (_ <=? _)%Z; [done|by apply grid_within_const]. }
  assert (Kc0 : grid_within 1000000000000
                  (float_of_int (Py.len (field (ai_analysis it) claims []))
                   * weight self "claim_bonus" (dec 15 10))).
  { change 1000000000000%Z with (1000000 * 1000000)%Z.
    apply grid_within_int_mult; [by apply len_abs|done]. }
  assert (Kc : grid_within 1000000000000 (claim_pts self it)).
  { unfold claim_pts, py_min. destruct (fltb _ _); [|done].
    by apply grid_within_const. }
  assert (Kp : grid_within 2 (penalty it)).
  { unfold penalty. destruct (_ <? _)%Z; by apply grid_within_const. }
  pose proof (grid_within_plus _ _ _ _ Kk Kn) as K1.
  pose proof (grid_within_plus _ _ _ _ K1 Km) as K2.
  pose proof (grid_within_plus _ _ _ _ K2 Kl) as K3.
  pose proof (grid_within_plus _ _ _ _ K3 Kc) as K4.
  pose proof (grid_within_plus _ _ _ _ K4 Kp) as K5.
  unfold exact_arithmetic. cbv zeta.
  rewrite (score_unrounded self it Hg). unfold total_score.
  repeat (constructor;
          [eapply grid_within_binary64; [|eassumption]; by vm_compute|]).
  constructor.
Qed.

(** A binary64 number times 2^1074 is an integer [m * 2^k]. *)
Lemma binary64_scaled x :
  binary64 x →
  ∃ m k : Z, (Z.abs m < 2 ^ 53)%Z ∧ (0 <= k <= 2045)%Z
             ∧ (this x * inject_Z (2 ^ 1074) == inject_Z (m * 2 ^ k))%Q.
Proof.
  intros (m & e & Hm & He & Hx). exists m, (e + 1074)%Z.
  split; [done|]. split; [lia|].
  rewrite Hx, inject_Z_mult.
  rewrite (Zpower_Qpower 2 1074) by lia.
  rewrite (Zpower_Qpower 2 (e + 1074)) by lia.
  rewrite Qpower_plus by done.
  change (inject_Z 2) with 2%Q. ring.
Qed.

(** Beyond the bounds the arithmetic rounds: 2^53 + 0.125 is no binary64
    number, so the float sum of a numeric bonus of 2^53 and a keyword
    weight of 0.125 is not their sum. *)
Lemma not_binary64_absorbed : ¬ binary64 (dec (2 ^ 56 + 1) 8).
Proof.
  intros H. apply binary64_scaled in H as (m & k & Hm & Hk & H).
  rewrite this_dec in H.
  assert (E : ((2 ^ 56 + 1) * 2 ^ 1071 = m * 2 ^ k)%Z).
  { unfold Qeq in H. cbn [Qnum Qden Qmult inject_Z] in H.
    change (2 ^ 1074)%Z with (8 * 2 ^ 1071)%Z in H.
    revert H. generalize (2 ^ 1071)%Z. intros. lia. }
  clear H.
  destruct (Z_le_gt_dec 1072 k) as [Hge|Hlt].
  - assert (D : (m * 2 ^ k = (m * 2 ^ (k - 1072)) * 2 ^ 1072)%Z).
    { rewrite <- Z.mul_assoc, <- Z.pow_add_r by lia. do 2 f_equal. lia. }
    rewrite D in E. apply (f_equal (fun z => z mod 2 ^ 1072)%Z) in E.
    rewrite Z.mod_mul in E by (by vm_compute). by vm_compute in E.
  - assert (P : (0 < 2 ^ k <= 2 ^ 1071)%Z).
    { split; [apply Z.pow_pos_nonneg; lia|apply Z.pow_le_mono_r; lia]. }
    assert (Q : (2 ^ 1071 > 0)%Z) by (by vm_compute).
    revert E P Q. generalize (2 ^ 1071)%Z (2 ^ k)%Z. intros a b E P Q.
    assert (m * b < 2 ^ 53 * a)%Z by nia. lia.
Qed.

End Exactness.


(* ================================================================== *)
(** * The model on concrete inputs *)
(* ================================================================== *)

(** The values below are those CPython 3.11 gives for the same calls. *)

(** Equality of computed floats and of lists of them. *)
Ltac floats :=
  vm_compute;
  repeat first [ reflexivity | apply Qc_is_canon; reflexivity | f_equal ].

Example split_words :
  Py.split (lit " a  bc d ") = map lit ["a"; "bc"; "d"]%string.
Proof. reflexivity. Qed.

Example clean_text_blanks :
  parser_utils.clean_text
    (lit "  a " ++ [ascii_of_N 133; ascii_of_N 160] ++ lit " b"
     ++ [ascii_of_N 9; ascii_of_N 13; ascii_of_N 10] ++ lit "c "
     ++ [ascii_of_N 28] ++ lit " ")
  = lit "a b c".
Proof. reflexivity. Qed.

Example py_float_accepts :
  map Num.py_float (map lit ["2.6"; "-.5"; "5."; "1e3"; "12E-1"; "+7"]%string)
  = [Ok (Num.dec 26 10); Ok (Num.dec (-5) 10); Ok (Num.dec 5 1);
     Ok (Num.dec 1000 1); Ok (Num.dec 12 10); Ok (Num.dec 7 1)].
Proof. floats. Qed.

Example py_float_rejects :
  map Num.py_float (map lit ["."; ""; "1e"; "e5"; "+-5"; "1.2.3"]%string)
  = replicate 6 (Raise ValueError).
Proof. reflexivity. Qed.

Example format_1f_values :
  map Num.format_1f
    [Num.dec 25 100; Num.dec (-4) 100; Num.dec 3 1; Num.dec 75 100;
     Num.dec (-125) 10]
  = map lit ["0.2"; "-0.0"; "3.0"; "0.8"; "-12.5"]%string.
Proof. vm_compute. reflexivity. Qed.

Example py_round_tie : Num.py_round (Num.dec 625 10000) 3 = Num.dec 62 1000.
Proof. floats. Qed.

Example number_tokens :
  Re.findall analyzer_agent._NUMBER_RE
    (lit "-5 +3 -2.5 K2-18b 1.2.3 5. .5 --.5 1e5")
  = map lit ["5"; "3"; "-2.5"; "2"; "18"; "1.2"; ".3"; "5"; ".5"; "-.5";
             "1"; "5"]%string.
Proof. reflexivity. Qed.

Example measurement_groups :
  map (fun m => (Re.group m "value", Re.group m "unit", Re.group m "raw"))
    (Re.finditer analyzer_agent._MEASUREMENT_RE
       (lit "1e3 km 1e3 5 - - m 12 7.5%x 3E+2kg 1e-x"))
  = [(lit "1e3", lit "km", lit "1e3 km"); (lit "1", lit "e", lit "1e");
     (lit "5", lit "m", lit "5 - - m"); (lit "7.5", lit "%x", lit "7.5%x");
     (lit "3E+2", lit "kg", lit "3E+2kg"); (lit "1", lit "e", lit "1e")].
Proof. reflexivity. Qed.

(** The micro sign U+00B5 and the degree sign U+00B0 in units. *)
Example measurement_signs :
  map (fun m => (Re.group m "value", Re.group m "unit"))
    (Re.finditer analyzer_agent._MEASUREMENT_RE
       (lit "5 " ++ [ascii_of_N 181] ++ lit "m at 20" ++ [ascii_of_N 176]
        ++ lit "C, -3.5 km/s"))
  = [(lit "5", ascii_of_N 181 :: lit "m"); (lit "20", ascii_of_N 176 :: lit "C");
     (lit "-3.5", lit "km/s")].
Proof. reflexivity. Qed.

Example sentence_pieces :
  analyzer_agent._extract_sentences
    (lit "Hello there.  How are you? Fine! ok. .5 x.")
  = map lit ["Hello there."; "How are you?"; "Fine!"; "ok."; ".5 x."]%string.
Proof. reflexivity. Qed.

Example sentence_split_edges :
  Re.split analyzer_agent._SENTENCE_SPLIT_RE (lit ". a. b")
  = map lit ["."; "a."; "b"]%string
  ∧ Re.split analyzer_agent._SENTENCE_SPLIT_RE (lit "a.b. c")
    = map lit ["a.b."; "c"]%string
  ∧ Re.split analyzer_agent._SENTENCE_SPLIT_RE (lit " ") = [lit " "].
Proof. repeat split. Qed.

(** The whole pipeline on the sample paragraph. *)
Example sample_analysis :
  analyzer_agent.analyze_text analyzer_agent.default_agent K2_18b_sample
  = Ok {| word_count := 22;
          sentence_count := 2;
          numbers_found :=
            [Num.dec 2 1; Num.dec 18 1; Num.dec 124 1; Num.dec 26 10;
             Num.dec 33 1];
          measurements :=
            [mk_measurement (Num.dec 18 1) (lit "b") (lit "18b");
             mk_measurement (Num.dec 124 1) (lit "light") (lit "124 light");
             mk_measurement (Num.dec 26 10) (lit "times") (lit "2.6 times");
             mk_measurement (Num.dec 33 1) (lit "days") (lit "33 days")];
          keywords_detected :=
            map lit ["exoplanet"; "orbital"; "orbit"; "radius"; "period";
                     "days"; "light-years"]%string;
          claims :=
            map lit
              ["The exoplanet K2-18b, located 124 light-years away...";
               "radius of approximately 2.6 times that of Earth and an orbital period of 33 days."]%string;
          snippet := K2_18b_sample |}.
Proof. floats. Qed.

Example sample_score :
  ∃ res,
    analyze_then_score analyzer_agent.default_agent
      evaluator_agent.default_agent
      (mk_item (Some (lit "k2-18b.txt")) None None (Some K2_18b_sample))
    = Ok res
    ∧ evaluator_agent.score_value res = Num.dec 230 10
    ∧ evaluator_agent.passed_threshold res = true
    ∧ evaluator_agent.reasons res
      = map lit
          ["Keywords detected: 7 (+14.0)";
           "Numeric density high (5 numbers) (+3.0)";
           "Measurements found: 4 (+2.0)";
           "Content length sufficient (22 words) (+1.0)";
           "Claims detected: 2 (+3.0)"]%string.
Proof.
  eexists. split; [reflexivity|]. split; [floats|]. split; vm_compute; reflexivity.
Qed.

(** ** What the composed run reads of an item *)

(** [score] reads its argument through ["analysis"] alone, but for the id
    it copies into the result. *)
Lemma score_same_analysis (ev : evaluator_agent.EvaluatorAgent)
    (w1 w2 : analysis_item) :
  ai_analysis w1 = ai_analysis w2 →
  evaluator_agent.score_value (evaluator_agent.score ev w1)
  = evaluator_agent.score_value (evaluator_agent.score ev w2)
  ∧ evaluator_agent.passed_threshold (evaluator_agent.score ev w1)
    = evaluator_agent.passed_threshold (evaluator_agent.score ev w2)
  ∧ evaluator_agent.reasons (evaluator_agent.score ev w1)
    = evaluator_agent.reasons (evaluator_agent.score ev w2)
  ∧ evaluator_agent.breakdown (evaluator_agent.score ev w1)
    = evaluator_agent.breakdown (evaluator_agent.score ev w2)
  ∧ evaluator_agent.raw_analysis (evaluator_agent.score ev w1)
    = evaluator_agent.raw_analysis (evaluator_agent.score ev w2).
Proof.
  intros H. unfold evaluator_agent.score.
  cbn [evaluator_agent.score_value evaluator_agent.passed_threshold
       evaluator_agent.reasons evaluator_agent.breakdown
       evaluator_agent.raw_analysis].
  rewrite H. repeat split.
Qed.

(** Analysis followed by scoring reads an item through its text: run on
    two items with the same text, both runs return the same score, verdict,
    reasons, breakdown and analysis, whatever their titles and sources; the
    id is copied into the result. *)
Lemma analyze_then_score_same_text
    (an : analyzer_agent.AnalyzerAgent) (ev : evaluator_agent.EvaluatorAgent)
    (it1 it2 : item) :
  item_raw it1 = item_raw it2 →
  ∃ r1 r2,
    analyze_then_score an ev it1 = Ok r1
    ∧ analyze_then_score an ev it2 = Ok r2
    ∧ evaluator_agent.score_value r1 = evaluator_agent.score_value r2
    ∧ evaluator_agent.passed_threshold r1 = evaluator_agent.passed_threshold r2
    ∧ evaluator_agent.reasons r1 = evaluator_agent.reasons r2
    ∧ evaluator_agent.breakdown r1 = evaluator_agent.breakdown r2
    ∧ evaluator_agent.raw_analysis r1 = evaluator_agent.raw_analysis r2
    ∧ (item_id it1 = item_id it2 → r1 = r2).
Proof.
  intros Hraw.
  unfold analyze_then_score, analyzer_agent.run_on_item.
  rewrite !analyze_text_ok, Hraw.
  eexists _, _. split; [reflexivity|]. split; [reflexivity|].
  set (a := analysis_of an _).
  pose proof (score_same_analysis ev
                (mk_analysis_item (item_id it1) (item_title it1)
                   (item_source it1) (Some a))
                (mk_analysis_item (item_id it2) (item_title it2)
                   (item_source it2) (Some a)) eq_refl)
    as (H1 & H2 & H3 & H4 & H5).
  repeat (split; [assumption|]).
  intros Hid. unfold evaluator_agent.score. cbn [original_id ai_analysis].
  by rewrite Hid.
Qed.

(* ================================================================== *)
(** * The claims *)
(* ================================================================== *)

(** C2 (as stated, refuted).  With the empty string among the keywords the
    analysis of the empty text reports that keyword, and with a negative
    [max_snippet_chars] its snippet is the truncation marker. *)
Lemma C2_counterexample :
  analyzer_agent.analyze_text
    (analyzer_agent.__init__ (Some [lit ""]) 30 400) (lit "")
  = Ok (mk_analysis 0 0 [] [] [lit ""] [] (lit ""))
  ∧ analyzer_agent.analyze_text
      (analyzer_agent.__init__ None 30 (-1)) (lit "")
    = Ok (mk_analysis 0 0 [] [] [] [] (lit "..."))
  ∧ ¬ (∀ self, analyzer_agent.analyze_text self (lit "") = Ok empty_analysis).
Proof.
  split; [reflexivity|]. split; [reflexivity|].
  intros H. specialize (H (analyzer_agent.__init__ None 30 (-1))).
  discriminate H.
Qed.

(** C2 (amended).  For every configuration whose [max_snippet_chars] is not
    negative and whose keywords do not include the empty string,
    [analyze_text] of the empty string returns word count 0, sentence count
    0, no numbers, measurements, keywords or claims, and the empty snippet. *)
Theorem C2_empty_text (self : analyzer_agent.AnalyzerAgent) :
  0 <= analyzer_agent.max_snippet_chars self →
  [] ∉ analyzer_agent.keywords self →
  analyzer_agent.analyze_text self (lit "") = Ok empty_analysis.
Proof.
  intros Hmax Hkw. rewrite analyze_text_ok.
  change (parser_utils.clean_text (lit "")) with ([] : str).
  assert (Hk : analyzer_agent._find_keywords self [] = []).
  { unfold analyzer_agent._find_keywords. simpl.
    induction (analyzer_agent.keywords self) as [|kw kws IH]; [done|].
    apply not_elem_of_cons in Hkw as [Hne Hkw].
    destruct kw as [|c kw]; [done|]. simpl. by apply IH. }
  unfold analysis_of, empty_analysis. rewrite Hk.
  assert (Hs : Py.slice_to [] (analyzer_agent.max_snippet_chars self) = []).
  { unfold Py.slice_to. destruct (_ <? 0); apply take_nil. }
  rewrite Hs.
  rewrite (proj2 (Z.ltb_ge _ _)) by (unfold Py.len; simpl; lia).
  reflexivity.
Qed.

Lemma C2_witness :
  (0 <= analyzer_agent.max_snippet_chars analyzer_agent.default_agent)
  ∧ ([] ∉ analyzer_agent.keywords analyzer_agent.default_agent)
  ∧ analyzer_agent.analyze_text analyzer_agent.default_agent (lit "")
    = Ok empty_analysis.
Proof.
  assert (H1 : 0 <= analyzer_agent.max_snippet_chars
                      analyzer_agent.default_agent) by (simpl; lia).
  assert (H2 : [] ∉ analyzer_agent.keywords analyzer_agent.default_agent).
  { simpl. rewrite !not_elem_of_cons. repeat split; try discriminate.
    apply not_elem_of_nil. }
  split; [exact H1|]. split; [exact H2|].
  exact (C2_empty_text analyzer_agent.default_agent H1 H2).
Defined.

(** An entry is listed among the detected keywords as often as among the
    configured ones when the text contains it, and not at all otherwise. *)
Lemma occurrences_filter (P : str → Prop) `{∀ x, Decision (P x)}
    (x : str) (l : list str) :
  occurrences x (filter P l) = if decide (P x) then occurrences x l else 0%nat.
Proof.
  unfold occurrences. rewrite list_filter_filter.
  destruct (decide (P x)) as [Hx|Hx].
  - f_equal. apply list_filter_iff. intros y. split; [tauto|].
    intros ->. done.
  - replace (filter (λ y, y = x ∧ P y) l) with ([] : list str); [done|].
    symmetry. induction l as [|y l IH]; [done|].
    rewrite filter_cons_False; [done|]. intros [-> ?]. done.
Qed.

(** C3 (as stated, refuted).  Two configured keywords that differ by case
    only are both found, so the same entry is reported twice. *)
Lemma C3_counterexample :
  ∃ r,
    analyzer_agent.analyze_text
      (analyzer_agent.__init__ (Some [lit "mass"; lit "Mass"]) 30 400)
      (lit "Mass of the star") = Ok r
    ∧ keywords_detected r = [lit "mass"; lit "mass"]
    ∧ ¬ NoDup (keywords_detected r).
Proof.
  eexists. split; [reflexivity|]. split; [reflexivity|].
  intros H. change (NoDup [lit "mass"; lit "mass"]) in H.
  inversion H as [|? ? Hn _]. apply Hn. left.
Qed.

(** C3 (amended).  [keywords_detected] holds exactly the entries of the
    lower-cased vocabulary [self.keywords] that occur in the lower-cased
    normalized text, in vocabulary order; an entry found appears as often as
    the vocabulary lists it, hence once when the vocabulary has no
    duplicates; the length is at most that of the vocabulary. *)
Theorem C3_keywords_detected (self : analyzer_agent.AnalyzerAgent)
    (text : str) :
  ∃ r,
    analyzer_agent.analyze_text self text = Ok r
    ∧ (∀ kw, kw ∈ keywords_detected r ↔
             kw ∈ analyzer_agent.keywords self
             ∧ occurs_in kw (Py.lower (parser_utils.clean_text text)))
    ∧ (∀ kw, kw ∈ keywords_detected r →
             occurrences kw (keywords_detected r)
             = occurrences kw (analyzer_agent.keywords self))
    ∧ (NoDup (analyzer_agent.keywords self) → NoDup (keywords_detected r))
    ∧ keywords_detected r `sublist_of` analyzer_agent.keywords self
    ∧ (length (keywords_detected r)
       <= length (analyzer_agent.keywords self))%nat.
Proof.
  rewrite analyze_text_ok. eexists. split; [reflexivity|].
  cbn [analysis_of keywords_detected].
  unfold analyzer_agent._find_keywords.
  split; [|split; [|split; [|split]]].
  - intros kw. rewrite list_elem_of_filter, <- contains_spec.
    rewrite Is_true_true. tauto.
  - intros kw Hkw. apply list_elem_of_filter in Hkw as [Hkw _].
    rewrite occurrences_filter. by rewrite decide_True.
  - apply list.NoDup_filter.
  - apply sublist_filter.
  - apply length_filter.
Qed.

Lemma C3_witness :
  NoDup (analyzer_agent.keywords analyzer_agent.default_agent)
  ∧ ∃ r,
      analyzer_agent.analyze_text analyzer_agent.default_agent K2_18b_sample
      = Ok r
      ∧ NoDup (keywords_detected r).
Proof.
  assert (H : NoDup (analyzer_agent.keywords analyzer_agent.default_agent)).
  { apply (bool_decide_unpack _). vm_compute. exact I. }
  split; [exact H|].
  destruct (C3_keywords_detected analyzer_agent.default_agent K2_18b_sample)
    as (r & Hr & _ & _ & Hnd & _).
  exists r. split; [exact Hr|exact (Hnd H)].
Defined.

(** Every keyword of an agent built by [__init__] is in lower case, so
    occurring in the lower-cased text is occurring in the text up to case. *)
Lemma init_keywords_lower kws mcl msc kw :
  kw ∈ analyzer_agent.keywords (analyzer_agent.__init__ kws mcl msc) →
  Py.lower kw = kw.
Proof.
  simpl. intros H. apply list_elem_of_fmap in H as (kw0 & -> & _).
  apply lower_idemp.
Qed.

(** C4 (code at the failing input).  For the text "-5" the number pattern
    finds the token "5", so [numbers_found] is [5.0]: the sign is dropped.
    The sign of a decimal is kept: "-5.0" gives [-5.0]. *)
Theorem C4_signed_integer_loses_sign :
  (∃ r, analyzer_agent.analyze_text analyzer_agent.default_agent (lit "-5")
        = Ok r
        ∧ Re.findall analyzer_agent._NUMBER_RE (lit "-5") = [lit "5"]
        ∧ numbers_found r = [Num.dec 5 1])
  ∧ (∃ r, analyzer_agent.analyze_text analyzer_agent.default_agent
            (lit "-5.0") = Ok r
          ∧ numbers_found r = [Num.dec (-5) 1]).
Proof.
  split; (eexists; split; [reflexivity|]); repeat split; floats.
Qed.

(** The part of C4 that holds: [numbers_found] is the float of every token
    of the number pattern, in the order of the scan, duplicates kept, and
    without the tokens [float] rejects. *)
Lemma numbers_found_tokens (self : analyzer_agent.AnalyzerAgent)
    (text : str) :
  ∃ r,
    analyzer_agent.analyze_text self text = Ok r
    ∧ numbers_found r
      = omap (fun tok => returned (Num.py_float tok))
          (Re.findall analyzer_agent._NUMBER_RE
             (parser_utils.clean_text text)).
Proof. rewrite analyze_text_ok. by eexists. Qed.

(** C5.  The analysis of the sample paragraph under the default
    configuration has 124.0, 2.6 and 33.0 among its numbers, in this order,
    and "exoplanet", "radius", "orbital" and "period" among its keywords. *)
Theorem C5_sample_paragraph :
  ∃ r,
    analyzer_agent.analyze_text analyzer_agent.default_agent K2_18b_sample
    = Ok r
    ∧ [Num.dec 124 1; Num.dec 26 10; Num.dec 33 1]
        `sublist_of` numbers_found r
    ∧ lit "exoplanet" ∈ keywords_detected r
    ∧ lit "radius" ∈ keywords_detected r
    ∧ lit "orbital" ∈ keywords_detected r
    ∧ lit "period" ∈ keywords_detected r.
Proof.
  rewrite analyze_text_ok. eexists. split; [reflexivity|].
  assert (Hn : numbers_found
                 (analysis_of analyzer_agent.default_agent
                    (parser_utils.clean_text K2_18b_sample))
               = [Num.dec 2 1; Num.dec 18 1; Num.dec 124 1; Num.dec 26 10;
                  Num.dec 33 1]).
  { floats. }
  assert (Hk : keywords_detected
                 (analysis_of analyzer_agent.default_agent
                    (parser_utils.clean_text K2_18b_sample))
               = map lit ["exoplanet"; "orbital"; "orbit"; "radius"; "period";
                          "days"; "light-years"]%string).
  { vm_compute. reflexivity. }
  rewrite Hn, Hk. split.
  - do 2 apply sublist_cons. reflexivity.
  - simpl. rewrite !elem_of_cons. tauto.
Qed.

(** C6 (as stated, refuted).  With the keyword weight 1/2048 and ten words,
    a record without keywords and the same record with one keyword both
    score 0.0: the sum 0.00048828125 is rounded to three decimals. *)
Lemma C6_counterexample :
  one_more_keyword ten_words ten_words_one_keyword
  ∧ evaluator_agent.weight fine_weight_evaluator "keyword" (Num.dec 20 10)
    = Num.dec 1 2048
  ∧ evaluator_agent.score_value
      (evaluator_agent.score fine_weight_evaluator (bare_item ten_words))
    = Num.dec 0 10
  ∧ evaluator_agent.score_value
      (evaluator_agent.score fine_weight_evaluator
         (bare_item ten_words_one_keyword))
    = Num.dec 0 10
  ∧ evaluator_agent.score_value
      (evaluator_agent.score fine_weight_evaluator
         (bare_item ten_words_one_keyword))
    ≠ (evaluator_agent.score_value
         (evaluator_agent.score fine_weight_evaluator (bare_item ten_words))
       + evaluator_agent.weight fine_weight_evaluator "keyword"
           (Num.dec 20 10))%Qc.
Proof.
  split; [repeat split|]. split; [floats|]. split; [floats|]. split; [floats|].
  intros H. apply (f_equal this) in H. vm_compute in H. discriminate H.
Qed.

(** In exact arithmetic the sum of the six factors grows by the keyword
    weight with every further keyword, whatever the configuration. *)
Lemma total_score_one_more_keyword (self : evaluator_agent.EvaluatorAgent)
    (it1 it2 : analysis_item) (a1 a2 : analysis) :
  ai_analysis it1 = Some a1 →
  ai_analysis it2 = Some a2 →
  one_more_keyword a1 a2 →
  ScoreLocals.total_score self it2
  = (ScoreLocals.total_score self it1
     + evaluator_agent.weight self "keyword" (Num.dec 20 10))%Qc.
Proof.
  intros H1 H2 (Hw & _ & Hn & Hm & Hc & _ & Hk).
  unfold ScoreLocals.total_score, ScoreLocals.keyword_pts,
    ScoreLocals.numeric_pts, ScoreLocals.measurement_pts,
    ScoreLocals.length_pts, ScoreLocals.claim_pts, ScoreLocals.penalty.
  rewrite H1, H2. cbn [evaluator_agent.field]. rewrite Hw, Hn, Hm, Hc.
  unfold Py.len. rewrite Hk, Nat2Z.inj_succ, float_of_int_succ.
  replace (Num.dec 10 10) with 1%Qc by (by apply float_eq).
  match goal with |- @eq _ ?x ?y => change (@eq Qc x y) end. ring.
Qed.

(** C6 (amended).  When the four weights are whole multiples of 0.125
    between -1000000 and 1000000, as the default weights are, and two
    analysis records with at most a million keywords and a million claims
    differ only in that the second has one more detected keyword, the score
    of the second is the score of the first plus the keyword weight.  Within
    these bounds every product and sum of [score] is a binary64 number, on
    both records, so that the float arithmetic of the code is the exact
    arithmetic of this statement. *)
Theorem C6_one_more_keyword (self : evaluator_agent.EvaluatorAgent)
    (it1 it2 : analysis_item) (a1 a2 : analysis) :
  ScoreLocals.moderate_weights self →
  ai_analysis it1 = Some a1 →
  ai_analysis it2 = Some a2 →
  one_more_keyword a1 a2 →
  Py.len (keywords_detected a2) <= 1000000 →
  Py.len (claims a2) <= 1000000 →
  evaluator_agent.score_value (evaluator_agent.score self it2)
  = (evaluator_agent.score_value (evaluator_agent.score self it1)
     + evaluator_agent.weight self "keyword" (Num.dec 20 10))%Qc
  ∧ ScoreLocals.exact_arithmetic self it1
  ∧ ScoreLocals.exact_arithmetic self it2.
Proof.
  intros Hw H1 H2 Ho Hk Hc.
  pose proof (moderate_grid self Hw) as Hg.
  split; [|split].
  - rewrite !score_unrounded by done.
    by apply total_score_one_more_keyword with a1 a2.
  - destruct Ho as (_ & _ & _ & _ & Hcl & _ & Hkw).
    apply exact_arithmetic_moderate; [done|..];
      rewrite H1; cbn [evaluator_agent.field].
    + unfold Py.len in *. lia.
    + by rewrite <- Hcl.
  - apply exact_arithmetic_moderate; [done|..];
      by rewrite H2; cbn [evaluator_agent.field].
Qed.

Lemma C6_witness :
  ScoreLocals.moderate_weights evaluator_agent.default_agent
  ∧ ai_analysis (bare_item ten_words) = Some ten_words
  ∧ ai_analysis (bare_item ten_words_one_keyword) = Some ten_words_one_keyword
  ∧ one_more_keyword ten_words ten_words_one_keyword
  ∧ Py.len (keywords_detected ten_words_one_keyword) <= 1000000
  ∧ Py.len (claims ten_words_one_keyword) <= 1000000
  ∧ evaluator_agent.score_value
      (evaluator_agent.score evaluator_agent.default_agent
         (bare_item ten_words_one_keyword))
    = (evaluator_agent.score_value
         (evaluator_agent.score evaluator_agent.default_agent
            (bare_item ten_words))
       + evaluator_agent.weight evaluator_agent.default_agent "keyword"
           (Num.dec 20 10))%Qc.
Proof.
  assert (Hw : ScoreLocals.moderate_weights evaluator_agent.default_agent)
    by apply default_moderate.
  assert (Ho : one_more_keyword ten_words ten_words_one_keyword)
    by (repeat split).
  assert (Hk : Py.len (keywords_detected ten_words_one_keyword) <= 1000000)
    by (by vm_compute).
  assert (Hc : Py.len (claims ten_words_one_keyword) <= 1000000)
    by (by vm_compute).
  split; [exact Hw|]. split; [reflexivity|]. split; [reflexivity|].
  split; [exact Ho|]. split; [exact Hk|]. split; [exact Hc|].
  exact (proj1 (C6_one_more_keyword evaluator_agent.default_agent
                  (bare_item ten_words) (bare_item ten_words_one_keyword)
                  ten_words ten_words_one_keyword Hw eq_refl eq_refl Ho Hk Hc)).
Defined.

(** C7.  For every evaluator and every analysis record the breakdown entry
    ["measurement_score"] is [min(len(measurements) * 0.5, 3.0)]; with ten
    measurements it is 3.0. *)
Theorem C7_measurement_score (self : evaluator_agent.EvaluatorAgent)
    (it : analysis_item) :
  let n := Py.len (evaluator_agent.field (ai_analysis it) measurements []) in
  evaluator_agent.breakdown (evaluator_agent.score self it)
    !! "measurement_score"%string
  = Some (Num.py_min (Num.float_of_int n * Num.dec 5 10)%Qc (Num.dec 30 10))
  ∧ (n = 10 →
     evaluator_agent.breakdown (evaluator_agent.score self it)
       !! "measurement_score"%string
     = Some (Num.dec 30 10)).
Proof.
  intros n.
  assert (H : evaluator_agent.breakdown (evaluator_agent.score self it)
                !! "measurement_score"%string
              = Some (Num.py_min (Num.float_of_int n * Num.dec 5 10)%Qc
                        (Num.dec 30 10))).
  { change (evaluator_agent.breakdown (evaluator_agent.score self it)
              !! "measurement_score"%string)
      with (Some (ScoreLocals.measurement_pts it)).
    f_equal. unfold ScoreLocals.measurement_pts. fold n.
    destruct (Z.ltb_spec 0 n) as [Hn|Hn]; [reflexivity|].
    assert (n = 0) as -> by (pose proof (len_nonneg
      (evaluator_agent.field (ai_analysis it) measurements [])); lia).
    floats. }
  split; [exact H|].
  intros Hn. rewrite H, Hn. reflexivity.
Qed.

Lemma C7_witness :
  Py.len (evaluator_agent.field (ai_analysis (bare_item ten_measurements))
            measurements []) = 10
  ∧ evaluator_agent.breakdown
      (evaluator_agent.score evaluator_agent.default_agent
         (bare_item ten_measurements))
      !! "measurement_score"%string
    = Some (Num.dec 30 10).
Proof.
  split; [reflexivity|].
  exact (proj2 (C7_measurement_score evaluator_agent.default_agent
                  (bare_item ten_measurements))
           eq_refl).
Defined.

(** C8.  Analysing the normalized text gives the same record as analysing
    the raw text, in every field. *)
Theorem C8_normalization_idempotent (self : analyzer_agent.AnalyzerAgent)
    (text : str) :
  analyzer_agent.analyze_text self (parser_utils.clean_text text)
  = analyzer_agent.analyze_text self text.
Proof. by rewrite !analyze_text_ok, clean_text_idempotent. Qed.

(** C9.  Neither operation raises.  [analyze_text] returns a well-formed
    record for every text, in which the numbers and the measurements are
    those of the tokens that [float] accepts, the others being left out one
    by one; [score] returns a well-formed result for every analysis item,
    also for one without analysis. *)
Theorem C9_never_raises :
  (∀ (self : analyzer_agent.AnalyzerAgent) (text : str),
     ∃ r,
       analyzer_agent.analyze_text self text = Ok r
       ∧ wf_analysis r
       ∧ numbers_found r
         = omap (fun tok => returned (Num.py_float tok))
             (Re.findall analyzer_agent._NUMBER_RE
                (parser_utils.clean_text text))
       ∧ measurements r
         = omap (fun m => returned (measurement_of_match m))
             (Re.finditer analyzer_agent._MEASUREMENT_RE
                (parser_utils.clean_text text)))
  ∧ (∀ (self : evaluator_agent.EvaluatorAgent) (it : analysis_item),
       ScoreLocals.wf_result self (evaluator_agent.score self it)).
Proof.
  split.
  - intros self text. rewrite analyze_text_ok. eexists.
    split; [reflexivity|]. split; [|by split].
    unfold wf_analysis. cbn [analysis_of word_count sentence_count claims].
    split; [apply len_nonneg|]. split; [apply len_nonneg|].
    unfold analyzer_agent._find_claims, Py.len.
    apply inj_le, length_filter.
  - apply score_wf.
Qed.

(** C10.  Under the default weights, whatever the threshold, the score of
    every analysis item is at least -2.0, and it is the sum of the six
    entries of the breakdown: rounding does not change it. *)
Theorem C10_score_lower_bound (th : Num.float) (it : analysis_item) :
  let res := evaluator_agent.score (evaluator_agent.__init__ th None) it in
  (Num.dec (-20) 10 ≤ evaluator_agent.score_value res)%Qc
  ∧ ScoreLocals.breakdown_total (evaluator_agent.breakdown res)
    = Some (evaluator_agent.score_value res).
Proof.
  intros res. unfold res.
  rewrite score_unrounded by apply default_grid.
  split; [apply total_score_lower_bound|apply breakdown_total_score].
Qed.

(* ================================================================== *)
(** * Facts about the further code *)
(* ================================================================== *)

(** ** Sentences and truncation *)

Section Sentences.
Import parser_utils.

Lemma join_cons sep p rest :
  rest ≠ [] → Py.join sep (p :: rest) = p ++ sep ++ Py.join sep rest.
Proof. destruct rest; [done|reflexivity]. Qed.

Lemma join_snoc sep (gs : list str) tail :
  Py.join sep (gs ++ [tail]) = flat_map (fun g => g ++ sep) gs ++ tail.
Proof.
  induction gs as [|g gs IH]; [reflexivity|].
  change ((g :: gs) ++ [tail]) with (g :: (gs ++ [tail])).
  rewrite join_cons by (destruct gs; discriminate).
  rewrite IH. simpl. by rewrite <- !app_assoc.
Qed.

Lemma join_split_sub r sep s : Py.join sep (Re.split r s) = Re.sub r sep s.
Proof.
  unfold Re.split, Re.sub. rewrite join_snoc. f_equal.
  induction (Re.scan r s).1 as [|[g m] l IH]; simpl; [done|]. by rewrite IH.
Qed.

Lemma lstrip_head_nonspace s :
  match list.head (Py.lstrip s) with Some c => Py.is_space c = false | None => True end.
Proof.
  induction s as [|c s IH]; simpl; [done|].
  destruct (Py.is_space c) eqn:E; [done|]. simpl. done.
Qed.

Lemma lstrip_fixed c s : Py.is_space c = false → Py.lstrip (c :: s) = c :: s.
Proof. intros H. simpl. by rewrite H. Qed.

Lemma stripped_strip p : stripped p = true → Py.strip p = p ∧ p ≠ [].
Proof.
  unfold stripped. destruct p as [|a p]; [done|]. cbn [list.head].
  destruct (list.last (a :: p)) as [b|] eqn:El; [|done].
  intros [Ha Hb]%andb_true_iff. apply negb_true_iff in Ha, Hb.
  split; [|done].
  unfold Py.strip. rewrite lstrip_fixed by done.
  unfold Py.rstrip.
  destruct (exists_last (l := a :: p)) as (q & b' & Hq); [done|].
  rewrite Hq in El |- *. rewrite last_snoc in El. injection El as ->.
  rewrite rev_app_distr.
  change (rev [b] ++ rev q) with (b :: rev q).
  rewrite lstrip_fixed by done.
  change (b :: rev q) with ([b] ++ rev q). rewrite rev_app_distr, rev_involutive.
  done.
Qed.

Lemma rstrip_last_nonspace s :
  match list.last (Py.rstrip s) with Some c => Py.is_space c = false | None => True end.
Proof.
  unfold Py.rstrip.
  pose proof (lstrip_head_nonspace (rev s)) as H.
  destruct (Py.lstrip (rev s)) as [|c l]; [done|].
  simpl rev. rewrite last_snoc. exact H.
Qed.

Lemma strip_stripped x : Py.strip x = [] ∨ stripped (Py.strip x) = true.
Proof.
  unfold Py.strip.
  pose proof (lstrip_head_nonspace x) as Hh.
  pose proof (rstrip_last_nonspace (Py.lstrip x)) as Hl.
  destruct (rstrip_prefix (Py.lstrip x)) as [t Ht].
  destruct (Py.rstrip (Py.lstrip x)) as [|a r] eqn:E; [by left|right].
  unfold stripped. rewrite Ht in Hh. simpl in Hh. cbn [list.head].
  destruct (list.last (a :: r)) as [b|] eqn:El.
  - by rewrite Hh, Hl.
  - by apply last_None in El.
Qed.

Section Split.
Context (e : ascii → bool).
Hypothesis e_nonspace : ∀ c, e c = true → Py.is_space c = false.

Let r : Re.regex := Re.Seq (Re.Behind e) (Re.Plus Py.is_space).

Lemma match_at_split prev s :
  Re.match_at r prev s =
  match prev, s with
  | Some p, c :: s' =>
      if e p && Py.is_space c
      then Some (Re.mk_match (c :: run_of Py.is_space s')
                   (after_run Py.is_space s') ∅)
      else None
  | _, _ => None
  end.
Proof.
  destruct prev as [p|]; [|reflexivity].
  destruct (e p) eqn:Ep.
  - change (Re.match_at r (Some p) s)
      with (if e p then Re.match_at (Re.Plus Py.is_space) (Some p) s else None).
    rewrite Ep, match_at_plus. destruct s as [|c s']; [done|]. simpl.
    by destruct (Py.is_space c).
  - change (Re.match_at r (Some p) s)
      with (if e p then Re.match_at (Re.Plus Py.is_space) (Some p) s else None).
    rewrite Ep. destruct s; [done|]. done.
Qed.

Lemma tidy_true_run s : tidy true s = true → run_of Py.is_space s = [].
Proof.
  destruct s as [|c s]; [done|]. simpl.
  destruct (Py.is_space c); [|done].
  rewrite andb_false_r. discriminate.
Qed.

Lemma scan_split_tidy s : ∀ prev gap,
  tidy (prev_space prev) s = true →
  render (lit " ") (Re.scan_from r prev s 0 gap) = gap ++ s.
Proof.
  induction s as [|c s IH]; intros prev gap Ht.
  - unfold render. simpl. by rewrite app_nil_r.
  - cbn [Re.scan_from]. rewrite match_at_split.
    assert (Hnext : tidy (prev_space (Some c)) s = true).
    { simpl in Ht |- *. destruct (Py.is_space c).
      - by apply andb_true_iff in Ht as [_ ?].
      - done. }
    destruct prev as [p|]; cycle 1.
    { specialize (IH (Some c) (gap ++ [c]) Hnext).
      rewrite IH. by rewrite <- app_assoc. }
    destruct (e p && Py.is_space c) eqn:Em; cycle 1.
    { specialize (IH (Some c) (gap ++ [c]) Hnext).
      rewrite IH. by rewrite <- app_assoc. }
    apply andb_true_iff in Em as [Ep Ec].
    simpl in Ht. rewrite Ec in Ht.
    apply andb_true_iff in Ht as [Ht Ht3]. apply andb_true_iff in Ht as [Ht1 Ht2].
    apply Ascii.eqb_eq in Ht1. subst c.
    rewrite (tidy_true_run s Ht3). cbn [Re.m_text length Nat.sub].
    specialize (IH (Some " "%char) [] Hnext).
    destruct (Re.scan_from r (Some " "%char) s 0 []) as [ms tail] eqn:Es.
    unfold render in IH |- *. cbn [fst snd] in IH |- *. simpl flat_map.
    rewrite <- !app_assoc. change (lit " ") with [" "%char] in IH.
    rewrite IH. done.
Qed.

Lemma ends_ok_cons prev prev' c s :
  ends_ok prev (c :: s) → s ≠ [] → ends_ok prev' s.
Proof.
  unfold ends_ok. destruct s as [|c' s']; [done|]. intros H _.
  rewrite last_cons_cons in H.
  destruct (list.last (c' :: s')) eqn:El; [done|by apply last_None in El].
Qed.

Lemma no_boundary_snoc gap c :
  no_boundary e gap = true →
  match list.last gap with
  | Some a => e a && Py.is_space c = false
  | None => True
  end →
  no_boundary e (gap ++ [c]) = true.
Proof.
  induction gap as [|a gap IH]; [done|].
  intros Hn Hl. simpl in Hn. apply andb_true_iff in Hn as [Hn1 Hn2].
  destruct gap as [|b gap].
  - simpl in *. by rewrite Hl.
  - rewrite last_cons_cons in Hl.
    change (no_boundary e ((a :: b :: gap) ++ [c]))
      with (negb (e a && Py.is_space b) && no_boundary e ((b :: gap) ++ [c])).
    rewrite Hn1. simpl andb. by apply IH.
Qed.

Lemma scan_split_pieces s : ∀ prev gap,
  tidy (prev_space prev) s = true →
  ends_ok prev s →
  (gap = [] → match list.head s with Some c => Py.is_space c = false | None => False end) →
  (gap ≠ [] → list.last gap = prev
              ∧ match list.head gap with Some c => Py.is_space c = false | None => False end) →
  no_boundary e gap = true →
  Forall (sentence_ok e)
    (map fst (Re.scan_from r prev s 0 gap).1 ++ [(Re.scan_from r prev s 0 gap).2])
  ∧ Forall (terminated e) (map fst (Re.scan_from r prev s 0 gap).1).
Proof.
  induction s as [|c s IH]; intros prev gap Ht Hend G1 G2 G3.
  - simpl. split; [|constructor]. apply Forall_singleton. split; [|done].
    destruct gap as [|a gap]; [by specialize (G1 eq_refl)|].
    destruct G2 as [Hl Hh]; [done|]. unfold stripped. cbn [list.head] in *.
    rewrite Hl. unfold ends_ok in Hend. simpl in Hend.
    destruct prev as [p|]; [|by apply last_None in Hl].
    simpl in Hend. by rewrite Hh, Hend.
  - cbn [Re.scan_from]. rewrite match_at_split.
    assert (Hnext : tidy (prev_space (Some c)) s = true).
    { simpl in Ht |- *. destruct (Py.is_space c).
      - by apply andb_true_iff in Ht as [_ ?].
      - done. }
    assert (Hnomatch :
      (∀ p, prev = Some p → e p && Py.is_space c = false) →
      (gap = [] → Py.is_space c = false) →
      Forall (sentence_ok e)
        (map fst (Re.scan_from r (Some c) s 0 (gap ++ [c])).1
         ++ [(Re.scan_from r (Some c) s 0 (gap ++ [c])).2])
      ∧ Forall (terminated e)
          (map fst (Re.scan_from r (Some c) s 0 (gap ++ [c])).1)).
    { intros Hno Hg. apply IH; [done| | | |].
      - destruct s as [|c' s'].
        + unfold ends_ok in *. simpl in *. done.
        + by apply (ends_ok_cons prev _ c).
      - intros Hn. by destruct gap.
      - intros _. split; [by rewrite last_snoc|].
        destruct gap as [|a gap].
        + simpl. by apply Hg.
        + destruct G2 as [_ G2]; [done|]. done.
      - apply no_boundary_snoc; [done|].
        destruct gap as [|a gap]; [done|].
        destruct G2 as [Hl _]; [done|]. rewrite Hl.
        destruct prev as [p|]; [|done]. by apply Hno. }
    assert (Hg : gap = [] → Py.is_space c = false).
    { intros Hn. specialize (G1 Hn). done. }
    destruct prev as [p|]; cycle 1.
    { apply Hnomatch; [|done]. by intros ? [=]. }
    destruct (e p && Py.is_space c) eqn:Em; cycle 1.
    { apply Hnomatch; [|done]. by intros ? [= <-]. }
    apply andb_true_iff in Em as [Ep Ec].
    simpl in Ht. rewrite Ec in Ht.
    apply andb_true_iff in Ht as [Ht Ht3]. apply andb_true_iff in Ht as [Ht1 Ht2].
    apply Ascii.eqb_eq in Ht1. subst c.
    rewrite (tidy_true_run s Ht3). cbn [Re.m_text length Nat.sub].
    assert (Hs : s ≠ []).
    { intros ->. unfold ends_ok in Hend. simpl in Hend. congruence. }
    specialize (IH (Some " "%char) [] Hnext).
    destruct (Re.scan_from r (Some " "%char) s 0 []) as [ms tail] eqn:Es.
    cbn [fst snd map app] in IH |- *.
    destruct IH as [IH1 IH2].
    + by apply (ends_ok_cons (Some p) _ " "%char).
    + intros _. destruct s as [|c' s']; [done|]. simpl in Ht3 |- *.
      destruct (Py.is_space c'); [|done]. by rewrite andb_false_r in Ht3.
    + done.
    + done.
    + destruct gap as [|a gap]; [specialize (Hg eq_refl); congruence|].
      destruct G2 as [Hl Hh]; [done|].
      split; constructor; try done.
      * split; [|done]. unfold stripped.
        cbn [list.head] in *. rewrite Hl, Hh. simpl. by rewrite (e_nonspace p Ep).
      * by exists p.
Qed.

Lemma split_tidy_stripped s :
  tidy false s = true → stripped s = true →
  Re.sub r (lit " ") s = s
  ∧ Forall (sentence_ok e) (Re.split r s)
  ∧ Forall (terminated e) (removelast (Re.split r s)).
Proof.
  intros Ht Hs. split; [apply (scan_split_tidy s None [] Ht)|].
  unfold Re.split, Re.scan. rewrite removelast_last.
  apply scan_split_pieces; [done| | |done|done].
  - unfold ends_ok, stripped in *. destruct (list.head s); [|done].
    destruct (list.last s); [|done]. apply andb_true_iff in Hs as [_ Hs].
    by apply negb_true_iff in Hs.
  - intros _. unfold stripped in Hs. destruct (list.head s); [|done].
    destruct (list.last s); [|done]. apply andb_true_iff in Hs as [Hs _].
    by apply negb_true_iff in Hs.
Qed.

End Split.

Lemma sentence_end_nonspace c : is_sentence_end c = true → Py.is_space c = false.
Proof.
  unfold is_sentence_end. intros H.
  apply orb_true_iff in H as [H|H]; [apply orb_true_iff in H as [H|H]|];
    apply Ascii.eqb_eq in H; subst c; reflexivity.
Qed.

Lemma sentence_ok_strip e p : sentence_ok e p → Py.strip p = p ∧ p ≠ [].
Proof. intros [H _]. by apply stripped_strip. Qed.

Lemma keep_sentences e (l : list str) :
  Forall (sentence_ok e) l →
  map Py.strip (filter (fun s => Is_true (Py.truthy (Py.strip s))) l) = l.
Proof.
  induction 1 as [|p l Hp Hl IH]; [done|].
  destruct (sentence_ok_strip e p Hp) as [Hs Hn].
  rewrite filter_cons_True.
  - simpl. by rewrite Hs, IH.
  - rewrite Hs. by destruct p.
Qed.

Lemma extract_sentences_cleaned t :
  extract_sentences t = analyzer_agent._extract_sentences (clean_text t).
Proof.
  unfold extract_sentences, analyzer_agent._extract_sentences.
  destruct t as [|c t]; [reflexivity|].
  cbn [Py.truthy negb].
  destruct (clean_text (c :: t)) as [|a s]; reflexivity.
Qed.

(** The sentences of a text, by its normalized form. *)
Lemma extract_sentences_split t :
  clean_text t ≠ [] →
  extract_sentences t = Re.split _SENTENCE_SPLIT_RE (clean_text t)
  ∧ Py.join (lit " ") (extract_sentences t) = clean_text t
  ∧ Forall (sentence_ok is_sentence_end) (extract_sentences t)
  ∧ Forall (terminated is_sentence_end) (removelast (extract_sentences t)).
Proof.
  intros Hne.
  assert (Hst : stripped (clean_text t) = true).
  { pose proof (clean_text_stripped t) as H.
    destruct (strip_stripped (clean_text t)) as [H'|H'];
      rewrite H in H'; done. }
  destruct (split_tidy_stripped is_sentence_end sentence_end_nonspace
              (clean_text t) (clean_text_tidy t) Hst) as (Hsub & Hok & Hterm).
  assert (He : extract_sentences t = Re.split _SENTENCE_SPLIT_RE (clean_text t)).
  { unfold extract_sentences. destruct t as [|c t]; [done|].
    cbn [Py.truthy negb]. by apply (keep_sentences is_sentence_end). }
  rewrite He. split; [done|]. split; [|done].
  rewrite join_split_sub. exact Hsub.
Qed.

Lemma extract_sentences_blank t : clean_text t = [] → extract_sentences t = [].
Proof.
  intros H. rewrite extract_sentences_cleaned, H. reflexivity.
Qed.

Lemma join_extract_sentences t :
  Py.join (lit " ") (extract_sentences t) = clean_text t.
Proof.
  destruct (decide (clean_text t = [])) as [H|H].
  - by rewrite (extract_sentences_blank t H), H.
  - by apply extract_sentences_split.
Qed.

Lemma extract_sentences_ok t :
  Forall (sentence_ok is_sentence_end) (extract_sentences t)
  ∧ Forall (terminated is_sentence_end) (removelast (extract_sentences t)).
Proof.
  destruct (decide (clean_text t = [])) as [H|H].
  - rewrite (extract_sentences_blank t H). split; constructor.
  - by apply extract_sentences_split.
Qed.

Lemma list_slice_to_take {A} (l : list A) n :
  ∃ k, Py.list_slice_to l n = take k l
       ∧ (Py.len l <= n → take k l = l).
Proof.
  unfold Py.list_slice_to. destruct (n <? 0) eqn:E.
  - eexists. split; [reflexivity|]. intros H. apply Z.ltb_lt in E.
    pose proof (len_nonneg l). lia.
  - eexists. split; [reflexivity|]. intros H. apply take_ge.
    unfold Py.len in H. lia.
Qed.

Lemma join_take_prefix sep (l : list str) k :
  ∃ rest, Py.join sep l = Py.join sep (take k l) ++ rest.
Proof.
  revert k. induction l as [|p l IH]; intros k.
  - exists []. by destruct k.
  - destruct k as [|k]; [by eexists|].
    destruct l as [|q l]; [exists []; destruct k; simpl; by rewrite app_nil_r|].
    destruct k as [|k].
    + exists (sep ++ Py.join sep (q :: l)). by rewrite join_cons.
    + destruct (IH (S k)) as [rest Hr].
      rewrite join_cons by done. rewrite Hr.
      change (take (S (S k)) (p :: q :: l)) with (p :: take (S k) (q :: l)).
      rewrite join_cons by done. exists rest. by rewrite <- !app_assoc.
Qed.

Lemma stripped_app p x q :
  stripped p = true → stripped q = true → stripped (p ++ x ++ q) = true.
Proof.
  unfold stripped. destruct p as [|a p]; [done|]. cbn [list.head app].
  destruct (list.last (a :: p)) as [b|]; [|done].
  intros [Ha _]%andb_true_iff.
  destruct q as [|c q]; [done|]. cbn [list.head].
  destruct (list.last (c :: q)) as [d|] eqn:El; [|done].
  intros [_ Hd]%andb_true_iff.
  replace (a :: p ++ x ++ c :: q) with ((a :: p ++ x) ++ c :: q)
    by (simpl; by rewrite <- app_assoc).
  rewrite last_app_cons, El. by rewrite Ha, Hd.
Qed.

Lemma join_stripped sep (l : list str) :
  l ≠ [] → Forall (fun p => stripped p = true) l →
  stripped (Py.join sep l) = true.
Proof.
  induction l as [|p l IH]; [done|]. intros _ H.
  inversion H as [|? ? Hp Hl]; subst.
  destruct l as [|q l]; [done|].
  rewrite join_cons by done. apply stripped_app; [done|]. by apply IH.
Qed.

Lemma first_n_sentences_take t n :
  ∃ k, first_n_sentences t n = Py.join (lit " ") (take k (extract_sentences t))
       ∧ (Py.len (extract_sentences t) <= n →
          take k (extract_sentences t) = extract_sentences t).
Proof.
  unfold first_n_sentences.
  destruct (list_slice_to_take (extract_sentences t) n) as (k & Hk & Hall).
  exists k. split; [|done]. rewrite Hk.
  destruct (extract_sentences t) as [|p l] eqn:E; [by destruct k|].
  cbn [Py.truthy negb].
  destruct (take k (p :: l)) as [|p' l'] eqn:Et; [done|].
  apply stripped_strip. apply join_stripped; [done|].
  rewrite <- Et.
  destruct (extract_sentences_ok t) as [Hok _]. rewrite E in Hok.
  apply Forall_take. eapply Forall_impl; [|exact Hok]. by intros ? [? _].
Qed.

End Sentences.

Section Truncate.
Import parser_utils.

Lemma rfind_from_spec c s : ∀ i best,
  Py.rfind_from c s i best = best
  ∨ (i <= Py.rfind_from c s i best < i + Py.len s
     ∧ s !! Z.to_nat (Py.rfind_from c s i best - i) = Some c).
Proof.
  induction s as [|x s IH]; intros i best; [by left|].
  cbn [Py.rfind_from]. unfold Py.len. cbn [length].
  destruct (IH (i + 1) (if Ascii.eqb x c then i else best)) as [H|[H1 H2]].
  - rewrite H. destruct (Ascii.eqb x c) eqn:E; [|by left].
    right. apply Ascii.eqb_eq in E. subst x. split; [lia|].
    by rewrite Z.sub_diag.
  - right. unfold Py.len in H1. split; [lia|].
    replace (Z.to_nat (Py.rfind_from c s (i + 1) (if Ascii.eqb x c then i else best) - i))
      with (S (Z.to_nat (Py.rfind_from c s (i + 1) (if Ascii.eqb x c then i else best) - (i + 1))))
      by lia.
    exact H2.
Qed.

Lemma rfind_spec c s :
  0 <= Py.rfind c s → s !! Z.to_nat (Py.rfind c s) = Some c.
Proof.
  unfold Py.rfind. intros H.
  destruct (rfind_from_spec c s 0 (-1)) as [E|[_ E]]; [lia|].
  by rewrite Z.sub_0_r in E.
Qed.

Lemma lstrip_blank_prefix s :
  ∃ t, s = t ++ Py.lstrip s ∧ forallb Py.is_space t = true.
Proof.
  induction s as [|c s (t & Ht & Hb)]; [by exists []|].
  simpl. destruct (Py.is_space c) eqn:E.
  - exists (c :: t). simpl. rewrite E, Hb. split; [by f_equal|done].
  - by exists [].
Qed.

Lemma rstrip_blank_suffix s :
  ∃ t, s = Py.rstrip s ++ t ∧ forallb Py.is_space t = true.
Proof.
  unfold Py.rstrip.
  destruct (lstrip_blank_prefix (rev s)) as (t & Ht & Hb).
  exists (rev t). split.
  - rewrite <- rev_app_distr, <- Ht. by rewrite rev_involutive.
  - rewrite forallb_forall in Hb |- *. intros x Hx. apply Hb.
    by apply in_rev.
Qed.

Lemma slice_to_nonneg s n : 0 <= n → Py.slice_to s n = take (Z.to_nat n) s.
Proof. intros H. unfold Py.slice_to. by rewrite (proj2 (Z.ltb_ge n 0)). Qed.

(** The part of the text that [truncate] keeps before the dots. *)
Lemma truncate_kept text max_chars :
  1 <= max_chars → max_chars < Py.len text →
  ∃ kept rest,
    truncate text max_chars = kept ++ lit "..."
    ∧ text = kept ++ rest
    ∧ Py.len kept <= max_chars - 1
    ∧ Py.rstrip kept = kept
    ∧ (0 < Py.rfind " " (Py.slice_to text (max_chars - 1)) →
       ∃ c rest', rest = c :: rest' ∧ Py.is_space c = true).
Proof.
  intros Hmax Hlen. unfold truncate.
  assert (Ht : Py.truthy text = true).
  { destruct text; [unfold Py.len in Hlen; simpl in Hlen; lia|done]. }
  rewrite Ht. cbn [negb].
  rewrite (proj2 (Z.leb_gt _ _)) by done.
  rewrite (slice_to_nonneg text (max_chars - 1)) by lia.
  set (cut := take (Z.to_nat (max_chars - 1)) text).
  assert (Hcut : text = cut ++ drop (Z.to_nat (max_chars - 1)) text)
    by (symmetry; apply take_drop).
  assert (Hcutlen : Py.len cut <= max_chars - 1).
  { unfold Py.len, cut. rewrite length_take. lia. }
  destruct (0 <? Py.rfind " " cut) eqn:Els.
  - apply Z.ltb_lt in Els.
    rewrite (slice_to_nonneg cut) by lia.
    set (ls := Z.to_nat (Py.rfind " " cut)).
    pose proof (rfind_spec " " cut ltac:(lia)) as Hsp. fold ls in Hsp.
    destruct (rstrip_blank_suffix (take ls cut)) as (ws & Hws & Hblank).
    assert (Hsplit : cut = take ls cut ++ " "%char :: drop (S ls) cut).
    { rewrite <- (take_drop_middle cut ls " "%char Hsp) at 1. done. }
    exists (Py.rstrip (take ls cut)),
           (ws ++ " "%char :: drop (S ls) cut ++ drop (Z.to_nat (max_chars - 1)) text).
    split; [done|]. split; [|split; [|split]].
    + rewrite Hcut at 1. rewrite Hsplit at 1. rewrite Hws at 1.
      by rewrite <- !app_assoc.
    + assert (Py.len (Py.rstrip (take ls cut)) <= Py.len (take ls cut)).
      { rewrite Hws at 2. unfold Py.len. rewrite length_app. lia. }
      assert (Py.len (take ls cut) <= Py.len cut).
      { unfold Py.len. rewrite length_take. lia. }
      lia.
    + apply rstrip_idemp.
    + intros _. destruct ws as [|w ws].
      * by exists " "%char, (drop (S ls) cut ++ drop (Z.to_nat (max_chars - 1)) text).
      * simpl in Hblank. apply andb_true_iff in Hblank as [Hw _].
        by eexists w, _.
  - apply Z.ltb_ge in Els.
    destruct (rstrip_blank_suffix cut) as (ws & Hws & Hblank).
    exists (Py.rstrip cut), (ws ++ drop (Z.to_nat (max_chars - 1)) text).
    split; [done|]. split; [|split; [|split]].
    + rewrite Hcut at 1. rewrite Hws at 1. by rewrite <- app_assoc.
    + assert (Py.len (Py.rstrip cut) <= Py.len cut).
      { rewrite Hws at 2. unfold Py.len. rewrite length_app. lia. }
      lia.
    + apply rstrip_idemp.
    + intros H. exfalso. lia.
Qed.

End Truncate.

(** ** Rounding, the pipeline and batches *)

Section Rounding.
Import Num.
Local Open Scope Qc_scope.








Lemma py_round_milli k : py_round (dec k 1000) 3 = dec k 1000.
Proof.
  unfold py_round. rewrite (round_half_even_int k).
  - apply float_eq. simpl. rewrite !Qred_correct.
    unfold Qeq, Qdiv, Qmult, Qinv. simpl. lia.
  - rewrite this_dec. unfold Qeq, Qmult. simpl. lia.
Qed.

End Rounding.

Section Pipeline.
Import Num parser_utils analyzer_agent evaluator_agent ScoreLocals.
Local Open Scope Qc_scope.

Lemma run_on_item_ok an it : run_on_item an it = Ok (analysis_item_of an it).
Proof. unfold run_on_item. by rewrite analyze_text_ok. Qed.

Lemma analyze_then_score_ok an ev it :
  analyze_then_score an ev it = Ok (score ev (analysis_item_of an it)).
Proof. unfold analyze_then_score. by rewrite run_on_item_ok. Qed.

Lemma py_min_le_r x y : py_min x y ≤ y.
Proof.
  unfold py_min, fltb. destruct (Qle_bool x y) eqn:E; simpl.
  - by apply Qle_bool_iff in E.
  - apply Qcle_refl.
Qed.

Lemma float_of_int_0 : float_of_int 0 = 0.
Proof. by apply Qc_is_canon. Qed.

Lemma total_score_upper_bound th it :
  total_score (__init__ th None) it
  ≤ float_of_int
      (2 * Py.len (field (ai_analysis it) keywords_detected []) + 13).
Proof.
  set (self := __init__ th None).
  assert (Hn : numeric_pts self it ≤ dec 30 10).
  { unfold numeric_pts. by destruct (_ <? _)%Z. }
  assert (Hm : measurement_pts it ≤ dec 30 10).
  { unfold measurement_pts. destruct (_ <? _)%Z; [|done]. apply py_min_le_r. }
  assert (Hl : length_pts self it ≤ dec 10 10).
  { unfold length_pts. by destruct (_ <=? _)%Z. }
  assert (Hc : claim_pts self it ≤ dec 60 10).
  { unfold claim_pts. apply py_min_le_r. }
  assert (Hp : penalty it ≤ dec 0 10).
  { unfold penalty. by destruct (_ <? _)%Z. }
  unfold total_score, keyword_pts.
  change (weight self "keyword" (dec 20 10)) with (dec 20 10).
  unfold Qcle in *. rewrite !this_plus, this_mult.
  rewrite !this_float_of_int, inject_Z_plus, inject_Z_mult.
  rewrite !this_dec in *.
  change (inject_Z 2) with 2%Q. change (inject_Z 13) with 13%Q. lra.
Qed.

Lemma detected_le_keywords an cleaned :
  (Py.len (_find_keywords an cleaned) <= Py.len (keywords an))%Z.
Proof.
  unfold _find_keywords, Py.len. apply inj_le, length_filter.
Qed.

Lemma float_of_int_mono a b : (a <= b)%Z → float_of_int a ≤ float_of_int b.
Proof.
  intros H. unfold Qcle. rewrite !this_float_of_int. by rewrite <- Zle_Qle.
Qed.

End Pipeline.

Section Blank.
Import Num parser_utils analyzer_agent evaluator_agent ScoreLocals.
Local Open Scope Qc_scope.

Lemma lstrip_blank s : forallb Py.is_space s = true → Py.lstrip s = [].
Proof.
  induction s as [|c s IH]; [done|]. simpl.
  intros [Hc Hs]%andb_true_iff. rewrite Hc. by apply IH.
Qed.

Lemma strip_blank s : forallb Py.is_space s = true → Py.strip s = [].
Proof. intros H. unfold Py.strip. by rewrite lstrip_blank. Qed.

Lemma collapse_blank b s :
  forallb Py.is_space s = true → forallb Py.is_space (collapse b s) = true.
Proof.
  revert b. induction s as [|c s IH]; intros b; [done|]. simpl.
  intros [Hc Hs]%andb_true_iff. rewrite Hc.
  destruct b; simpl; by rewrite ?IH.
Qed.

Lemma replace_char_blank old s :
  forallb Py.is_space s = true →
  forallb Py.is_space (Py.replace_char old (lit " ") s) = true.
Proof.
  induction s as [|c s IH]; [done|]. simpl.
  intros [Hc Hs]%andb_true_iff. unfold Py.replace_char in *. simpl.
  destruct (Ascii.eqb c old); simpl; rewrite ?Hc; by apply IH.
Qed.

Lemma clean_text_blank t : forallb Py.is_space t = true → clean_text t = [].
Proof.
  intros H. unfold clean_text. destruct (negb (Py.truthy t)); [done|].
  rewrite sub_ws. apply strip_blank, collapse_blank.
  by do 2 apply replace_char_blank.
Qed.

Lemma find_keywords_nil an : [] ∉ keywords an → _find_keywords an [] = [].
Proof.
  intros H. unfold _find_keywords. simpl.
  induction (keywords an) as [|kw l IH]; [done|].
  apply not_elem_of_cons in H as [Hkw Hl].
  rewrite filter_cons_False; [by apply IH|].
  intros Hc. apply Is_true_eq_true, contains_nil in Hc. congruence.
Qed.

(** The score of a text without content, for any weights. *)
Lemma score_blank an th ws it :
  [] ∉ keywords an →
  clean_text (default [] (item_raw it)) = [] →
  let res := score (evaluator_agent.__init__ th ws) (analysis_item_of an it) in
  score_value res = dec (-20) 10
  ∧ passed_threshold res = fleb th (dec (-20) 10)
  ∧ reasons res
    = [lit "Short content (0 words) (no length bonus)";
       lit "Very short content; penalized (-2.0)"].
Proof.
  intros Hkw Hc.
  set (self := evaluator_agent.__init__ th ws).
  assert (Hz : ∀ w, float_of_int 0 * w = 0).
  { intros w. rewrite float_of_int_0. ring. }
  assert (Hm : py_min 0 (dec 60 10) = 0) by (by apply Qc_is_canon).
  assert (Hf : fltb (dec 0 10) 0 = false) by reflexivity.
  assert (Ha : ai_analysis (analysis_item_of an it)
               = Some (mk_analysis 0 0 [] [] [] []
                         (snippet (analysis_of an [])))).
  { unfold analysis_item_of. rewrite Hc. cbn [ai_analysis]. f_equal.
    unfold analysis_of. f_equal. by apply find_keywords_nil. }
  unfold score. cbn zeta. rewrite Ha. cbn [field word_count numbers_found
    measurements keywords_detected claims].
  change (Py.len (@nil str)) with 0%Z.
  change (Py.len (@nil float)) with 0%Z.
  change (Py.len (@nil measurement)) with 0%Z.
  cbn [numeric_count_for_bonus min_word_count_for_length_bonus
       evaluator_agent.threshold self evaluator_agent.__init__].
  rewrite !Hz, Hm, Hf.
  cbn [Z.ltb Z.leb Z.compare Pos.compare Pos.compare_cont
       score_value passed_threshold reasons app].
  split; [|split; [|reflexivity]].
  - transitivity (py_round (dec (-2000) 1000) 3).
    + f_equal; by apply Qc_is_canon.
    + rewrite py_round_milli. by apply dec_eq.
  - f_equal; by apply Qc_is_canon.
Qed.

(** On a text without content every product and every sum of [score] is
    0.0 or -2.0, for any weights. *)
Lemma exact_blank an th ws it :
  [] ∉ keywords an →
  clean_text (default [] (item_raw it)) = [] →
  exact_arithmetic (evaluator_agent.__init__ th ws) (analysis_item_of an it).
Proof.
  intros Hkw Hc.
  pose proof (score_blank an th ws it Hkw Hc) as Hs. cbv zeta in Hs.
  destruct Hs as (Hs & _).
  set (self := evaluator_agent.__init__ th ws) in *.
  assert (Hz : ∀ w, float_of_int 0 * w = 0).
  { intros w. rewrite float_of_int_0. ring. }
  assert (Hm : py_min 0 (dec 60 10) = 0) by (by apply Qc_is_canon).
  assert (Ha : ai_analysis (analysis_item_of an it)
               = Some (mk_analysis 0 0 [] [] [] []
                         (snippet (analysis_of an [])))).
  { unfold analysis_item_of. rewrite Hc. cbn [ai_analysis]. f_equal.
    unfold analysis_of. f_equal. by apply find_keywords_nil. }
  unfold exact_arithmetic. cbv zeta. rewrite Hs.
  unfold keyword_pts, numeric_pts, measurement_pts, length_pts, claim_pts,
    penalty.
  rewrite Ha. cbn [field word_count numbers_found
    measurements keywords_detected claims].
  change (Py.len (@nil str)) with 0%Z.
  change (Py.len (@nil float)) with 0%Z.
  change (Py.len (@nil measurement)) with 0%Z.
  cbn [numeric_count_for_bonus min_word_count_for_length_bonus
       self evaluator_agent.__init__].
  rewrite !Hz, Hm.
  cbn [Z.ltb Z.leb Z.compare Pos.compare Pos.compare_cont].
  repeat (constructor;
          [apply (grid_within_binary64 2); [by vm_compute|];
           first [ exists 0%Z; split; [by apply Qc_is_canon|by vm_compute]
                 | exists (-16)%Z; split; [by apply Qc_is_canon|by vm_compute] ]
          |]).
  constructor.
Qed.

End Blank.

Section Batches.
Import Num evaluator_agent ScoreLocals.
Local Open Scope Qc_scope.

Lemma evaluate_batch_loop_map self items scored :
  evaluate_batch_loop self items scored = scored ++ map (score self) items.
Proof.
  revert scored. induction items as [|it items IH]; intros scored; simpl.
  - by rewrite app_nil_r.
  - by rewrite IH, <- app_assoc.
Qed.

Lemma evaluate_batch_map self items :
  evaluate_batch self items = map (score self) items.
Proof. apply evaluate_batch_loop_map. Qed.



Lemma len_cons {A} (x : A) (l : list A) :
  Py.len (x :: l) = Z.succ (Py.len l).
Proof. unfold Py.len. simpl length. lia. Qed.











End Batches.

(** ** The analyzer *)

Section Analyzer.
Import Num parser_utils analyzer_agent.

Lemma run_loop_ok self items results :
  run_loop self items results
  = Ok (results ++ map (analysis_item_of self) items).
Proof.
  revert results. induction items as [|it items IH]; intros results; simpl.
  - by rewrite app_nil_r.
  - rewrite run_on_item_ok. simpl. rewrite IH. by rewrite <- app_assoc.
Qed.

Lemma snippet_of self cleaned :
  0 <= max_snippet_chars self →
  (Py.len cleaned <= max_snippet_chars self →
   snippet (analysis_of self cleaned) = cleaned)
  ∧ (max_snippet_chars self < Py.len cleaned →
     snippet (analysis_of self cleaned)
     = take (Z.to_nat (max_snippet_chars self)) cleaned ++ lit "..."
     ∧ Py.len (snippet (analysis_of self cleaned))
       = max_snippet_chars self + 3).
Proof.
  intros Hmax. unfold analysis_of. cbn [snippet].
  rewrite slice_to_nonneg by done. split; intros H.
  - rewrite (proj2 (Z.ltb_ge _ _)) by done. rewrite app_nil_r.
    apply take_ge. unfold Py.len in H. lia.
  - rewrite (proj2 (Z.ltb_lt _ _)) by done. split; [done|].
    unfold Py.len in *. rewrite length_app, length_take. simpl. lia.
Qed.


End Analyzer.

Section LowerCase.
Import Num parser_utils analyzer_agent.

Ltac by_cases c := destruct c as [[] [] [] [] [] [] [] []]; vm_compute; reflexivity.

Lemma lower_char_space c : Py.is_space (Py.lower_char c) = Py.is_space c.
Proof. by_cases c. Qed.

Lemma lower_char_blank c : Py.is_space c = true → Py.lower_char c = c.
Proof. destruct c as [[] [] [] [] [] [] [] []]; vm_compute; (reflexivity || discriminate). Qed.

Lemma lower_char_eqb_TAB c : Ascii.eqb (Py.lower_char c) TAB = Ascii.eqb c TAB.
Proof. by_cases c. Qed.

Lemma lower_char_eqb_CR c : Ascii.eqb (Py.lower_char c) CR = Ascii.eqb c CR.
Proof. by_cases c. Qed.

Lemma lower_replace_char old s :
  (∀ c, Ascii.eqb (Py.lower_char c) old = Ascii.eqb c old) →
  Py.lower (Py.replace_char old (lit " ") s)
  = Py.replace_char old (lit " ") (Py.lower s).
Proof.
  intros Hold. unfold Py.lower, Py.replace_char.
  induction s as [|c s IH]; [done|].
  cbn [flat_map map]. rewrite map_app, IH, Hold.
  by destruct (Ascii.eqb c old).
Qed.

Lemma lower_collapse b s :
  Py.lower (collapse b s) = collapse b (Py.lower s).
Proof.
  revert b. unfold Py.lower. induction s as [|c s IH]; intros b; [done|].
  simpl. rewrite lower_char_space. destruct (Py.is_space c) eqn:E.
  - destruct b; simpl; by rewrite IH.
  - simpl. by rewrite IH.
Qed.

Lemma lower_lstrip s : Py.lower (Py.lstrip s) = Py.lstrip (Py.lower s).
Proof.
  unfold Py.lower. induction s as [|c s IH]; [done|]. simpl.
  rewrite lower_char_space. by destruct (Py.is_space c).
Qed.

Lemma lower_strip s : Py.lower (Py.strip s) = Py.strip (Py.lower s).
Proof.
  unfold Py.strip, Py.rstrip.
  unfold Py.lower at 1. rewrite map_rev. fold (Py.lower (Py.lstrip (rev (Py.lstrip s)))).
  rewrite lower_lstrip. unfold Py.lower at 1. rewrite map_rev.
  fold (Py.lower (Py.lstrip s)). by rewrite lower_lstrip.
Qed.

Lemma lower_clean_text t : Py.lower (clean_text t) = clean_text (Py.lower t).
Proof.
  unfold clean_text. destruct t as [|c t]; [done|].
  cbn [Py.truthy negb Py.lower map]. fold (Py.lower t).
  change (Py.lower_char c :: Py.lower t) with (Py.lower (c :: t)).
  rewrite !sub_ws, lower_strip, lower_collapse.
  rewrite !lower_replace_char; [done| |].
  - apply lower_char_eqb_CR.
  - apply lower_char_eqb_TAB.
Qed.

Lemma find_keywords_lower self t :
  _find_keywords self (clean_text (Py.lower t))
  = _find_keywords self (clean_text t).
Proof.
  unfold _find_keywords. by rewrite <- lower_clean_text, lower_idemp.
Qed.

End LowerCase.

Section Measurements.
Import Num parser_utils analyzer_agent.

Lemma scan_from_occurs r prev s skip gap g m :
  (g, m) ∈ (Re.scan_from r prev s skip gap).1 →
  ∃ pre, s = pre ++ Re.m_text m ++ Re.m_rest m.
Proof.
  revert prev skip gap. induction s as [|c s IH]; intros prev skip gap; simpl.
  - intros H. by apply elem_of_nil in H.
  - assert (Hrec : ∀ prev' skip' gap',
      (g, m) ∈ (Re.scan_from r prev' s skip' gap').1 →
      ∃ pre, c :: s = pre ++ Re.m_text m ++ Re.m_rest m).
    { intros ??? H. apply IH in H as [pre ->]. by exists (c :: pre). }
    destruct skip as [|n]; [|apply Hrec].
    destruct (Re.match_at r prev (c :: s)) as [m'|] eqn:E; [|apply Hrec].
    destruct (Re.scan_from r (Some c) s _ _) as [ms tail] eqn:Es. simpl.
    intros H. apply elem_of_cons in H as [[= -> ->]|H].
    + exists []. by apply match_at_prefix in E as [E _].
    + eapply Hrec. by rewrite Es.
Qed.

Lemma finditer_occurs r s m : m ∈ Re.finditer r s → occurs_in (Re.m_text m) s.
Proof.
  unfold Re.finditer, Re.scan. intros H.
  apply list_elem_of_fmap in H as ([g m'] & -> & H).
  apply scan_from_occurs in H as [pre H]. by exists pre, (Re.m_rest m').
Qed.

(** The groups of a match of [(?P<raw>(?P<value>V)S(?P<unit>U))]. *)
Lemma measurement_captures V S U prev s m :
  "value"%string ∉ group_names S → "value"%string ∉ group_names U →
  Re.match_at
    (Re.Group "raw" (Re.Seq (Re.Group "value" V) (Re.Seq S (Re.Group "unit" U))))
    prev s = Some m →
  ∃ tv ts tu,
    Re.m_text m = tv ++ ts ++ tu
    ∧ Re.group m "raw" = Re.m_text m
    ∧ Re.group m "value" = tv
    ∧ Re.group m "unit" = tu
    ∧ lang V tv ∧ lang S ts ∧ lang U tu.
Proof.
  intros HS HU. unfold Re.match_at. cbn [Re.run]. intros H.
  apply run_lang in H as (p1 & tv & s1 & c1 & -> & LV & _ & H).
  apply run_lang in H as (p2 & ts & s2 & c2 & -> & LS & C2 & H).
  apply run_lang in H as (p3 & tu & s3 & c3 & -> & LU & C3 & [= <-]).
  exists tv, ts, tu. unfold Re.group. cbn [Re.m_text Re.m_groups].
  assert (E1 : take (length (tv ++ ts ++ tu ++ s3) - length s3) (tv ++ ts ++ tu ++ s3)
               = tv ++ ts ++ tu).
  { rewrite !app_assoc. rewrite length_app.
    replace (length ((tv ++ ts) ++ tu) + length s3 - length s3)%nat
      with (length ((tv ++ ts) ++ tu)) by lia.
    by rewrite take_app_length. }
  rewrite E1. split; [done|]. split; [by rewrite lookup_insert_eq|].
  split; [|split; [|done]].
  - rewrite lookup_insert_ne by done. rewrite lookup_insert_ne by done.
    rewrite C3 by done. rewrite C2 by done. rewrite lookup_insert_eq.
    cbn [default]. rewrite length_app.
    replace (length tv + length (ts ++ tu ++ s3) - length (ts ++ tu ++ s3))%nat
      with (length tv) by lia.
    by rewrite take_app_length.
  - rewrite lookup_insert_ne by done. rewrite lookup_insert_eq. cbn [default].
    rewrite length_app.
    replace (length tu + length s3 - length s3)%nat with (length tu) by lia.
    by rewrite take_app_length.
Qed.

Lemma unit_char_nonspace c : is_unit_char c = true → Py.is_space c = false.
Proof.
  destruct c as [[] [] [] [] [] [] [] []]; vm_compute; (reflexivity || discriminate).
Qed.

Lemma strip_unit u :
  u ≠ [] → forallb is_unit_char u = true → Py.strip u = u.
Proof.
  intros Hne Hu. apply stripped_strip. unfold stripped.
  destruct u as [|a u]; [done|]. cbn [list.head].
  destruct (list.last (a :: u)) as [b|] eqn:El; [|by apply last_None in El].
  rewrite forallb_forall in Hu.
  rewrite (unit_char_nonspace a), (unit_char_nonspace b); [done| |].
  - apply Hu, list_elem_of_In. by eapply last_Some_elem_of.
  - apply Hu. by left.
Qed.

(** An 8-bit string holds no U+03BC: there [replace] changes nothing. *)
Lemma replace_mu_8bit (u : str) : replace_mu u = u.
Proof.
  unfold replace_mu. induction u as [|c u IH]; [done|].
  cbn [flat_map]. rewrite IH.
  assert (H : (Py.code c =? MU)%N = false).
  { apply N.eqb_neq. pose proof (N_ascii_bounded c). unfold Py.code, MU. lia. }
  by rewrite H.
Qed.

(** What one entry of ["measurements"] records: [u] is the unit as the text
    has it. *)
Lemma measurement_entry cleaned m e :
  m ∈ Re.finditer _MEASUREMENT_RE cleaned →
  measurement_of_match m = Ok e →
  ∃ tok sep u,
    raw e = tok ++ sep ++ u
    ∧ unit e = replace_mu u
    ∧ occurs_in (raw e) cleaned
    ∧ py_float tok = Ok (value e)
    ∧ forallb is_sep sep = true
    ∧ u ≠ []
    ∧ forallb is_unit_char u = true.
Proof.
  intros Hin He.
  pose proof (finditer_occurs _ _ _ Hin) as Hocc.
  unfold Re.finditer, Re.scan in Hin.
  apply list_elem_of_fmap in Hin as ([g m'] & -> & Hin).
  apply scan_from_matches in Hin as (prev' & s' & Hm). cbn [snd] in *.
  apply measurement_captures in Hm
      as (tv & ts & tu & Ht & Hraw & Hv & Hu & LV & LS & [Hne LU]);
    [|simpl; apply not_elem_of_nil..].
  unfold measurement_of_match in He. rewrite Hraw, Hv, Hu in He.
  destruct (py_float tv) as [v|] eqn:Ev; [|done].
  simpl in He. injection He as <-. cbn [raw value unit].
  rewrite (strip_unit tu Hne LU).
  exists tv, ts, tu. rewrite <- Ht. done.
Qed.

(** The replacement keeps a unit a non-empty string of unit characters of
    the same length: the letter [u] is one of them. *)
Lemma replace_mu_unit (u : str) :
  u ≠ [] → forallb is_unit_char u = true →
  replace_mu u ≠ []
  ∧ forallb is_unit_char (replace_mu u) = true
  ∧ length (replace_mu u) = length u.
Proof.
  intros Hne Hu. unfold replace_mu. split; [|split].
  - destruct u as [|c u]; [done|]. cbn [flat_map].
    by destruct (Py.code c =? MU)%N.
  - induction u as [|c u IH]; [done|].
    cbn [flat_map forallb] in *. apply andb_true_iff in Hu as [Hc Hu].
    rewrite forallb_app. apply andb_true_iff. split.
    + destruct (Py.code c =? MU)%N; [done|]. simpl. by rewrite Hc.
    + destruct u as [|c' u']; [done|]. by apply IH.
  - clear. induction u as [|c u IH]; [done|].
    cbn [flat_map]. rewrite length_app, IH.
    by destruct (Py.code c =? MU)%N.
Qed.

End Measurements.

(** ** The two bindings of [clean_text] *)

Section Fallback.
Import parser_utils analyzer_agent.

Lemma lstrip_app x y :
  Py.lstrip (x ++ y) = if Py.truthy (Py.lstrip x) then Py.lstrip x ++ y else Py.lstrip y.
Proof.
  induction x as [|c x IH]; simpl; [done|].
  destruct (Py.is_space c); [done|]. done.
Qed.

Lemma rstrip_app x y :
  Py.rstrip (x ++ y)
  = if Py.truthy (Py.rstrip y) then x ++ Py.rstrip y else Py.rstrip x.
Proof.
  unfold Py.rstrip. rewrite rev_app_distr, lstrip_app.
  destruct (Py.lstrip (rev y)) as [|c t] eqn:E; [done|].
  cbn [Py.truthy]. rewrite rev_app_distr, rev_involutive.
  assert (H : Py.truthy (rev (c :: t)) = true).
  { simpl. by destruct (rev t). }
  by rewrite H.
Qed.

Lemma rstrip_snoc_nonspace x c :
  Py.is_space c = false → Py.rstrip (x ++ [c]) = x ++ [c].
Proof.
  intros H. unfold Py.rstrip. rewrite rev_app_distr. simpl. rewrite H.
  simpl. by rewrite rev_involutive.
Qed.

Lemma collapse_replace_char b old s :
  Py.is_space old = true →
  collapse b (Py.replace_char old (lit " ") s) = collapse b s.
Proof.
  intros Ho. revert b. unfold Py.replace_char.
  induction s as [|c s IH]; intros b; [done|]. cbn [flat_map].
  destruct (Ascii.eqb c old) eqn:E.
  - apply Ascii.eqb_eq in E. subst c. simpl. rewrite Ho.
    destruct b; by rewrite IH.
  - simpl. destruct (Py.is_space c); [destruct b|]; by rewrite IH.
Qed.

Lemma lstrip_collapse_true s : Py.lstrip (collapse true s) = collapse true s.
Proof.
  induction s as [|c s IH]; [done|]. simpl.
  destruct (Py.is_space c) eqn:E; [done|]. simpl. by rewrite E.
Qed.

Lemma strip_collapse b s : Py.strip (collapse b s) = Py.rstrip (collapse true s).
Proof.
  unfold Py.strip. f_equal. revert b.
  induction s as [|c s IH]; intros b; [done|]. simpl.
  destruct (Py.is_space c) eqn:E.
  - destruct b; [apply lstrip_collapse_true|]. simpl. apply lstrip_collapse_true.
  - simpl. by rewrite E.
Qed.

Lemma split_from_nonempty s cur : Forall (fun w => w ≠ []) (Py.split_from s cur).
Proof.
  revert cur. induction s as [|c s IH]; intros cur; simpl.
  - destruct cur; by repeat constructor.
  - destruct (Py.is_space c); [|apply IH].
    destruct cur; [apply IH|]. constructor; [done|apply IH].
Qed.

Lemma join_nil_inv sep ws :
  Forall (fun w => w ≠ []) ws → Py.join sep ws = [] → ws = [].
Proof.
  destruct ws as [|w ws]; [done|]. intros H. inversion H as [|? ? Hw _]; subst.
  simpl. destruct ws; [done|]. intros E. by destruct w.
Qed.

(** [cur] is the word being read; it ends in a non-blank. *)
Lemma join_split_from s :
  (∀ cur c, Py.is_space c = false →
     Py.rstrip ((cur ++ [c]) ++ collapse false s)
     = Py.join (lit " ") (Py.split_from s (cur ++ [c])))
  ∧ Py.rstrip (collapse true s) = Py.join (lit " ") (Py.split_from s []).
Proof.
  induction s as [|d s [IH1 IH2]].
  - split; [|done]. intros cur c Hc. simpl. rewrite app_nil_r.
    rewrite rstrip_snoc_nonspace by done. by destruct (cur ++ [c]) eqn:E.
  - assert (H2 : Py.rstrip (collapse true (d :: s))
                 = Py.join (lit " ") (Py.split_from (d :: s) [])).
    { simpl. destruct (Py.is_space d) eqn:E; [exact IH2|].
      apply (IH1 [] d E). }
    split; [|exact H2]. intros cur c Hc. simpl.
    destruct (Py.is_space d) eqn:E.
    + destruct (cur ++ [c]) as [|a w] eqn:Ew; [by destruct cur|].
      rewrite <- Ew.
      change (" "%char :: collapse true s) with ([" "%char] ++ collapse true s).
      rewrite app_assoc, rstrip_app, IH2.
      pose proof (split_from_nonempty s []) as Hne.
      destruct (Py.split_from s []) as [|w1 ws] eqn:Es.
      * simpl. rewrite rstrip_app. simpl.
        rewrite rstrip_snoc_nonspace by done. by rewrite Ew.
      * destruct (Py.join (lit " ") (w1 :: ws)) as [|x y] eqn:Ej.
        { apply join_nil_inv in Ej; done. }
        cbn [Py.truthy]. rewrite Ew. cbn [Py.join]. rewrite <- Ew.
        rewrite <- Ej. cbn [Py.join]. by rewrite <- app_assoc.
    + change (d :: collapse false s) with ([d] ++ collapse false s).
      rewrite (app_assoc (cur ++ [c])). apply (IH1 (cur ++ [c]) d E).
Qed.

Lemma fallback_clean_text_eq s : fallback_clean_text s = clean_text s.
Proof.
  unfold fallback_clean_text, clean_text.
  destruct (negb (Py.truthy s)); [done|].
  rewrite sub_ws, !collapse_replace_char by done.
  rewrite strip_collapse. symmetry. apply (proj2 (join_split_from s)).
Qed.
End Fallback.

(** ** Summaries *)

Section Summaries.
Import parser_utils analyzer_agent summarizer_agent.

Lemma summarize_local_nonempty self text a : _summarize_local self text a ≠ [].
Proof.
  unfold _summarize_local. intros H. apply (f_equal length) in H.
  rewrite !length_app in H. simpl in H. lia.
Qed.

Lemma summarize_cases self env it a :
  summarize self env it a
  = if use_gemini self
         && Py.truthy (_summarize_with_gemini self env (default [] (item_raw it)))
    then _summarize_with_gemini self env (default [] (item_raw it))
    else _summarize_local self (default [] (item_raw it)) a.
Proof.
  unfold summarize. destruct (use_gemini self); [|done]. simpl.
  by destruct (Py.truthy _).
Qed.

Lemma occurs_in_app_l (x a b : str) : occurs_in x a → occurs_in x (a ++ b).
Proof.
  intros (p & q & ->). exists p, (q ++ b). by rewrite <- !app_assoc.
Qed.

Lemma occurs_in_app_r (x a b : str) : occurs_in x b → occurs_in x (a ++ b).
Proof.
  intros (p & q & ->). exists (a ++ p), q. by rewrite <- !app_assoc.
Qed.

Lemma occurs_in_join sep (l : list str) p :
  p ∈ l → occurs_in p (Py.join sep l).
Proof.
  induction l as [|q l IH]; [by intros ?%elem_of_nil|].
  intros H. destruct l as [|q' l].
  - apply elem_of_cons in H as [->|H]; [|by apply elem_of_nil in H].
    exists [], []. simpl. by rewrite app_nil_r.
  - rewrite join_cons by done. apply elem_of_cons in H as [->|H].
    + exists [], (sep ++ Py.join sep (q' :: l)). done.
    + apply occurs_in_app_r, occurs_in_app_r. by apply IH.
Qed.

Lemma claims_stripped an cleaned :
  Forall (fun p => stripped p = true) (claims (analysis_of an (clean_text cleaned))).
Proof.
  unfold analysis_of. cbn [claims]. unfold _find_claims.
  rewrite <- extract_sentences_cleaned.
  destruct (extract_sentences_ok cleaned) as [Hok _].
  apply Forall_forall. intros p Hp.
  apply list_elem_of_In, list_elem_of_filter in Hp as [_ Hp].
  rewrite Forall_forall in Hok. by apply Hok, list_elem_of_In.
Qed.

End Summaries.

(** ** The memory file *)

Section Memory.
Import memory_agent.

Lemma replace_first_updated key new memory :
  (replace_first key new memory).2 = bool_decide (key ∈ map rec_key memory).
Proof.
  induction memory as [|old rest IH]; [done|]. simpl.
  destruct (decide (rec_key old = key)) as [E|E].
  - simpl. symmetry. apply bool_decide_eq_true. rewrite E. by left.
  - destruct (replace_first key new rest) as [rest' u]. simpl in *. rewrite IH.
    apply bool_decide_ext. rewrite elem_of_cons. split; [by right|].
    intros [?|?]; [congruence|done].
Qed.

Lemma replace_first_absent key new memory :
  key ∉ map rec_key memory → (replace_first key new memory).1 = memory.
Proof.
  induction memory as [|old rest IH]; [done|]. simpl. intros H.
  apply not_elem_of_cons in H as [H1 H2].
  destruct (decide (rec_key old = key)) as [E|E]; [congruence|].
  specialize (IH H2). destruct (replace_first key new rest). simpl in *.
  by rewrite IH.
Qed.

Lemma store_load now key data st :
  writable st = true →
  _load (store now key data st)
  = upsert (mk_record key now data) (_load st).
Proof.
  intros Hw. unfold store, upsert. cbn [rec_key].
  pose proof (replace_first_updated key (mk_record key now data) (_load st)) as Hu.
  pose proof (replace_first_absent key (mk_record key now data) (_load st)) as Ha.
  destruct (replace_first key (mk_record key now data) (_load st)) as [m u].
  cbn [fst snd] in *. unfold _save. rewrite Hw. unfold _load at 1.
  cbn [content default]. subst u.
  destruct (decide (key ∈ map rec_key (_load st))) as [H|H].
  - by rewrite bool_decide_eq_true_2.
  - rewrite bool_decide_eq_false_2 by done. by rewrite Ha.
Qed.


Lemma store_writable now key data st :
  writable (store now key data st) = writable st.
Proof.
  unfold store. destruct (replace_first _ _ _) as [m u]. unfold _save.
  by destruct (writable st) eqn:E.
Qed.

Lemma first_with_key_replace key new memory :
  rec_key new = key → key ∈ map rec_key memory →
  first_with_key key (replace_first key new memory).1 = Some new.
Proof.
  intros Hk. induction memory as [|old rest IH]; [by intros ?%elem_of_nil|].
  simpl. intros H. destruct (decide (rec_key old = key)) as [E|E].
  - simpl. by rewrite decide_True.
  - apply elem_of_cons in H as [H|H]; [congruence|]. specialize (IH H).
    destruct (replace_first key new rest). simpl in *.
    by rewrite decide_False.
Qed.

Lemma first_with_key_app key m1 m2 :
  first_with_key key (m1 ++ m2)
  = match first_with_key key m1 with
    | Some r => Some r
    | None => first_with_key key m2
    end.
Proof.
  induction m1 as [|r m1 IH]; [done|]. simpl.
  by destruct (decide (rec_key r = key)).
Qed.

Lemma first_with_key_None key memory :
  key ∉ map rec_key memory → first_with_key key memory = None.
Proof.
  induction memory as [|r rest IH]; [done|]. simpl. intros H.
  apply not_elem_of_cons in H as [H1 H2]. rewrite decide_False by done. auto.
Qed.

Lemma first_with_key_upsert new memory :
  first_with_key (rec_key new) (upsert new memory) = Some new.
Proof.
  unfold upsert. destruct (decide _) as [H|H].
  - by apply first_with_key_replace.
  - rewrite first_with_key_app, first_with_key_None by done. simpl.
    by rewrite decide_True.
Qed.

Lemma first_with_key_replace_other key key' new memory :
  key' ≠ key → rec_key new = key →
  first_with_key key' (replace_first key new memory).1
  = first_with_key key' memory.
Proof.
  intros Hne Hk. induction memory as [|old rest IH]; [done|]. simpl.
  destruct (decide (rec_key old = key)) as [E|E].
  - simpl. rewrite !decide_False by congruence. done.
  - destruct (replace_first key new rest). simpl in *.
    destruct (decide (rec_key old = key')); [done|]. exact IH.
Qed.

Lemma first_with_key_upsert_other key' new memory :
  key' ≠ rec_key new →
  first_with_key key' (upsert new memory) = first_with_key key' memory.
Proof.
  intros Hne. unfold upsert. destruct (decide _) as [H|H].
  - by apply first_with_key_replace_other.
  - rewrite first_with_key_app. destruct (first_with_key key' memory); [done|].
    simpl. by rewrite decide_False.
Qed.

Lemma replace_first_keys key new memory :
  rec_key new = key →
  map rec_key (replace_first key new memory).1 = map rec_key memory.
Proof.
  intros Hk. induction memory as [|old rest IH]; [done|]. simpl.
  destruct (decide (rec_key old = key)) as [E|E].
  - simpl. congruence.
  - destruct (replace_first key new rest). simpl in *. by rewrite IH.
Qed.

Lemma upsert_keys new memory :
  map rec_key (upsert new memory)
  = if decide (rec_key new ∈ map rec_key memory) then map rec_key memory
    else map rec_key memory ++ [rec_key new].
Proof.
  unfold upsert. destruct (decide _) as [H|H].
  - by apply replace_first_keys.
  - by rewrite map_app.
Qed.

Lemma upsert_NoDup new memory :
  NoDup (map rec_key memory) → NoDup (map rec_key (upsert new memory)).
Proof.
  rewrite upsert_keys. destruct (decide _) as [H|H]; [done|].
  intros Hnd. apply list.NoDup_app. split; [done|]. split.
  - intros x Hx ->%list_elem_of_singleton. done.
  - apply list.NoDup_singleton.
Qed.

Lemma replace_first_twice key new1 new2 memory :
  rec_key new1 = key → 
  (replace_first key new2 (replace_first key new1 memory).1).1
  = (replace_first key new2 memory).1.
Proof.
  intros Hk. induction memory as [|old rest IH]; [done|]. simpl.
  destruct (decide (rec_key old = key)) as [E|E].
  - simpl. by rewrite decide_True.
  - destruct (replace_first key new1 rest) as [r1 u1] eqn:E1.
    simpl in *. rewrite decide_False by done.
    destruct (replace_first key new2 r1) as [r2 u2] eqn:E2.
    destruct (replace_first key new2 rest) as [r3 u3] eqn:E3.
    simpl in *. by rewrite IH.
Qed.

Lemma upsert_twice new1 new2 memory :
  rec_key new1 = rec_key new2 →
  upsert new2 (upsert new1 memory) = upsert new2 memory.
Proof.
  intros Hk. unfold upsert at 1.
  rewrite decide_True; cycle 1.
  { rewrite upsert_keys. rewrite Hk.
    destruct (decide _) as [H|H]; [done|]. apply elem_of_app. right. by left. }
  unfold upsert. rewrite Hk. destruct (decide _) as [H|H].
  - by apply replace_first_twice.
  - rewrite <- Hk in H |- *.
    assert (Hr : ∀ m, rec_key new1 ∉ map rec_key m →
              (replace_first (rec_key new1) new2 (m ++ [new1])).1 = m ++ [new2]).
    { induction m as [|old rest IH]; simpl.
      - intros _. by rewrite decide_True.
      - intros Hn. apply not_elem_of_cons in Hn as [H1 H2].
        rewrite decide_False by done. specialize (IH H2).
        destruct (replace_first _ _ _). simpl in *. by rewrite IH. }
    by apply Hr.
Qed.

End Memory.

Section Compaction.
Import memory_agent.

Lemma without_raw_idemp r : without_raw (without_raw r) = without_raw r.
Proof.
  unfold without_raw. cbn [rec_key rec_timestamp rec_data]. f_equal.
  apply delete_id. apply lookup_delete_eq.
Qed.

Lemma without_raw_id r : rec_data r !! "raw" = None → without_raw r = r.
Proof.
  intros H. destruct r as [k t d]. unfold without_raw. cbn in *. f_equal.
  by apply delete_id.
Qed.

Lemma compact_unchanged memory :
  existsb (fun r => bool_decide (is_Some (rec_data r !! "raw"))) memory = false →
  map without_raw memory = memory.
Proof.
  induction memory as [|r rest IH]; [done|]. simpl.
  intros [H1 H2]%orb_false_iff. rewrite IH by done. f_equal.
  apply without_raw_id. apply bool_decide_eq_false in H1.
  by apply eq_None_not_Some.
Qed.

Lemma compact_load st :
  writable st = true → _load (compact st) = map without_raw (_load st).
Proof.
  intros Hw. unfold compact.
  destruct (existsb _ (_load st)) eqn:E.
  - unfold _save. rewrite Hw. done.
  - by rewrite compact_unchanged.
Qed.

Lemma compact_raw_free memory :
  existsb (fun r => bool_decide (is_Some (rec_data r !! "raw")))
    (map without_raw memory) = false.
Proof.
  induction memory as [|r rest IH]; [done|]. simpl. rewrite IH, orb_false_r.
  apply bool_decide_eq_false. unfold without_raw. cbn [rec_data].
  rewrite lookup_delete_eq. by intros [? ?].
Qed.

Lemma load_some l w : _load {| content := Some l; writable := w |} = l.
Proof. reflexivity. Qed.

Lemma compact_cases st :
  compact st = st
  ∨ (writable st = true
     ∧ compact st
       = {| content := Some (map without_raw (_load st)); writable := true |}).
Proof.
  unfold compact. destruct (existsb _ (_load st)); [|by left].
  unfold _save. destruct (writable st); [by right|by left].
Qed.

Lemma compact_idempotent st : compact (compact st) = compact st.
Proof.
  destruct (compact_cases st) as [E|[_ E]]; rewrite E; [done|].
  unfold compact. rewrite !load_some. by rewrite compact_raw_free.
Qed.




Lemma is_similar_spec text r :
  is_similar text r = true ↔
  ∃ s, summary_of r = JStr s ∧ occurs_in text (Py.lower s).
Proof.
  unfold is_similar. destruct (summary_of r) as [| | | |s| |]; try (split; [done|by intros (? & ? & _)]).
  rewrite contains_spec. split; [by exists s|]. by intros (? & [= <-] & ?).
Qed.

End Compaction.

(** ** Fetching *)

Section Fetching.
Import fetcher_agent.

Lemma fetch_sources_flat self local sources results :
  fetch_sources self local sources results
  = results ++ flat_map (source_items self local) sources.
Proof.
  revert results. induction sources as [|src sources IH]; intros results.
  - simpl. by rewrite app_nil_r.
  - cbn [fetch_sources flat_map]. rewrite IH. unfold source_items at 2.
    destruct (decide (src = lit "local")); [by rewrite <- app_assoc|].
    destruct (decide (src = lit "arxiv")) as [->|].
    + rewrite decide_False by done. unfold fetch_from_arxiv.
      destruct (demo_mode self); simpl; by rewrite app_nil_r.
    + destruct (decide (src = lit "nasa_apod")); [by rewrite <- app_assoc|done].
Qed.

Lemma deduplicate_app results seen unique :
  deduplicate results seen unique = unique ++ deduplicate results seen [].
Proof.
  revert seen unique. induction results as [|it results IH]; intros seen unique.
  - simpl. by rewrite app_nil_r.
  - simpl. destruct (decide (item_id it ∈ seen)); [apply IH|].
    rewrite (IH _ (unique ++ [it])), (IH _ [it]). by rewrite <- app_assoc.
Qed.

Lemma deduplicate_cons it results seen :
  deduplicate (it :: results) seen []
  = if decide (item_id it ∈ seen) then deduplicate results seen []
    else it :: deduplicate results ({[ item_id it ]} ∪ seen) [].
Proof.
  simpl. destruct (decide _); [done|]. by rewrite deduplicate_app.
Qed.

Lemma deduplicate_spec results : ∀ seen,
  deduplicate results seen [] `sublist_of` results
  ∧ (∀ it, it ∈ deduplicate results seen [] → item_id it ∉ seen)
  ∧ NoDup (map item_id (deduplicate results seen []))
  ∧ (∀ it, it ∈ results →
       item_id it ∈ seen
       ∨ item_id it ∈ map item_id (deduplicate results seen []))
  ∧ (∀ it, it ∈ deduplicate results seen [] →
       first_with_id (item_id it) results = Some it).
Proof.
  induction results as [|x results IH]; intros seen.
  - simpl. split; [done|]. split; [by intros ? ?%elem_of_nil|].
    split; [constructor|]. split; by intros ? ?%elem_of_nil.
  - rewrite deduplicate_cons. destruct (decide (item_id x ∈ seen)) as [Hx|Hx].
    + destruct (IH seen) as (H1 & H2 & H3 & H4 & H5).
      split; [by apply sublist_cons|]. split; [done|]. split; [done|]. split.
      * intros it [->|Hit]%elem_of_cons; [by left|by apply H4].
      * intros it Hit. simpl. rewrite decide_False; [by apply H5|].
        intros E. apply (H2 it Hit). by rewrite <- E.
    + destruct (IH ({[ item_id x ]} ∪ seen)) as (H1 & H2 & H3 & H4 & H5).
      split; [by apply sublist_skip|]. split; [|split; [|split]].
      * intros it [->|Hit]%elem_of_cons; [done|].
        specialize (H2 it Hit). by apply not_elem_of_union in H2 as [_ ?].
      * cbn [map]. apply list.NoDup_cons. split; [|done].
        intros Hin. apply list_elem_of_fmap in Hin as (it & E & Hit).
        specialize (H2 it Hit). apply not_elem_of_union in H2 as [H2 _].
        apply H2, elem_of_singleton. done.
      * intros it [->|Hit]%elem_of_cons; [right; by left|].
        destruct (H4 it Hit) as [Hs|Hd].
        -- apply elem_of_union in Hs as [Hs|Hs]; [|by left].
           apply elem_of_singleton in Hs. right. rewrite Hs. by left.
        -- right. by right.
      * intros it [->|Hit]%elem_of_cons; simpl.
        -- by rewrite decide_True.
        -- rewrite decide_False; [by apply H5|].
           intros E. specialize (H2 it Hit).
           apply not_elem_of_union in H2 as [H2 _].
           apply H2, elem_of_singleton. done.
Qed.

Lemma deduplicate_distinct results : ∀ seen,
  NoDup (map item_id results) →
  (∀ it, it ∈ results → item_id it ∉ seen) →
  deduplicate results seen [] = results.
Proof.
  induction results as [|x results IH]; intros seen Hnd Hs; [done|].
  rewrite deduplicate_cons. rewrite decide_False by (apply Hs; by left).
  cbn [map] in Hnd. apply list.NoDup_cons in Hnd as [Hx Hnd].
  f_equal. apply IH; [done|]. intros it Hit.
  apply not_elem_of_union. split; [|apply Hs; by right].
  intros E%elem_of_singleton. apply Hx. rewrite <- E.
  apply list_elem_of_fmap. by exists it.
Qed.

End Fetching.

(** ** One cycle of the orchestrator *)

Section Orchestrator.
Import memory_agent orchestrator_agent.

Lemma process_items_ok self env clock items : ∀ i mem processed entries,
  writable mem = true →
  ∃ mem',
    process_items self env clock i items mem processed entries
    = (mem',
       processed + Py.len (filter (fun it => Is_true (passes self it)) items),
       entries ++ map (entry_of self env) items)
    ∧ writable mem' = true
    ∧ _load mem' = memory_after self env clock i items (_load mem).
Proof.
  induction items as [|it items IH]; intros i mem processed entries Hw.
  - exists mem. cbn [process_items filter map memory_after].
    change (Py.len (@nil item)) with 0. by rewrite Z.add_0_r, app_nil_r.
  - cbn [process_items memory_after]. rewrite run_on_item_ok.
    fold (passes self it).
    assert (Hent : ∀ (l : list entry_log) b o,
      passes self it = b →
      o = (if b then Some (summarizer_agent.summarize (summarizer self) env it
                             (ai_analysis (analysis_item_of (analyzer self) it)))
           else None) →
      (l ++ [Scored (default (lit "<no-id>") (item_id it)) (item_title it)
               (evaluator_agent.score_value
                  (evaluator_agent.score (evaluator self)
                     (analysis_item_of (analyzer self) it))) b o])
        ++ map (entry_of self env) items
      = l ++ map (entry_of self env) (it :: items)).
    { intros l b o Hb ->. rewrite <- app_assoc. cbn [map app].
      unfold entry_of at 2. by rewrite Hb. }
    destruct (passes self it) eqn:Ep; cbn [negb].
    + destruct (IH (S i)
                  (store (clock i) (default (lit "<no-id>") (item_id it))
                     (stored_data it (analysis_item_of (analyzer self) it)
                        (evaluator_agent.score (evaluator self)
                           (analysis_item_of (analyzer self) it))
                        (summarizer_agent.summarize (summarizer self) env it
                           (ai_analysis (analysis_item_of (analyzer self) it))))
                     mem)
                  (processed + 1)
                  (entries
                   ++ [Scored (default (lit "<no-id>") (item_id it))
                         (item_title it)
                         (evaluator_agent.score_value
                            (evaluator_agent.score (evaluator self)
                               (analysis_item_of (analyzer self) it)))
                         true
                         (Some
                            (summarizer_agent.summarize (summarizer self) env it
                               (ai_analysis
                                  (analysis_item_of (analyzer self) it))))]))
        as (mem' & E & Hw' & Hl); [by rewrite store_writable|].
      exists mem'. rewrite E. split; [|split; [exact Hw'|]].
      * rewrite filter_cons_True by (rewrite Ep; exact I).
        rewrite len_cons, (Hent entries true _ eq_refl eq_refl).
        f_equal. f_equal. lia.
      * rewrite Hl. f_equal. by rewrite store_load.
    + destruct (IH (S i) mem processed
                  (entries
                   ++ [Scored (default (lit "<no-id>") (item_id it))
                         (item_title it)
                         (evaluator_agent.score_value
                            (evaluator_agent.score (evaluator self)
                               (analysis_item_of (analyzer self) it)))
                         false None]))
        as (mem' & E & Hw' & Hl); [done|].
      exists mem'. rewrite E. split; [|done].
      rewrite filter_cons_False by (rewrite Ep; exact id).
      by rewrite (Hent entries false _ eq_refl eq_refl).
Qed.

Lemma memory_after_keys self env clock items : ∀ i memory k,
  k ∈ map rec_key (memory_after self env clock i items memory) ↔
  k ∈ map rec_key memory
  ∨ ∃ it, it ∈ items ∧ key_of it = k ∧ passes self it = true.
Proof.
  induction items as [|it items IH]; intros i memory k; cbn [memory_after].
  - split; [by left|]. intros [H|(it & Hin & _)]; [done|].
    by apply elem_of_nil in Hin.
  - rewrite IH. destruct (passes self it) eqn:Ep.
    + rewrite upsert_keys. cbn [record_of rec_key].
      destruct (decide (key_of it ∈ map rec_key memory)) as [Hk|Hk].
      * split.
        -- intros [H|(it' & Hin & E & Hp)]; [by left|right].
           exists it'. split; [by right|done].
        -- intros [H|(it' & Hin & E & Hp)]; [by left|].
           apply elem_of_cons in Hin as [->|Hin]; [left; by rewrite <- E|].
           right. by exists it'.
      * rewrite elem_of_app, list_elem_of_singleton. split.
        -- intros [[H|H]|(it' & Hin & E & Hp)].
           ++ by left.
           ++ right. exists it. split; [by left|done].
           ++ right. exists it'. split; [by right|done].
        -- intros [H|(it' & Hin & E & Hp)]; [by left; left|].
           apply elem_of_cons in Hin as [->|Hin]; [left; by right|].
           right. by exists it'.
    + split.
      * intros [H|(it' & Hin & E & Hp)]; [by left|right].
        exists it'. split; [by right|done].
      * intros [H|(it' & Hin & E & Hp)]; [by left|].
        apply elem_of_cons in Hin as [->|Hin]; [congruence|].
        right. by exists it'.
Qed.

Lemma memory_after_none self env clock items : ∀ i memory,
  (∀ it, it ∈ items → passes self it = false) →
  memory_after self env clock i items memory = memory.
Proof.
  induction items as [|it items IH]; intros i memory H; [done|].
  cbn [memory_after]. rewrite (H it) by (by left).
  apply IH. intros it' Hin. apply H. by right.
Qed.

Lemma memory_after_other self env clock items : ∀ i memory k,
  (∀ it, it ∈ items → key_of it ≠ k) →
  first_with_key k (memory_after self env clock i items memory)
  = first_with_key k memory.
Proof.
  induction items as [|it items IH]; intros i memory k H; [done|].
  cbn [memory_after]. rewrite IH by (intros it' Hin; apply H; by right).
  destruct (passes self it); [|done].
  apply first_with_key_upsert_other. cbn [record_of rec_key].
  intros E. by apply (H it); [left|].
Qed.

Lemma memory_after_stored self env clock items : ∀ i memory j it,
  NoDup (map key_of items) →
  items !! j = Some it → passes self it = true →
  first_with_key (key_of it) (memory_after self env clock i items memory)
  = Some (record_of self env clock (i + j) it).
Proof.
  induction items as [|x items IH]; intros i memory j it Hnd Hj Hp; [done|].
  cbn [map] in Hnd. apply list.NoDup_cons in Hnd as [Hx Hnd].
  cbn [memory_after]. destruct j as [|j].
  - injection Hj as ->. rewrite Hp.
    rewrite memory_after_other.
    + rewrite Nat.add_0_r.
      apply (first_with_key_upsert (record_of self env clock i it)).
    + intros it' Hin E. apply Hx. rewrite <- E.
      apply list_elem_of_fmap. by exists it'.
  - replace (i + S j)%nat with (S i + j)%nat by lia.
    by apply IH.
Qed.

Lemma first_with_key_without_raw k memory :
  first_with_key k (map without_raw memory)
  = without_raw <$> first_with_key k memory.
Proof.
  induction memory as [|r rest IH]; [done|]. simpl.
  destruct (decide (rec_key r = k)); [done|exact IH].
Qed.

Lemma process_items_log self env clock items : ∀ i mem processed entries,
  (process_items self env clock i items mem processed entries).1.2
  = processed + Py.len (filter (fun it => Is_true (passes self it)) items)
  ∧ (process_items self env clock i items mem processed entries).2
    = entries ++ map (entry_of self env) items.
Proof.
  induction items as [|it items IH]; intros i mem processed entries.
  - cbn [process_items filter map fst snd].
    change (Py.len (@nil item)) with 0. by rewrite Z.add_0_r, app_nil_r.
  - cbn [process_items]. rewrite run_on_item_ok.
    fold (passes self it).
    assert (Hent : entry_of self env it
      = Scored (default (lit "<no-id>") (item_id it)) (item_title it)
          (evaluator_agent.score_value
             (evaluator_agent.score (evaluator self)
                (analysis_item_of (analyzer self) it)))
          (passes self it)
          (if passes self it
           then Some (summarizer_agent.summarize (summarizer self) env it
                        (ai_analysis (analysis_item_of (analyzer self) it)))
           else None)) by reflexivity.
    destruct (passes self it) eqn:Ep; cbn [negb].
    + match goal with
      | |- context [process_items self env clock (S i) items ?m ?p ?e] =>
          destruct (IH (S i) m p e) as [E1 E2]
      end.
      rewrite E1, E2. rewrite filter_cons_True by (rewrite Ep; exact I).
      cbn [map]. rewrite len_cons, Hent, <- app_assoc. cbn [app].
      split; [lia|done].
    + match goal with
      | |- context [process_items self env clock (S i) items ?m ?p ?e] =>
          destruct (IH (S i) m p e) as [E1 E2]
      end.
      rewrite E1, E2. rewrite filter_cons_False by (rewrite Ep; exact id).
      cbn [map]. rewrite Hent, <- app_assoc. cbn [app]. done.
Qed.

Lemma run_once_log self env local run_start clock mem :
  (run_once self env local run_start clock mem).1
  = {| log_timestamp := run_start;
       log_steps :=
         [lit "Fetched "
          ++ Num.str_of_int
               (Py.len (fetcher_agent.run (fetcher self) local None))
          ++ lit " items"];
       processed_items :=
         Py.len (filter (fun it => Is_true (passes self it))
                   (fetcher_agent.run (fetcher self) local None));
       log_items :=
         map (entry_of self env)
           (fetcher_agent.run (fetcher self) local None) |}.
Proof.
  unfold run_once.
  destruct (process_items_log self env clock
              (fetcher_agent.run (fetcher self) local None) 0 mem 0 [])
    as [E1 E2].
  destruct (process_items _ _ _ _ _ _ _ _) as [[mem' processed] entries].
  cbn [fst snd] in *. by rewrite E1, E2.
Qed.

Lemma passed_count self items :
  Py.len
    (evaluator_agent.filter_passed (evaluator self)
       (evaluator_agent.evaluate_batch (evaluator self)
          (map (analysis_item_of (analyzer self)) items)))
  = Py.len (filter (fun it => Is_true (passes self it)) items).
Proof.
  rewrite evaluate_batch_map. unfold evaluator_agent.filter_passed, Py.len.
  f_equal. induction items as [|it items IH]; [done|]. cbn [map].
  fold (passes self it).
  destruct (passes self it) eqn:Ep.
  - rewrite !filter_cons_True by (try fold (passes self it); rewrite Ep; exact I).
    cbn [length]. by rewrite IH.
  - rewrite !filter_cons_False by (try fold (passes self it); rewrite Ep; exact id).
    exact IH.
Qed.

Lemma run_once_ok self env local run_start clock mem :
  writable mem = true →
  let items := fetcher_agent.run (fetcher self) local None in
  run_once self env local run_start clock mem
  = ({| log_timestamp := run_start;
        log_steps :=
          [lit "Fetched " ++ Num.str_of_int (Py.len items) ++ lit " items"];
        processed_items :=
          Py.len (filter (fun it => Is_true (passes self it)) items);
        log_items := map (entry_of self env) items |},
     (run_once self env local run_start clock mem).2)
  ∧ writable (run_once self env local run_start clock mem).2 = true
  ∧ _load (run_once self env local run_start clock mem).2
    = map without_raw (memory_after self env clock 0 items (_load mem)).
Proof.
  intros Hw items. unfold run_once. fold items.
  destruct (process_items_ok self env clock items 0 mem 0 [] Hw)
    as (mem' & E & Hw' & Hl).
  rewrite E. cbn [fst snd]. split; [done|]. split.
  - destruct (compact_cases mem') as [Ec|[_ Ec]]; rewrite Ec; done.
  - rewrite compact_load by done. by rewrite Hl.
Qed.

End Orchestrator.

(** ** URLs *)

Section Urls.
Import parser_utils.

Lemma strip_prefix_spec p s s' : strip_prefix p s = Some s' ↔ s = p ++ s'.
Proof.
  revert s. induction p as [|a p IH]; intros s; simpl.
  - split; [by intros [= ->]|by intros ->].
  - destruct s as [|b s]; [done|].
    destruct (Ascii.eqb a b) eqn:E.
    + apply Ascii.eqb_eq in E. subst b. rewrite IH.
      split; [by intros ->|by intros [= ->]].
    + split; [done|]. intros [= -> _]. by rewrite Ascii.eqb_refl in E.
Qed.

Lemma strip_prefix_app p q s :
  strip_prefix (p ++ q) s
  = match strip_prefix p s with
    | Some s' => strip_prefix q s'
    | None => None
    end.
Proof.
  revert s. induction p as [|a p IH]; intros s; [done|]. simpl.
  destruct s as [|b s]; [done|]. by destruct (Ascii.eqb a b).
Qed.

Lemma after_run_app p (pre s : str) :
  forallb p pre = true → after_run p (pre ++ s) = after_run p s.
Proof.
  induction pre as [|c pre IH]; [done|]. simpl.
  intros [Hc Hp]%andb_true_iff. rewrite Hc. by apply IH.
Qed.

Lemma run_of_app p (pre s : str) :
  forallb p pre = true → run_of p (pre ++ s) = pre ++ run_of p s.
Proof.
  induction pre as [|c pre IH]; [done|]. simpl.
  intros [Hc Hp]%andb_true_iff. rewrite Hc. by rewrite IH.
Qed.

Lemma take_run_of p s :
  take (length s - length (after_run p s)) s = run_of p s.
Proof.
  rewrite length_after_run.
  pose proof (run_of_after_run p s) as H.
  assert (Hl : (length (run_of p s) <= length s)%nat).
  { rewrite <- H at 2. rewrite length_app. lia. }
  replace (length s - (length s - length (run_of p s)))%nat
    with (length (run_of p s)) by lia.
  rewrite <- H at 2. by rewrite take_app_length.
Qed.

Lemma run_literal {A} p r prev s caps
    (k : option ascii → str → gmap string str → option A) :
  Re.run (Re.literal p r) prev s caps k
  = match strip_prefix p s with
    | Some s' => Re.run r (prev_after p prev) s' caps k
    | None => None
    end.
Proof.
  revert prev s. induction p as [|a p IH]; intros prev s; [done|].
  cbn [Re.literal Re.run strip_prefix].
  destruct s as [|b s]; [done|].
  destruct (Ascii.eqb a b) eqn:E; [|done].
  apply Ascii.eqb_eq in E. subst b. rewrite IH.
  destruct (strip_prefix p s); [|done]. f_equal.
  unfold prev_after. rewrite last_cons. by destruct (list.last p).
Qed.

Lemma run_plus_total {A} p (f : str → gmap string str → A) prev s caps :
  Re.run (Re.Plus p) prev s caps (fun _ s' c => Some (f s' c))
  = match s with
    | c :: s' => if p c then Some (f (after_run p s') caps) else None
    | [] => None
    end.
Proof.
  cbn [Re.run]. destruct s as [|c s']; [done|].
  destruct (p c); [|done].
  apply (star_k_total p (fun s'' => f s'' caps)).
Qed.

Lemma run_tail {A} p (f : str → gmap string str → A) prev s caps :
  forallb is_nonspace p = true →
  Re.run (Re.literal p (Re.Plus is_nonspace)) prev s caps
    (fun _ s' c => Some (f s' c))
  = if starts_with_more p s
    then Some (f (after_run is_nonspace s) caps)
    else None.
Proof.
  intros Hp. rewrite run_literal. unfold starts_with_more.
  destruct (strip_prefix p s) as [s'|] eqn:E; [|done].
  rewrite run_plus_total.
  destruct s' as [|c s']; [done|].
  destruct (is_nonspace c) eqn:Ec; [|done].
  apply strip_prefix_spec in E. subst s.
  rewrite after_run_app by done. simpl. by rewrite Ec.
Qed.

Lemma starts_with_more_https s :
  starts_with_more (lit "https://") s
  = match strip_prefix (lit "http") s with
    | Some (c :: s1) => Ascii.eqb "s" c && starts_with_more (lit "://") s1
    | _ => false
    end.
Proof.
  unfold starts_with_more.
  change (lit "https://") with (lit "http" ++ lit "s" ++ lit "://").
  rewrite strip_prefix_app.
  destruct (strip_prefix (lit "http") s) as [s1|]; [|done].
  rewrite strip_prefix_app. destruct s1 as [|c s1]; [done|].
  cbn [lit list_ascii_of_string strip_prefix].
  by destruct (Ascii.eqb "s" c).
Qed.

Lemma starts_with_more_http s :
  starts_with_more (lit "http://") s
  = match strip_prefix (lit "http") s with
    | Some s1 => starts_with_more (lit "://") s1
    | None => false
    end.
Proof.
  unfold starts_with_more.
  change (lit "http://") with (lit "http" ++ lit "://").
  rewrite strip_prefix_app.
  by destruct (strip_prefix (lit "http") s) as [s1|].
Qed.

Lemma run_url_re {A} (f : str → gmap string str → A) prev s caps :
  Re.run url_re prev s caps (fun _ s' c => Some (f s' c))
  = if starts_url s then Some (f (after_run is_nonspace s) caps) else None.
Proof.
  unfold url_re, starts_url. cbn [Re.run].
  rewrite (run_tail (lit "www.")) by reflexivity.
  rewrite run_literal. cbn [Re.run].
  rewrite starts_with_more_http, starts_with_more_https.
  destruct (strip_prefix (lit "http") s) as [s1|] eqn:E1; [|done].
  apply strip_prefix_spec in E1. subst s.
  rewrite (run_tail (lit "://")) by reflexivity.
  destruct s1 as [|c s1].
  - cbn. done.
  - destruct (Ascii.eqb "s" c) eqn:Ec.
    + apply Ascii.eqb_eq in Ec. subst c.
      rewrite (run_tail (lit "://")) by reflexivity.
      replace (starts_with_more (lit "://") ("s"%char :: s1)) with false
        by reflexivity.
      cbn [orb andb].
      destruct (starts_with_more (lit "://") s1) eqn:E2.
      * reflexivity.
      * done.
    + cbn [andb orb]. rewrite orb_false_r.
      destruct (starts_with_more (lit "://") (c :: s1)) eqn:E2.
      * reflexivity.
      * done.
Qed.

Lemma match_at_url prev s :
  Re.match_at url_re prev s
  = if starts_url s
    then Some (Re.mk_match (run_of is_nonspace s) (after_run is_nonspace s) ∅)
    else None.
Proof.
  unfold Re.match_at.
  rewrite (run_url_re
             (fun s' c => Re.mk_match (take (length s - length s') s) s' c)).
  by rewrite take_run_of.
Qed.

Lemma starts_with_more_head p c s :
  p ≠ [] → forallb is_nonspace p = true →
  starts_with_more p (c :: s) = true → is_nonspace c = true.
Proof.
  destruct p as [|a p]; [done|]. intros _ [Ha _]%andb_true_iff.
  unfold starts_with_more. simpl.
  destruct (Ascii.eqb a c) eqn:E; [|done].
  apply Ascii.eqb_eq in E. by subst c.
Qed.

Lemma starts_url_head c s : starts_url (c :: s) = true → is_nonspace c = true.
Proof.
  unfold starts_url. intros H.
  apply orb_true_iff in H as [H|H]; [apply orb_true_iff in H as [H|H]|];
    by apply starts_with_more_head in H.
Qed.

Lemma starts_url_nil : starts_url [] = false.
Proof. reflexivity. Qed.

Lemma cut_urls_blank b c s :
  Py.is_space c = true → cut_urls b (c :: s) = c :: cut_urls false s.
Proof. intros H. simpl. by rewrite H. Qed.

(** One pass of [url_re] over [s]: from a position outside a URL, and
    from a position inside one. *)
Lemma scan_url s :
  (∀ prev gap,
     render [] (Re.scan_from url_re prev s 0 gap) = gap ++ cut_urls false s)
  ∧ (∀ prev gap,
       render []
         (Re.scan_from url_re prev s (length (run_of is_nonspace s)) gap)
       = gap ++ cut_urls true s).
Proof.
  induction s as [|c s [IHa IHb]].
  - split; intros; unfold render; simpl; by rewrite ?app_nil_r.
  - assert (Ha : ∀ prev gap,
       render [] (Re.scan_from url_re prev (c :: s) 0 gap)
       = gap ++ cut_urls false (c :: s)).
    { intros prev gap. cbn [Re.scan_from]. rewrite match_at_url.
      destruct (starts_url (c :: s)) eqn:E.
      - pose proof (starts_url_head c s E) as Hc.
        cbn [run_of Re.m_text]. rewrite Hc.
        replace (length (c :: run_of is_nonspace s) - 1)%nat
          with (length (run_of is_nonspace s)) by (simpl; lia).
        specialize (IHb (Some c) []).
        destruct (Re.scan_from url_re (Some c) s
                    (length (run_of is_nonspace s)) []) as [ms tail] eqn:Es.
        unfold render in *. cbn [fst snd flat_map] in *.
        rewrite app_nil_r, <- app_assoc, IHb. cbn [app cut_urls].
        unfold is_nonspace in Hc. apply negb_true_iff in Hc. by rewrite Hc, E.
      - rewrite IHa, <- app_assoc. cbn [app cut_urls]. rewrite E.
        by destruct (Py.is_space c). }
    split; [exact Ha|].
    intros prev gap. cbn [run_of]. unfold is_nonspace at 1.
    destruct (Py.is_space c) eqn:E; cbn [negb].
    + cbn [length]. rewrite Ha. by rewrite !cut_urls_blank.
    + cbn [length Re.scan_from]. rewrite IHb. cbn [cut_urls]. by rewrite E.
Qed.

(** [url_re.sub("", s)] *)
Lemma sub_url s : Re.sub url_re [] s = cut_urls false s.
Proof.
  change (Re.sub url_re [] s)
    with (render [] (Re.scan_from url_re None s 0 [])).
  by rewrite (proj1 (scan_url s)).
Qed.

Lemma starts_with_more_run p s :
  forallb is_nonspace p = true →
  starts_with_more p (run_of is_nonspace s) = starts_with_more p s.
Proof.
  unfold starts_with_more.
  revert s. induction p as [|a p IH]; intros s Hp.
  - destruct s as [|c s]; [done|]. simpl. by destruct (is_nonspace c) eqn:E; simpl; rewrite ?E.
  - apply andb_true_iff in Hp as [Ha Hp].
    destruct s as [|b s]; [done|]. cbn [run_of].
    destruct (Ascii.eqb a b) eqn:E.
    + apply Ascii.eqb_eq in E. subst b. rewrite Ha. cbn [strip_prefix].
      rewrite Ascii.eqb_refl. by apply IH.
    + destruct (is_nonspace b); cbn [strip_prefix]; by rewrite ?E.
Qed.

Lemma starts_url_run s : starts_url (run_of is_nonspace s) = starts_url s.
Proof.
  unfold starts_url. by rewrite !starts_with_more_run by reflexivity.
Qed.

Lemma starts_with_more_mono p x y :
  starts_with_more p x = true → starts_with_more p (x ++ y) = true.
Proof.
  unfold starts_with_more.
  destruct (strip_prefix p x) as [[|c r]|] eqn:E; try done.
  apply strip_prefix_spec in E. subst x. intros Hc.
  assert (E : strip_prefix p ((p ++ c :: r) ++ y) = Some (c :: r ++ y)).
  { apply strip_prefix_spec. by rewrite <- app_assoc. }
  by rewrite E.
Qed.

Lemma starts_url_mono x y : starts_url x = true → starts_url (x ++ y) = true.
Proof.
  unfold starts_url. intros H.
  apply orb_true_iff in H as [H|H]; [apply orb_true_iff in H as [H|H]|].
  - by rewrite (starts_with_more_mono _ _ y H).
  - by rewrite (starts_with_more_mono _ _ y H), orb_true_r.
  - by rewrite (starts_with_more_mono _ _ y H), orb_true_r.
Qed.

Lemma run_of_cut_skipping s : run_of is_nonspace (cut_urls true s) = [].
Proof.
  induction s as [|c s IH]; [done|]. cbn [cut_urls].
  destruct (Py.is_space c) eqn:E; [|exact IH].
  cbn [run_of].
  assert (Hn : is_nonspace c = false).
  { unfold is_nonspace. by rewrite E. }
  by rewrite Hn.
Qed.

Lemma run_of_cut s :
  ∃ u, run_of is_nonspace s = run_of is_nonspace (cut_urls false s) ++ u.
Proof.
  induction s as [|c s [u IH]]; [by exists []|]. cbn [cut_urls run_of].
  unfold is_nonspace at 1. destruct (Py.is_space c) eqn:E; cbn [negb].
  - exists []. cbn [run_of].
    assert (Hn : is_nonspace c = false) by (unfold is_nonspace; by rewrite E).
    by rewrite Hn.
  - destruct (starts_url (c :: s)).
    + rewrite run_of_cut_skipping. by eexists.
    + cbn [run_of].
      assert (Hn : is_nonspace c = true) by (unfold is_nonspace; by rewrite E).
      rewrite Hn. exists u. by rewrite IH.
Qed.

Lemma url_free_cut s :
  url_free (cut_urls false s) = true ∧ url_free (cut_urls true s) = true.
Proof.
  induction s as [|c s [IHa IHb]]; [done|].
  assert (Hblank : Py.is_space c = true →
                   url_free (c :: cut_urls false s) = true).
  { intros E. cbn [url_free]. rewrite IHa, andb_true_r.
    apply negb_true_iff. destruct (starts_url _) eqn:Es; [|done].
    apply starts_url_head in Es. unfold is_nonspace in Es.
    by rewrite E in Es. }
  cbn [cut_urls]. destruct (Py.is_space c) eqn:E; [by split; apply Hblank|].
  split; [|exact IHb].
  destruct (starts_url (c :: s)) eqn:Es; [exact IHb|].
  cbn [url_free]. rewrite IHa, andb_true_r. apply negb_true_iff.
  destruct (starts_url (c :: cut_urls false s)) eqn:Ec; [|done].
  assert (Hn : is_nonspace c = true) by (unfold is_nonspace; by rewrite E).
  rewrite <- starts_url_run in Ec, Es. cbn [run_of] in Ec, Es.
  rewrite Hn in Ec, Es.
  destruct (run_of_cut s) as [u Hu]. rewrite Hu in Es.
  pose proof (starts_url_mono _ u Ec) as Hm. cbn [app] in Hm. congruence.
Qed.

Lemma url_free_tail c s : url_free (c :: s) = true → url_free s = true.
Proof. simpl. by intros [_ ?]%andb_true_iff. Qed.

Lemma url_free_lstrip s : url_free s = true → url_free (Py.lstrip s) = true.
Proof.
  induction s as [|c s IH]; [done|]. intros H. simpl.
  destruct (Py.is_space c); [|done]. by apply IH, (url_free_tail c).
Qed.

Lemma url_free_app_l x t : url_free (x ++ t) = true → url_free x = true.
Proof.
  induction x as [|c x IH]; [done|]. cbn [app url_free].
  intros [H1 H2]%andb_true_iff. rewrite (IH H2), andb_true_r.
  apply negb_true_iff. destruct (starts_url (c :: x)) eqn:E; [|done].
  apply (starts_url_mono _ t) in E. cbn [app] in E.
  by rewrite E in H1.
Qed.

Lemma url_free_strip s : url_free s = true → url_free (Py.strip s) = true.
Proof.
  intros H. unfold Py.strip. apply url_free_lstrip in H.
  destruct (rstrip_prefix (Py.lstrip s)) as [t Ht]. rewrite Ht in H.
  by apply url_free_app_l in H.
Qed.

Lemma remove_urls_url_free t : url_free (remove_urls t) = true.
Proof.
  unfold remove_urls. destruct (negb (Py.truthy t)); [done|].
  rewrite sub_url. apply url_free_strip, url_free_cut.
Qed.

Lemma scan_url_free s : ∀ prev gap,
  url_free s = true → Re.scan_from url_re prev s 0 gap = ([], gap ++ s).
Proof.
  induction s as [|c s IH]; intros prev gap H.
  - simpl. by rewrite app_nil_r.
  - cbn [Re.scan_from]. rewrite match_at_url.
    cbn [url_free] in H. apply andb_true_iff in H as [H1 H2].
    apply negb_true_iff in H1. rewrite H1. rewrite IH by done.
    by rewrite <- app_assoc.
Qed.

Lemma url_free_occurs p c s :
  p ∈ [lit "http://"; lit "https://"; lit "www."] →
  is_nonspace c = true →
  url_free s = true → ¬ occurs_in (p ++ [c]) s.
Proof.
  intros Hp Hc Hs (pre & suf & ->).
  assert (Hf : url_free ((p ++ [c]) ++ suf) = true).
  { clear Hp. induction pre as [|a pre IH]; [done|].
    apply IH. by apply (url_free_tail a). }
  assert (Hst : starts_url ((p ++ [c]) ++ suf) = true).
  { apply starts_url_mono. unfold starts_url.
    assert (Hm : starts_with_more p (p ++ [c]) = true).
    { unfold starts_with_more.
      rewrite (proj2 (strip_prefix_spec p (p ++ [c]) [c]) eq_refl). done. }
    repeat (apply elem_of_cons in Hp as [->|Hp]);
      [by rewrite Hm|by rewrite Hm, orb_true_r|by rewrite Hm, orb_true_r|].
    by apply elem_of_nil in Hp. }
  destruct ((p ++ [c]) ++ suf) as [|a r] eqn:E.
  - by rewrite starts_url_nil in Hst.
  - cbn [url_free] in Hf. by rewrite Hst in Hf.
Qed.

End Urls.

(* ================================================================== *)
(** * The further code on concrete inputs *)
(* ================================================================== *)

Example join_and_rfind :
  Py.join (lit " ") (map lit ["a"; ""; "b"]%string) = lit "a  b"
  ∧ Py.join (lit ", ") [] = lit ""
  ∧ Py.rfind " " (lit "a b c") = 3
  ∧ Py.rfind " " (lit "abc") = -1.
Proof. repeat split. Qed.

Example sentences_of_a_text :
  parser_utils.extract_sentences (lit " One. Two?Three!  Four ")
  = map lit ["One."; "Two?Three!"; "Four"]%string.
Proof. by vm_compute. Qed.

Example first_n_sentences_values :
  map (parser_utils.first_n_sentences (lit "Hi there. All good?  Yes."))
    [2; -1; 0; 7]
  = map lit ["Hi there. All good?"; "Hi there. All good?"; "";
             "Hi there. All good? Yes."]%string.
Proof. by vm_compute. Qed.

Example truncate_values :
  map (fun tm => parser_utils.truncate (lit tm.1) tm.2)
    [ ("hello big world", 12); (" ab", 2); ("abc", 0); ("abcdef", 3);
      ("ab  cd ef", 6); ("short", 10) ]%string
  = map lit ["hello big..."; "..."; "ab..."; "ab..."; "ab..."; "short"]%string.
Proof. by vm_compute. Qed.

Example remove_urls_value :
  parser_utils.remove_urls
    (lit "see http://x.y, www. and www.z or https:/no httpss://no")
  = lit "see  www. and  or https:/no httpss://no".
Proof. by vm_compute. Qed.

Example store_and_compact :
  map (fun r => (memory_agent.rec_key r, memory_agent.rec_timestamp r,
                 dom (memory_agent.rec_data r)))
    (memory_agent._load
       (memory_agent.compact
          (memory_agent.store (Num.dec 3 1) (lit "a") (sample_data "New")
             sample_storage)))
  = [ (lit "a", Num.dec 3 1, {[ "summary"%string ]});
      (lit "b", Num.dec 2 1, {[ "summary"%string ]}) ].
Proof.
  unfold memory_agent.compact, memory_agent.store. cbn.
  repeat f_equal; apply leibniz_equiv; set_solver.
Qed.

Example one_cycle :
  let cycle :=
    orchestrator_agent.run_once (orchestrator_agent.__init__ no_gemini)
      no_gemini sample_items (lit "2025-01-01T00:00:00Z")
      (fun n => Num.float_of_int (Z.of_nat n)) sample_storage in
  orchestrator_agent.processed_items cycle.1 = 1
  ∧ orchestrator_agent.log_steps cycle.1 = [lit "Fetched 2 items"]
  ∧ map memory_agent.rec_key (memory_agent._load cycle.2)
    = map lit ["a"; "b"; "k2-18b.txt"]%string.
Proof. by vm_compute. Qed.

(* ================================================================== *)
(** * Further properties *)
(* ================================================================== *)

Lemma rfind_from_ge c s : ∀ i best (j : nat),
  s !! j = Some c → i + Z.of_nat j <= Py.rfind_from c s i best.
Proof.
  induction s as [|x s IH]; intros i best j Hj; [done|].
  cbn [Py.rfind_from]. destruct j as [|j].
  - injection Hj as ->. rewrite Ascii.eqb_refl.
    destruct (rfind_from_spec c s (i + 1) i) as [E|[E _]]; lia.
  - specialize (IH (i + 1) (if Ascii.eqb x c then i else best) j Hj). lia.
Qed.

Lemma remove_urls_stripped t :
  Py.strip (parser_utils.remove_urls t) = parser_utils.remove_urls t.
Proof.
  unfold parser_utils.remove_urls.
  destruct (negb (Py.truthy t)); [done|apply strip_idemp].
Qed.

Lemma remove_urls_fixed s :
  url_free s = true → Py.strip s = s → parser_utils.remove_urls s = s.
Proof.
  intros Hfree Hs. unfold parser_utils.remove_urls.
  destruct (negb (Py.truthy s)) eqn:E; [by destruct s|].
  unfold Re.sub, Re.scan. rewrite (scan_url_free _ None [] Hfree).
  cbn [fst snd flat_map app]. exact Hs.
Qed.

(** X1.  Joined by single spaces, the sentences of a text give back its
    normalized form: [" ".join(extract_sentences(text)) == clean_text(text)]. *)
Theorem X1_sentences_rejoin (text : str) :
  Py.join (lit " ") (parser_utils.extract_sentences text)
  = parser_utils.clean_text text.
Proof. apply join_extract_sentences. Qed.

(** X2.  Every sentence returned by [extract_sentences] is not empty, has
    no blank at either end and contains no sentence boundary (a ".", "?" or
    "!" followed by a blank); every sentence but the last ends in ".", "?"
    or "!". *)
Theorem X2_sentences_well_formed (text : str) :
  Forall (fun s => Py.truthy s = true ∧ Py.strip s = s
                   ∧ no_boundary parser_utils.is_sentence_end s = true)
    (parser_utils.extract_sentences text)
  ∧ Forall (terminated parser_utils.is_sentence_end)
      (removelast (parser_utils.extract_sentences text)).
Proof.
  destruct (extract_sentences_ok text) as [Hok Hterm]. split; [|done].
  eapply Forall_impl; [|exact Hok]. intros s Hs.
  destruct (sentence_ok_strip _ s Hs) as [H1 H2]. destruct Hs as [_ H3].
  split; [by destruct s|done].
Qed.

(** X3.  [first_n_sentences(text, n)] is a prefix of [clean_text(text)]
    for every integer [n], and the whole of it when the text has at most [n]
    sentences. *)
Theorem X3_first_n_sentences_prefix (text : str) (n : Z) :
  (∃ rest,
     parser_utils.clean_text text
     = parser_utils.first_n_sentences text n ++ rest)
  ∧ (Py.len (parser_utils.extract_sentences text) <= n →
     parser_utils.first_n_sentences text n = parser_utils.clean_text text).
Proof.
  destruct (first_n_sentences_take text n) as (k & Hk & Hall).
  rewrite Hk, <- (join_extract_sentences text). split.
  - apply join_take_prefix.
  - intros H. by rewrite Hall.
Qed.

Lemma X3_witness :
  Py.len (parser_utils.extract_sentences (lit "Hi there. All good?  Yes.")) <= 3
  ∧ parser_utils.first_n_sentences (lit "Hi there. All good?  Yes.") 3
    = lit "Hi there. All good? Yes.".
Proof.
  split; [by vm_compute|].
  rewrite (proj2 (X3_first_n_sentences_prefix
                    (lit "Hi there. All good?  Yes.") 3)).
  - by vm_compute.
  - by vm_compute.
Defined.

(** X4.  For [max_chars >= 1], [truncate(text, max_chars)] is [text] when
    it fits, and otherwise a prefix of [text] of at most [max_chars - 1]
    characters, without a blank at its end, followed by "..."; so the result
    is never longer than [max_chars + 2]. *)
Theorem X4_truncate_length (text : str) (max_chars : Z) :
  1 <= max_chars →
  (Py.len text <= max_chars → parser_utils.truncate text max_chars = text)
  ∧ (max_chars < Py.len text →
     ∃ kept rest,
       parser_utils.truncate text max_chars = kept ++ lit "..."
       ∧ text = kept ++ rest
       ∧ Py.len kept <= max_chars - 1
       ∧ Py.rstrip kept = kept)
  ∧ Py.len (parser_utils.truncate text max_chars) <= max_chars + 2.
Proof.
  intros Hmax.
  assert (Hfit : Py.len text <= max_chars →
                 parser_utils.truncate text max_chars = text).
  { intros H. unfold parser_utils.truncate.
    destruct text as [|c t]; [done|]. cbn [Py.truthy negb].
    by rewrite (proj2 (Z.leb_le _ _)). }
  assert (Hcut : max_chars < Py.len text →
     ∃ kept rest,
       parser_utils.truncate text max_chars = kept ++ lit "..."
       ∧ text = kept ++ rest
       ∧ Py.len kept <= max_chars - 1
       ∧ Py.rstrip kept = kept).
  { intros H.
    destruct (truncate_kept text max_chars Hmax H)
      as (kept & rest & H1 & H2 & H3 & H4 & _).
    by exists kept, rest. }
  split; [done|]. split; [done|].
  destruct (Z_le_gt_dec (Py.len text) max_chars) as [H|H].
  - rewrite Hfit by done. lia.
  - destruct Hcut as (kept & rest & -> & _ & Hk & _); [lia|].
    unfold Py.len in *. rewrite length_app. simpl length. lia.
Qed.

Lemma X4_witness :
  1 <= 8
  ∧ parser_utils.truncate (lit "hello world") 8 = lit "hello..."
  ∧ Py.len (parser_utils.truncate (lit "hello world") 8) <= 8 + 2.
Proof.
  split; [lia|]. split; [by vm_compute|].
  apply (X4_truncate_length (lit "hello world") 8). lia.
Defined.

(** X5.  When the first [max_chars - 1] characters of a text too long for
    [max_chars] hold a space after their first character, [truncate] cuts
    at a blank: the character of [text] that follows the kept part is a
    blank, so no word is cut in two. *)
Theorem X5_truncate_word_boundary (text : str) (max_chars : Z) (j : nat) :
  1 <= max_chars → max_chars < Py.len text →
  (0 < j)%nat → Z.of_nat j < max_chars - 1 → text !! j = Some " "%char →
  ∃ kept c rest,
    parser_utils.truncate text max_chars = kept ++ lit "..."
    ∧ text = kept ++ c :: rest
    ∧ Py.is_space c = true.
Proof.
  intros Hmax Hlen Hj Hjm Hsp.
  destruct (truncate_kept text max_chars Hmax Hlen)
    as (kept & rest & H1 & H2 & _ & _ & H5).
  destruct H5 as (c & rest' & -> & Hc).
  - rewrite slice_to_nonneg by lia.
    assert (Hcut : take (Z.to_nat (max_chars - 1)) text !! j = Some " "%char).
    { rewrite lookup_take_lt by lia. done. }
    pose proof (rfind_from_ge " " _ 0 (-1) j Hcut) as Hge.
    unfold Py.rfind. lia.
  - by exists kept, c, rest'.
Qed.

Lemma X5_witness :
  ∃ kept c rest,
    parser_utils.truncate (lit "hello big world") 12 = kept ++ lit "..."
    ∧ lit "hello big world" = kept ++ c :: rest
    ∧ Py.is_space c = true.
Proof.
  apply (X5_truncate_word_boundary (lit "hello big world") 12 5);
    [lia|by vm_compute|lia|lia|reflexivity].
Defined.

(** X6.  The result of [remove_urls] holds no URL of its pattern: the
    pattern does not match anywhere in it, that is, nowhere in it stands
    "http://", "https://" or "www." followed by a character that is not a
    blank.  Hence [remove_urls] is idempotent. *)
Theorem X6_remove_urls_no_url_left (text : str) :
  Re.search parser_utils.url_re (parser_utils.remove_urls text) = None
  ∧ (∀ p c,
       p ∈ [lit "http://"; lit "https://"; lit "www."] →
       parser_utils.is_nonspace c = true →
       ¬ occurs_in (p ++ [c]) (parser_utils.remove_urls text))
  ∧ parser_utils.remove_urls (parser_utils.remove_urls text)
    = parser_utils.remove_urls text.
Proof.
  pose proof (remove_urls_url_free text) as Hfree.
  split; [|split].
  - unfold Re.search, Re.finditer, Re.scan.
    by rewrite (scan_url_free _ None [] Hfree).
  - intros p c Hp Hc. by apply url_free_occurs.
  - apply remove_urls_fixed; [done|apply remove_urls_stripped].
Qed.

Lemma X6_witness :
  parser_utils.remove_urls (lit "see https://a.org/x?y and www.b.c now")
  = lit "see  and  now"
  ∧ ¬ occurs_in (lit "www." ++ ["b"%char])
        (parser_utils.remove_urls (lit "see https://a.org/x?y and www.b.c now")).
Proof.
  split; [by vm_compute|].
  apply (X6_remove_urls_no_url_left
           (lit "see https://a.org/x?y and www.b.c now")).
  - apply elem_of_cons. right. apply elem_of_cons. right. by left.
  - reflexivity.
Defined.


(** X8.  For [max_snippet_chars >= 0] the snippet is the normalized text
    when that has at most [max_snippet_chars] characters, and otherwise its
    first [max_snippet_chars] characters followed by "..."; it is never
    longer than [max_snippet_chars + 3]. *)
Theorem X8_snippet_bound (self : analyzer_agent.AnalyzerAgent) (text : str) :
  0 <= analyzer_agent.max_snippet_chars self →
  ∃ r,
    analyzer_agent.analyze_text self text = Ok r
    ∧ Py.len (snippet r) <= analyzer_agent.max_snippet_chars self + 3
    ∧ (Py.len (parser_utils.clean_text text)
         <= analyzer_agent.max_snippet_chars self →
       snippet r = parser_utils.clean_text text)
    ∧ (analyzer_agent.max_snippet_chars self
         < Py.len (parser_utils.clean_text text) →
       snippet r
       = take (Z.to_nat (analyzer_agent.max_snippet_chars self))
           (parser_utils.clean_text text) ++ lit "...").
Proof.
  intros Hmax. eexists. split; [apply analyze_text_ok|].
  destruct (snippet_of self (parser_utils.clean_text text) Hmax) as [H1 H2].
  split; [|split; [done|by intros H; apply H2]].
  destruct (Z_le_gt_dec (Py.len (parser_utils.clean_text text))
              (analyzer_agent.max_snippet_chars self)) as [H|H].
  - rewrite H1 by done. lia.
  - destruct H2 as [_ H2]; [lia|]. lia.
Qed.

Lemma X8_witness :
  0 <= analyzer_agent.max_snippet_chars (analyzer_agent.__init__ None 30 9)
  ∧ ∃ r,
      analyzer_agent.analyze_text (analyzer_agent.__init__ None 30 9)
        (lit "  The  orbital period ") = Ok r
      ∧ snippet r = lit "The orbit...".
Proof.
  split; [by vm_compute|].
  destruct (X8_snippet_bound (analyzer_agent.__init__ None 30 9)
              (lit "  The  orbital period ")) as (r & Hr & _ & _ & H);
    [by vm_compute|].
  exists r. split; [done|]. rewrite H; by vm_compute.
Defined.

(** X9.  Every entry of ["measurements"] records a number and a unit that
    stand next to each other in the normalized text: its ["raw"] occurs in
    that text and is a numeric token, then blanks or hyphens, then the unit
    as the text has it; ["value"] is [float] of the token; the recorded
    ["unit"] is the unit of the text with every Greek μ (U+03BC) replaced by
    [u], which is again a non-empty string of unit characters, of the same
    length. *)
Theorem X9_measurement_entries (self : analyzer_agent.AnalyzerAgent)
    (text : str) :
  ∃ r,
    analyzer_agent.analyze_text self text = Ok r
    ∧ Forall
        (fun e =>
           ∃ tok sep u,
             raw e = tok ++ sep ++ u
             ∧ unit e = analyzer_agent.replace_mu u
             ∧ occurs_in (raw e) (parser_utils.clean_text text)
             ∧ Num.py_float tok = Ok (value e)
             ∧ forallb analyzer_agent.is_sep sep = true
             ∧ forallb analyzer_agent.is_unit_char u = true
             ∧ Py.truthy (unit e) = true
             ∧ forallb analyzer_agent.is_unit_char (unit e) = true
             ∧ length (unit e) = length u)
        (measurements r).
Proof.
  eexists. split; [apply analyze_text_ok|].
  unfold analysis_of. cbn [measurements].
  apply Forall_forall. intros e He.
  apply list_elem_of_In, list_elem_of_omap in He as (m & Hm & Hr).
  assert (Hok : measurement_of_match m = Ok e).
  { destruct (measurement_of_match m); [by injection Hr as ->|done]. }
  destruct (measurement_entry _ m e Hm Hok)
    as (tok & sep & u & H1 & H2 & H3 & H4 & H5 & H6 & H7).
  destruct (replace_mu_unit u H6 H7) as (K1 & K2 & K3).
  exists tok, sep, u. rewrite H2. repeat (split; [done|]).
  split; [|done]. by destruct (analyzer_agent.replace_mu u).
Qed.

(** X10.  Keyword detection does not depend on the case of the text: two
    texts that are equal in lower case have the same ["keywords_detected"]. *)
Theorem X10_keywords_ignore_case (self : analyzer_agent.AnalyzerAgent)
    (t1 t2 : str) :
  Py.lower t1 = Py.lower t2 →
  ∃ r1 r2,
    analyzer_agent.analyze_text self t1 = Ok r1
    ∧ analyzer_agent.analyze_text self t2 = Ok r2
    ∧ keywords_detected r1 = keywords_detected r2.
Proof.
  intros H. do 2 eexists. split; [apply analyze_text_ok|].
  split; [apply analyze_text_ok|].
  unfold analysis_of. cbn [keywords_detected].
  by rewrite <- (find_keywords_lower self t1), <- (find_keywords_lower self t2), H.
Qed.

Lemma X10_witness :
  Py.lower (lit "The MASS and the Orbit") = Py.lower (lit "the mass AND THE ORBIT")
  ∧ ∃ r1 r2,
      analyzer_agent.analyze_text analyzer_agent.default_agent
        (lit "The MASS and the Orbit") = Ok r1
      ∧ analyzer_agent.analyze_text analyzer_agent.default_agent
          (lit "the mass AND THE ORBIT") = Ok r2
      ∧ keywords_detected r1 = keywords_detected r2.
Proof.
  split; [by vm_compute|].
  apply (X10_keywords_ignore_case analyzer_agent.default_agent). by vm_compute.
Defined.

(** X11.  [AnalyzerAgent.run] returns one result for every item, in the
    order of the items: the result of [run_on_item] on that item, which
    carries the item's id.  No item is dropped. *)
Theorem X11_run_keeps_every_item (self : analyzer_agent.AnalyzerAgent)
    (items : list item) :
  ∃ results,
    analyzer_agent.run self items = Ok results
    ∧ Forall2
        (fun it res =>
           analyzer_agent.run_on_item self it = Ok res
           ∧ original_id res = item_id it)
        items results.
Proof.
  exists (map (analysis_item_of self) items). split.
  - unfold analyzer_agent.run. by rewrite run_loop_ok.
  - induction items as [|it items IH]; constructor; [|done].
    split; [apply run_on_item_ok|done].
Qed.

(** X12.  An item whose text is empty or all blanks (or that has no
    ["raw"]) scores exactly -2.0, whatever the weights of the evaluator, as
    long as they are finite numbers; it has the two reasons of a short text
    and passes only a threshold of at most -2.0.  Every product and sum on
    the way is 0.0 or -2.0, so the float arithmetic does not round.  (With
    an infinite weight the product 0 * inf is NaN; such weights are no
    values of [Num.float].)  The analyzer's vocabulary must not hold the
    empty keyword. *)
Theorem X12_blank_text_score (an : analyzer_agent.AnalyzerAgent)
    (th : Num.float) (ws : option (gmap string Num.float)) (it : item) :
([] ∉ analyzer_agent.keywords an) →
  forallb Py.is_space (default [] (item_raw it)) = true →
  ∃ wrapper res,
    analyzer_agent.run_on_item an it = Ok wrapper
    ∧ analyze_then_score an (evaluator_agent.__init__ th ws) it = Ok res
    ∧ evaluator_agent.score_value res = Num.dec (-20) 10
    ∧ evaluator_agent.passed_threshold res = Num.fleb th (Num.dec (-20) 10)
    ∧ evaluator_agent.reasons res
      = [lit "Short content (0 words) (no length bonus)";
         lit "Very short content; penalized (-2.0)"]
    ∧ ScoreLocals.exact_arithmetic (evaluator_agent.__init__ th ws) wrapper.
Proof.
  intros Hkw Hblank. do 2 eexists. split; [apply run_on_item_ok|].
  split; [apply analyze_then_score_ok|].
  pose proof (clean_text_blank _ Hblank) as Hc.
  destruct (score_blank an th ws it Hkw Hc) as (H1 & H2 & H3).
  repeat (split; [done|]). by apply exact_blank.
Qed.

Lemma X12_witness :
  ([] ∉ analyzer_agent.keywords analyzer_agent.default_agent)
  ∧ forallb Py.is_space
      (default [] (item_raw (mk_item (Some (lit "a")) None None (Some (lit "   ")))))
    = true
  ∧ ∃ res,
      analyze_then_score analyzer_agent.default_agent
        (evaluator_agent.__init__ (Num.dec 30 10) None)
        (mk_item (Some (lit "a")) None None (Some (lit "   "))) = Ok res
      ∧ evaluator_agent.score_value res = Num.dec (-20) 10.
Proof.
  assert (H : [] ∉ analyzer_agent.keywords analyzer_agent.default_agent).
  { intros H. apply list_elem_of_In in H. vm_compute in H.
    repeat (destruct H as [H|H]; [discriminate|]). done. }
  split; [exact H|]. split; [reflexivity|].
  destruct (X12_blank_text_score analyzer_agent.default_agent (Num.dec 30 10)
              None (mk_item (Some (lit "a")) None None (Some (lit "   "))) H
              eq_refl) as (w & res & _ & H1 & H2 & _).
  by exists res.
Defined.

(** X13.  Under the default weights the score of an analysed item lies
    between -2.0 and 2 x (size of the analyzer's vocabulary) + 13; with the
    default vocabulary of 18 keywords, between -2.0 and 49.0. *)
Theorem X13_pipeline_score_range :
  (∀ (an : analyzer_agent.AnalyzerAgent) (th : Num.float) (it : item),
     ∃ res,
       analyze_then_score an (evaluator_agent.__init__ th None) it = Ok res
       ∧ (Num.dec (-20) 10 ≤ evaluator_agent.score_value res)%Qc
       ∧ (evaluator_agent.score_value res
          ≤ Num.float_of_int (2 * Py.len (analyzer_agent.keywords an) + 13))%Qc)
  ∧ (∀ (th : Num.float) (it : item),
       ∃ res,
         analyze_then_score analyzer_agent.default_agent
           (evaluator_agent.__init__ th None) it = Ok res
         ∧ (Num.dec (-20) 10 ≤ evaluator_agent.score_value res)%Qc
         ∧ (evaluator_agent.score_value res ≤ Num.dec 490 10)%Qc).
Proof.
  assert (H : ∀ (an : analyzer_agent.AnalyzerAgent) (th : Num.float) (it : item),
     ∃ res,
       analyze_then_score an (evaluator_agent.__init__ th None) it = Ok res
       ∧ (Num.dec (-20) 10 ≤ evaluator_agent.score_value res)%Qc
       ∧ (evaluator_agent.score_value res
          ≤ Num.float_of_int (2 * Py.len (analyzer_agent.keywords an) + 13))%Qc).
  { intros an th it. eexists. split; [apply analyze_then_score_ok|].
    rewrite (score_unrounded _ _ (default_grid th)).
    split; [apply total_score_lower_bound|].
    eapply Qcle_trans; [apply total_score_upper_bound|].
    apply float_of_int_mono.
    pose proof (detected_le_keywords an
                  (parser_utils.clean_text (default [] (item_raw it)))) as Hd.
    cbn [analysis_item_of ai_analysis evaluator_agent.field analysis_of
         keywords_detected]. lia. }
  split; [exact H|]. intros th it.
  destruct (H analyzer_agent.default_agent th it) as (res & H1 & H2 & H3).
  exists res. split; [done|]. split; [done|].
  eapply Qcle_trans; [exact H3|]. by vm_compute.
Qed.

(** X14.  When the weights are multiples of 0.125 (the defaults are) the
    verdict agrees with the reported score: ["passed_threshold"] is
    [score >= threshold].  For other weights rounding can make them
    disagree: with a keyword weight of 2.9996 and the threshold 3.0 an item
    is reported with score 3.0 and not passed. *)
Theorem X14_verdict_matches_score :
  (∀ (self : evaluator_agent.EvaluatorAgent) (it : analysis_item),
     ScoreLocals.grid_weights self →
     evaluator_agent.passed_threshold (evaluator_agent.score self it)
     = Num.fleb (evaluator_agent.threshold self)
         (evaluator_agent.score_value (evaluator_agent.score self it)))
  ∧ evaluator_agent.score_value
      (evaluator_agent.score odd_weight_evaluator
         (bare_item ten_words_one_keyword)) = Num.dec 30 10
  ∧ evaluator_agent.passed_threshold
      (evaluator_agent.score odd_weight_evaluator
         (bare_item ten_words_one_keyword)) = false.
Proof.
  split; [|split].
  - intros self it Hg. rewrite (score_unrounded self it Hg).
    apply (score_locals self it).
  - apply Qc_is_canon. by vm_compute.
  - by vm_compute.
Qed.

Lemma X14_witness :
  ScoreLocals.grid_weights evaluator_agent.default_agent
  ∧ evaluator_agent.passed_threshold
      (evaluator_agent.score evaluator_agent.default_agent
         (bare_item ten_words_one_keyword))
    = Num.fleb (evaluator_agent.threshold evaluator_agent.default_agent)
        (evaluator_agent.score_value
           (evaluator_agent.score evaluator_agent.default_agent
              (bare_item ten_words_one_keyword))).
Proof.
  split; [apply default_grid|].
  apply (proj1 X14_verdict_matches_score). apply default_grid.
Defined.




(** X17.  [summarize] returns the text of Gemini, stripped, when Gemini is
    switched on, the key is set, the library is there and the call answers
    with a text that is not blank.  In every other case (switched off, no
    key, no library, a failed call, no text, a blank text) it returns the
    local summary.  It never returns the empty string. *)
Theorem X17_summarize_gemini_or_local (self : summarizer_agent.SummarizerAgent)
    (env : summarizer_agent.gemini_env) (it : item) (a : option analysis) :
  let raw_text := default [] (item_raw it) in
  (∀ key t,
     summarizer_agent.use_gemini self = true →
     summarizer_agent.api_key env = Some key → Py.truthy key = true →
     summarizer_agent.library env = true →
     summarizer_agent.generate_content env key raw_text
     = summarizer_agent.Answered (Some t) →
     Py.truthy (Py.strip t) = true →
     summarizer_agent.summarize self env it a = Py.strip t)
  ∧ (summarizer_agent.use_gemini self = false
     ∨ summarizer_agent.api_key env = None
     ∨ summarizer_agent.api_key env = Some []
     ∨ summarizer_agent.library env = false
     ∨ (∃ key,
          summarizer_agent.api_key env = Some key
          ∧ (summarizer_agent.generate_content env key raw_text
             = summarizer_agent.Failed
             ∨ summarizer_agent.generate_content env key raw_text
               = summarizer_agent.Answered None
             ∨ ∃ t, summarizer_agent.generate_content env key raw_text
                    = summarizer_agent.Answered (Some t)
                    ∧ Py.strip t = [])) →
     summarizer_agent.summarize self env it a
     = summarizer_agent._summarize_local self raw_text a)
  ∧ Py.truthy (summarizer_agent.summarize self env it a) = true.
Proof.
  cbv zeta. rewrite summarize_cases.
  unfold summarizer_agent._summarize_with_gemini.
  split; [|split].
  - intros key t Hu Hk Hkey Hl Hg Ht. rewrite Hu, Hk, Hkey, Hl, Hg. cbn.
    assert (Htt : Py.truthy t = true).
    { destruct t; [done|done]. }
    by rewrite Htt, Ht.
  - intros [H|[H|[H|[H|(key & Hk & H)]]]].
    + by rewrite H.
    + rewrite H. by rewrite andb_false_r.
    + rewrite H. cbn. by rewrite andb_false_r.
    + rewrite H. destruct (summarizer_agent.api_key env) as [k|];
        [destruct (Py.truthy k)|]; cbn; by rewrite andb_false_r.
    + rewrite Hk. destruct (Py.truthy key); cbn [negb];
        [|cbn; by rewrite andb_false_r].
      destruct (summarizer_agent.library env); cbn [negb];
        [|cbn; by rewrite andb_false_r].
      destruct H as [H|[H|(t & H & Ht)]]; rewrite H; cbn;
        rewrite ?andb_false_r; try done.
      destruct (Py.truthy t); rewrite ?Ht; cbn; by rewrite andb_false_r.
  - match goal with
    | |- Py.truthy (if ?c then ?x else ?y) = true => destruct c eqn:E
    end.
    + by apply andb_true_iff in E as [_ E].
    + pose proof (summarize_local_nonempty self (default [] (item_raw it)) a).
      by destruct (summarizer_agent._summarize_local _ _ _).
Qed.

Lemma X17_witness :
  summarizer_agent.summarize (summarizer_agent.__init__ true)
    (answering (lit "  A planet. "))
    (mk_item (Some (lit "a")) None None (Some (lit "text"))) None
  = lit "A planet."
  ∧ summarizer_agent.summarize (summarizer_agent.__init__ true)
      (answering (lit "   "))
      (mk_item (Some (lit "a")) None None (Some (lit "text"))) None
    = summarizer_agent._summarize_local (summarizer_agent.__init__ true)
        (lit "text") None.
Proof.
  split.
  - apply (proj1 (X17_summarize_gemini_or_local
                    (summarizer_agent.__init__ true)
                    (answering (lit "  A planet. "))
                    (mk_item (Some (lit "a")) None None (Some (lit "text")))
                    None) (lit "key") (lit "  A planet. "));
      reflexivity.
  - apply (proj1 (proj2 (X17_summarize_gemini_or_local
                    (summarizer_agent.__init__ true)
                    (answering (lit "   "))
                    (mk_item (Some (lit "a")) None None (Some (lit "text")))
                    None))).
    do 4 right. exists (lit "key"). split; [reflexivity|].
    do 2 right. by exists (lit "   ").
Defined.

(** X18.  The local summary of an analysed text quotes the first two
    claims of the analysis word for word and names every detected keyword;
    when no keyword was detected it says so. *)
Theorem X18_local_summary_quotes (an : analyzer_agent.AnalyzerAgent)
    (self : summarizer_agent.SummarizerAgent) (text : str) :
  ∃ r,
    analyzer_agent.analyze_text an text = Ok r
    ∧ (∀ c, c ∈ take 2 (claims r) →
            occurs_in c (summarizer_agent._summarize_local self text (Some r)))
    ∧ (∀ kw, kw ∈ keywords_detected r →
             occurs_in kw
               (summarizer_agent._summarize_local self text (Some r)))
    ∧ (keywords_detected r = [] →
       occurs_in (lit "(Key terms: no key terms detected)")
         (summarizer_agent._summarize_local self text (Some r))).
Proof.
  eexists. split; [apply analyze_text_ok|].
  set (r := analysis_of an (parser_utils.clean_text text)).
  unfold summarizer_agent._summarize_local.
  cbn [evaluator_agent.field]. split; [|split].
  - intros c Hc. apply occurs_in_app_l.
    destruct (claims r) as [|c1 cs] eqn:Ecl; [by apply elem_of_nil in Hc|].
    cbn [Py.truthy].
    assert (Hst : Forall (fun p => stripped p = true) (take 2 (c1 :: cs))).
    { apply Forall_take. rewrite <- Ecl. apply claims_stripped. }
    replace (Py.list_slice_to (c1 :: cs) 2) with (take 2 (c1 :: cs))
      by reflexivity.
    rewrite (proj1 (stripped_strip _
               (join_stripped (lit " ") (take 2 (c1 :: cs)) ltac:(done) Hst))).
    by apply occurs_in_join.
  - intros kw Hkw. apply occurs_in_app_r, occurs_in_app_r, occurs_in_app_r.
    apply occurs_in_app_l.
    destruct (keywords_detected r) as [|k ks] eqn:Ek;
      [by apply elem_of_nil in Hkw|].
    cbn [Py.truthy]. by apply occurs_in_join.
  - intros ->. cbn [Py.truthy].
    apply occurs_in_app_r, occurs_in_app_r. exists [], []. reflexivity.
Qed.

Lemma X18_witness :
  ∃ r,
    analyzer_agent.analyze_text analyzer_agent.default_agent K2_18b_sample
    = Ok r
    ∧ occurs_in (lit "exoplanet")
        (summarizer_agent._summarize_local (summarizer_agent.__init__ false)
           K2_18b_sample (Some r)).
Proof.
  destruct (X18_local_summary_quotes analyzer_agent.default_agent
              (summarizer_agent.__init__ false) K2_18b_sample)
    as (r & Hr & _ & Hkw & _).
  exists r. split; [done|]. apply Hkw.
  assert (E : r = analysis_of analyzer_agent.default_agent
                    (parser_utils.clean_text K2_18b_sample)).
  { rewrite analyze_text_ok in Hr. by injection Hr. }
  rewrite E. vm_compute. by left.
Defined.

Section MemoryProperties.
Import memory_agent.

(** X19.  After [store(key, data)] on a writable file the first record
    under [key] is the new one, with [data] and the time of the call, and
    the first record under every other key is the one it was before. *)
Theorem X19_store_then_lookup (now : Num.float) (key : str)
    (data : gmap string json) (st : storage) :
  writable st = true →
  first_with_key key (_load (store now key data st))
  = Some (mk_record key now data)
  ∧ (∀ key', key' ≠ key →
       first_with_key key' (_load (store now key data st))
       = first_with_key key' (_load st)).
Proof.
  intros Hw. rewrite store_load by done. split.
  - apply (first_with_key_upsert (mk_record key now data)).
  - intros key' Hne. by apply first_with_key_upsert_other.
Qed.

Lemma X19_witness :
  writable sample_storage = true
  ∧ first_with_key (lit "b")
      (_load (store (Num.dec 3 1) (lit "b") (sample_data "New") sample_storage))
    = Some (mk_record (lit "b") (Num.dec 3 1) (sample_data "New")).
Proof.
  split; [reflexivity|].
  apply (X19_store_then_lookup (Num.dec 3 1) (lit "b") (sample_data "New")
           sample_storage). reflexivity.
Defined.

(** X20.  [store] keeps the keys of the file distinct: if no key occurs
    twice before, none does after.  The file grows by one record when the
    key is new and keeps its length, its keys and their order when the key
    is there already. *)
Theorem X20_store_keeps_keys_distinct (now : Num.float) (key : str)
    (data : gmap string json) (st : storage) :
  writable st = true →
  (NoDup (map rec_key (_load st)) →
   NoDup (map rec_key (_load (store now key data st))))
  ∧ (key ∈ map rec_key (_load st) →
     map rec_key (_load (store now key data st)) = map rec_key (_load st))
  ∧ (key ∉ map rec_key (_load st) →
     _load (store now key data st) = _load st ++ [mk_record key now data]).
Proof.
  intros Hw. rewrite store_load by done. split; [|split].
  - apply upsert_NoDup.
  - intros H. rewrite upsert_keys. cbn [rec_key]. by rewrite decide_True.
  - intros H. unfold upsert. cbn [rec_key]. by rewrite decide_False.
Qed.

Lemma X20_witness :
  writable sample_storage = true
  ∧ NoDup (map rec_key
             (_load (store (Num.dec 3 1) (lit "b") (sample_data "New")
                       sample_storage))).
Proof.
  split; [reflexivity|].
  apply (X20_store_keeps_keys_distinct (Num.dec 3 1) (lit "b")
           (sample_data "New") sample_storage); [reflexivity|].
  repeat constructor; intros H; apply list_elem_of_In in H; vm_compute in H;
    repeat (destruct H as [H|H]; [discriminate|]); done.
Defined.

(** X21.  The last write under a key wins: storing twice under the same
    key leaves the file as storing the second record alone does. *)
Theorem X21_store_last_write_wins (n1 n2 : Num.float) (key : str)
    (d1 d2 : gmap string json) (st : storage) :
  writable st = true →
  store n2 key d2 (store n1 key d1 st) = store n2 key d2 st.
Proof.
  intros Hw.
  assert (Hs : ∀ now k d s, writable s = true →
            store now k d s
            = {| content := Some (upsert (mk_record k now d) (_load s));
                 writable := true |}).
  { intros now k d s Hws. rewrite <- (store_load now k d s Hws).
    pose proof (store_writable now k d s) as Hw'. rewrite Hws in Hw'.
    unfold store in *. destruct (replace_first _ _ _) as [m u].
    unfold _save in *. rewrite Hws in *. reflexivity. }
  rewrite (Hs n2 key d2 (store n1 key d1 st))
    by (by rewrite store_writable).
  rewrite (Hs n2 key d2 st Hw), store_load by done.
  by rewrite (upsert_twice (mk_record key n1 d1) (mk_record key n2 d2)).
Qed.

Lemma X21_witness :
  writable sample_storage = true
  ∧ store (Num.dec 4 1) (lit "c") (sample_data "Second")
      (store (Num.dec 3 1) (lit "c") (sample_data "First") sample_storage)
    = store (Num.dec 4 1) (lit "c") (sample_data "Second") sample_storage.
Proof.
  split; [reflexivity|]. by apply X21_store_last_write_wins.
Defined.



(** X23.  [compact] on a writable file removes ["raw"] from the data of
    every record and changes nothing else: the keys, the time stamps, the
    order and every other entry of the data stay.  Compacting twice is
    compacting once. *)
Theorem X23_compact_removes_raw (st : storage) :
  (writable st = true →
   Forall2
     (fun r r' =>
        rec_key r' = rec_key r ∧ rec_timestamp r' = rec_timestamp r
        ∧ rec_data r' !! "raw" = None
        ∧ ∀ k, k ≠ "raw"%string → rec_data r' !! k = rec_data r !! k)
     (_load st) (_load (compact st)))
  ∧ compact (compact st) = compact st.
Proof.
  split; [|apply compact_idempotent].
  intros Hw. rewrite compact_load by done.
  induction (_load st) as [|r l IH]; constructor; [|done].
  unfold without_raw. cbn [rec_key rec_timestamp rec_data].
  split; [done|]. split; [done|]. split; [apply lookup_delete_eq|].
  intros k Hk. by rewrite lookup_delete_ne.
Qed.

Lemma X23_witness :
  writable sample_storage = true
  ∧ Forall (fun r => rec_data r !! "raw" = None) (_load (compact sample_storage)).
Proof.
  split; [reflexivity|].
  pose proof (proj1 (X23_compact_removes_raw sample_storage) eq_refl) as H.
  revert H. generalize (_load (compact sample_storage)).
  generalize (_load sample_storage).
  induction 1 as [|r r' l l' (_ & _ & Hr & _) _ IH]; constructor; done.
Defined.



(** X25.  What is stored can be found: after [store(key, data)] on a
    writable file, [query_similar(text)] returns the new record for every
    [text] that occurs, up to case, in the summary of [data]. *)
Theorem X25_stored_summary_is_found (now : Num.float) (key : str)
    (data : gmap string json) (st : storage) (summary text : str) :
  writable st = true →
  data !! "summary" = Some (JStr summary) →
  occurs_in (Py.lower text) (Py.lower summary) →
  mk_record key now data ∈ query_similar text (store now key data st).
Proof.
  intros Hw Hd Hocc. unfold query_similar.
  apply list_elem_of_filter. split.
  - apply Is_true_true, is_similar_spec. exists summary.
    unfold summary_of. cbn [rec_data]. by rewrite Hd.
  - rewrite store_load by done.
    pose proof (first_with_key_upsert (mk_record key now data) (_load st)) as H.
    cbn [rec_key] in H. revert H.
    generalize (upsert (mk_record key now data) (_load st)).
    induction l as [|r l IH]; [done|]. simpl.
    destruct (decide (rec_key r = key)).
    + intros [= ->]. by left.
    + intros H. right. by apply IH.
Qed.

Lemma X25_witness :
  mk_record (lit "c") (Num.dec 3 1) (sample_data "Orbital period of 33 days")
  ∈ query_similar (lit "PERIOD")
      (store (Num.dec 3 1) (lit "c") (sample_data "Orbital period of 33 days")
         sample_storage).
Proof.
  apply (X25_stored_summary_is_found (Num.dec 3 1) (lit "c")
           (sample_data "Orbital period of 33 days") sample_storage
           (lit "Orbital period of 33 days") (lit "PERIOD"));
    [reflexivity|reflexivity|].
  by exists (lit "orbital "), (lit " of 33 days").
Defined.

End MemoryProperties.

Section FetchProperties.
Import fetcher_agent.

Lemma flat_map_filter {A B} (f : A → list B) (P : A → Prop)
    `{∀ x, Decision (P x)} (l : list A) :
  (∀ x, ¬ P x → f x = []) → flat_map f (filter P l) = flat_map f l.
Proof.
  intros Hf. induction l as [|x l IH]; [done|].
  destruct (decide (P x)) as [Hx|Hx].
  - rewrite filter_cons_True by done. cbn [flat_map]. by rewrite IH.
  - rewrite filter_cons_False by done. cbn [flat_map].
    by rewrite (Hf x Hx), IH.
Qed.

(** X26.  [FetcherAgent.run] returns each id once: the ids of the result
    are distinct, the result is a sublist of what the sources gave, every id
    that was fetched is there, and of the items under one id it is the
    first that is kept. *)
Theorem X26_fetch_run_deduplicates (self : FetcherAgent) (local : list item)
    (sources : option (list str)) :
  let fetched :=
    flat_map (source_items self local) (default [lit "local"] sources) in
  let out := run self local sources in
  NoDup (map item_id out)
  ∧ out `sublist_of` fetched
  ∧ (∀ it, it ∈ fetched → item_id it ∈ map item_id out)
  ∧ (∀ it, it ∈ out → first_with_id (item_id it) fetched = Some it).
Proof.
  cbv zeta. unfold run. rewrite fetch_sources_flat. cbn [app].
  destruct (deduplicate_spec
              (flat_map (source_items self local)
                 (default [lit "local"] sources)) ∅)
    as (H1 & _ & H3 & H4 & H5).
  split; [done|]. split; [done|]. split; [|done].
  intros it Hit. destruct (H4 it Hit) as [H|H]; [|done].
  by apply elem_of_empty in H.
Qed.

Lemma X26_witness :
  map item_id (run (mk_FetcherAgent (lit "data/samples") true) sample_items None)
  = [Some (lit "k2-18b.txt"); Some (lit "note.txt")]
  ∧ NoDup (map item_id
             (run (mk_FetcherAgent (lit "data/samples") true) sample_items None)).
Proof.
  split; [by vm_compute|].
  apply (X26_fetch_run_deduplicates
           (mk_FetcherAgent (lit "data/samples") true) sample_items None).
Defined.

(** X27.  With the default sources [run] returns the local samples as they
    are when their ids are distinct.  The source "arxiv" and unknown source
    names contribute nothing: leaving them out of [sources] does not change
    the result. *)
Theorem X27_fetch_run_sources (self : FetcherAgent) (local : list item) :
  (NoDup (map item_id local) → run self local None = local)
  ∧ (∀ sources,
       run self local (Some sources)
       = run self local
           (Some (filter (fun s => s = lit "local" ∨ s = lit "nasa_apod")
                    sources))).
Proof.
  split.
  - intros Hnd. unfold run. rewrite fetch_sources_flat.
    cbn [default flat_map app]. unfold source_items at 1.
    rewrite decide_True by done. rewrite app_nil_r.
    apply deduplicate_distinct; [done|]. intros it _. apply not_elem_of_empty.
  - intros sources. unfold run. rewrite !fetch_sources_flat. cbn [default app].
    f_equal. symmetry. apply flat_map_filter. intros src Hsrc.
    unfold source_items. rewrite !decide_False; [done| |]; intros E; apply Hsrc; auto.
Qed.

Lemma X27_witness :
  NoDup (map item_id (take 2 sample_items))
  ∧ run (mk_FetcherAgent (lit "data/samples") true) (take 2 sample_items) None
    = take 2 sample_items.
Proof.
  assert (H : NoDup (map item_id (take 2 sample_items))).
  { repeat constructor; intros H; apply list_elem_of_In in H; vm_compute in H;
      repeat (destruct H as [H|H]; [discriminate|]); done. }
  split; [exact H|].
  by apply (X27_fetch_run_sources (mk_FetcherAgent (lit "data/samples") true)).
Defined.

End FetchProperties.

Section CycleProperties.
Import memory_agent orchestrator_agent.

(** X28.  After one cycle of [run_once] on a writable memory file no
    record of the file holds ["raw"]; the keys of the file are the keys it
    had before and the ids of the fetched items that passed the threshold;
    and when the ids of the fetched items are distinct, the record under
    the id of a passing item holds its summary, analysis and evaluation. *)
Theorem X28_run_once_memory (self : OrchestratorAgent)
    (env : summarizer_agent.gemini_env) (local : list item) (run_start : str)
    (clock : nat → Num.float) (mem : storage) :
  writable mem = true →
  let items := fetcher_agent.run (fetcher self) local None in
  let mem' := (run_once self env local run_start clock mem).2 in
  Forall (fun r => rec_data r !! "raw" = None) (_load mem')
  ∧ (∀ k, k ∈ map rec_key (_load mem') ↔
          k ∈ map rec_key (_load mem)
          ∨ ∃ it, it ∈ items ∧ key_of it = k ∧ passes self it = true)
  ∧ (NoDup (map key_of items) →
     ∀ j it,
       items !! j = Some it → passes self it = true →
       first_with_key (key_of it) (_load mem')
       = Some (without_raw (record_of self env clock j it))).
Proof.
  intros Hw. cbv zeta.
  destruct (run_once_ok self env local run_start clock mem Hw)
    as (_ & _ & Hl).
  rewrite Hl. split; [|split].
  - apply Forall_forall. intros r Hr.
    apply list_elem_of_In, list_elem_of_fmap in Hr as (r0 & -> & _).
    unfold without_raw. cbn [rec_data]. apply lookup_delete_eq.
  - intros k. rewrite <- memory_after_keys.
    rewrite <- !list_fmap_compose.
    assert (E : ∀ l, map (rec_key ∘ without_raw) l = map rec_key l).
    { intros l. by apply map_ext. }
    unfold fmap, list_fmap in *. by rewrite E.
  - intros Hnd j it Hj Hp. rewrite first_with_key_without_raw.
    by rewrite (memory_after_stored self env clock _ 0 _ j it Hnd Hj Hp).
Qed.

Lemma X28_witness :
  writable sample_storage = true
  ∧ Forall (fun r => rec_data r !! "raw" = None)
      (_load (run_once (__init__ no_gemini) no_gemini sample_items
                (lit "2025-01-01T00:00:00Z") (fun n => Num.float_of_int (Z.of_nat n))
                sample_storage).2).
Proof.
  split; [reflexivity|].
  pose proof (X28_run_once_memory (__init__ no_gemini) no_gemini sample_items
                (lit "2025-01-01T00:00:00Z")
                (fun n => Num.float_of_int (Z.of_nat n)) sample_storage
                eq_refl) as H.
  cbv zeta in H. apply H.
Defined.

(** X29.  The dict [run_once] returns accounts for every fetched item:
    ["items"] has one entry per item, in order, with its id, title, score
    and verdict (and its summary when it passed), and ["processed_items"] is
    the number of items that passed, which is what [filter_passed] keeps of
    [evaluate_batch] on the results of [AnalyzerAgent.run]. *)
Theorem X29_run_once_log (self : OrchestratorAgent)
    (env : summarizer_agent.gemini_env) (local : list item) (run_start : str)
    (clock : nat → Num.float) (mem : storage) :
  let items := fetcher_agent.run (fetcher self) local None in
  let log := (run_once self env local run_start clock mem).1 in
  ∃ wrappers,
    analyzer_agent.run (analyzer self) items = Ok wrappers
    ∧ processed_items log
      = Py.len
          (evaluator_agent.filter_passed (evaluator self)
             (evaluator_agent.evaluate_batch (evaluator self) wrappers))
    ∧ 0 <= processed_items log <= Py.len items
    ∧ log_items log = map (entry_of self env) items
    ∧ log_timestamp log = run_start.
Proof.
  cbv zeta. rewrite run_once_log. cbn [processed_items log_items log_timestamp].
  exists (map (analysis_item_of (analyzer self))
            (fetcher_agent.run (fetcher self) local None)).
  split; [unfold analyzer_agent.run; by rewrite run_loop_ok|].
  split; [by rewrite passed_count|]. split; [|done].
  unfold Py.len.
  pose proof (length_filter (fun it => Is_true (passes self it))
                (fetcher_agent.run (fetcher self) local None)). lia.
Qed.

End CycleProperties.

(** X30.  The [clean_text] that [analyzer_agent] defines for itself when
    [tools.parser_utils] cannot be imported returns, for every text, what
    the [clean_text] of [tools/parser_utils.py] returns.  The analysis of a
    text is therefore the same in both cases, whichever of the two the
    import left in the module. *)
Theorem X30_fallback_clean_text :
  (∀ s : str,
     analyzer_agent.fallback_clean_text s = parser_utils.clean_text s)
  ∧ (∀ (self : analyzer_agent.AnalyzerAgent) (raw_text : str),
       analyzer_agent.analyze_text_with parser_utils.clean_text self raw_text
       = analyzer_agent.analyze_text self raw_text)
  ∧ (∀ (self : analyzer_agent.AnalyzerAgent) (raw_text : str),
       analyzer_agent.analyze_text_with analyzer_agent.fallback_clean_text
         self raw_text
       = analyzer_agent.analyze_text self raw_text).
Proof.
  split; [apply fallback_clean_text_eq|]. split; [reflexivity|].
  intros self raw_text.
  unfold analyzer_agent.analyze_text_with, analyzer_agent.analyze_text.
  by rewrite fallback_clean_text_eq.
Qed.
